(** * BlockwiseGemmToThreadwise: the MIOpen blockwise-to-threadwise lowering

    A shallow embedding of
    [mlir/lib/Dialect/MIOpen/Transforms/BlockwiseGemmToThreadwise.cpp].

    The four rewrite patterns of that file are written as programs of a
    small rewriter monad: a pattern emits operations in creation order,
    may replace the operation it matched, and may stop the compiler (a
    failed [assert], [llvm_unreachable], a failed [cast<>], an integer
    division by zero).  The IR is a tree of operations; SSA values are
    numbered and carry their type.  A small interpreter for the arithmetic,
    loop and memory operations gives the emitted code a meaning, so that
    statements about addresses and about the number of elements copied are
    statements about runs of the generated code. *)

From Stdlib Require Import ZArith List String Bool Arith Lia FinFun.
Import ListNotations.

Set Warnings "-register-all".

Local Open Scope string_scope.
Local Open Scope list_scope.
Local Open Scope Z_scope.

(** ** Types and SSA values *)

(** The builtin types the pass looks at.  [shape] holds [int64_t] extents. *)
Inductive Ty : Type :=
| IndexType
| F16 | BF16 | F32 | I8 | I32
| VectorType (shape : list Z) (elementType : Ty)
| MemRefType (shape : list Z) (elementType : Ty) (memorySpace : Z).

Fixpoint list_Z_eqb (a b : list Z) : bool :=
  match a, b with
  | [], [] => true
  | x :: a', y :: b' => (x =? y) && list_Z_eqb a' b'
  | _, _ => false
  end.

Fixpoint Ty_eqb (a b : Ty) : bool :=
  match a, b with
  | IndexType, IndexType | F16, F16 | BF16, BF16
  | F32, F32 | I8, I8 | I32, I32 => true
  | VectorType s e, VectorType s' e' => list_Z_eqb s s' && Ty_eqb e e'
  | MemRefType s e m, MemRefType s' e' m' =>
      list_Z_eqb s s' && Ty_eqb e e' && (m =? m')
  | _, _ => false
  end.

(** A [Value] is an SSA value: a number that identifies its definition, and
    its type ([Value::getType]). *)
Record Value : Type := mkValue { vid : nat; vty : Ty }.

(** Attributes read or written by the pass. *)
Inductive Attribute : Type :=
| IntegerAttr (type : Ty) (value : Z)
| StringAttr (value : string)
| UnitAttr.

Definition NamedAttrList := list (string * Attribute).

Fixpoint getAttr (name : string) (attrs : NamedAttrList) : option Attribute :=
  match attrs with
  | [] => None
  | (n, a) :: rest => if String.eqb n name then Some a else getAttr name rest
  end.

Definition hasAttr (name : string) (attrs : NamedAttrList) : bool :=
  match getAttr name attrs with Some _ => true | None => false end.

Fixpoint setAttr (name : string) (a : Attribute) (attrs : NamedAttrList)
  : NamedAttrList :=
  match attrs with
  | [] => [(name, a)]
  | (n, a') :: rest =>
      if String.eqb n name then (n, a) :: rest
      else (n, a') :: setAttr name a rest
  end.

(** ** Fixed-width integer arithmetic of the compiler itself

    The pass computes with [int64_t].  [int64] is the two's-complement
    wrap-around; [/] truncates ([Z.quot]) and [%] takes the sign of the
    dividend ([Z.rem]).  A zero divisor stops the compiler, see
    [int64_div] below. *)

Definition int64 (z : Z) : Z := (z + 2 ^ 63) mod 2 ^ 64 - 2 ^ 63.

Definition int64_mul (a b : Z) : Z := int64 (a * b).

Definition in_int64 (z : Z) : Prop := - 2 ^ 63 <= z < 2 ^ 63.

(** ** Transform maps

    [TransformMapBuilder.h] is not part of the sources at hand.  A transform
    map is kept as the record of the builder calls that made it: the
    direction of the builder, the names and extents it started from, and the
    calls in order with the arguments the pass gives them. *)

Inductive TMBuilderCall : Type :=
| passThrough (name : string)
| passThroughTo (outNames : list string) (outDims : list nat)
                (inNames : list string)
| embed (lowerName : string) (lowerDim : nat) (lowerSize : Z)
        (upperNames : list string) (coefficients : list Z)
| unmerge (upperNames : list string) (upperDims : list nat)
          (lowerName : string) (lengths : list Z).

Inductive TMDirection : Type := TopDown | BottomUp.

Record TransformMapAttr : Type := mkTransformMap {
  tmDirection : TMDirection;
  tmStartNames : list string;
  tmStartShape : list Z;
  tmCalls : list TMBuilderCall
}.

Definition TopDownTMBuilder (names : list string) (shape : list Z)
  (calls : list TMBuilderCall) : TransformMapAttr :=
  mkTransformMap TopDown names shape calls.

Definition BottomUpTMBuilder (names : list string) (shape : list Z)
  (calls : list TMBuilderCall) : TransformMapAttr :=
  mkTransformMap BottomUp names shape calls.

(** Number of coordinates of the lower space of a map: a bottom-up builder
    starts from the lower space; a top-down builder introduces one lower
    dimension per pass-through dimension and per [embed]. *)
Definition callLowerRank (c : TMBuilderCall) : nat :=
  match c with
  | passThrough _ => 1
  | passThroughTo outNames _ _ => List.length outNames
  | embed _ _ _ _ _ => 1
  | unmerge _ _ _ _ => 1
  end.

Definition lowerRank (t : TransformMapAttr) : nat :=
  match tmDirection t with
  | BottomUp => List.length (tmStartNames t)
  | TopDown => fold_right (fun c n => (callLowerRank c + n)%nat) 0%nat (tmCalls t)
  end.

(** ** Operations *)

Inductive StoreMethod : Type := StoreSet | StoreAtomicAdd.

(** Operands of [miopen.fill] ([FillOpAdaptor]) and the op itself. *)
Record FillOpAdaptor : Type := mkFillOpAdaptor {
  fill_input : Value;
  fill_value : Value
}.

Record FillOp : Type := mkFillOp {
  fill_operands : FillOpAdaptor
}.

(** Operands and attributes of [miopen.blockwise_gemm]. *)
Record BlockwiseGemmOpAdaptor : Type := mkBlockwiseGemmOpAdaptor {
  bg_matrixA : Value;
  bg_matrixB : Value;
  bg_matrixC : Value;
  bg_threadOffsetA : Value;
  bg_threadOffsetB : Value
}.

Record BlockwiseGemmOp : Type := mkBlockwiseGemmOp {
  bg_operands : BlockwiseGemmOpAdaptor;
  kPerThreadAttr : Z;
  mPerThreadAttr : Z;
  nPerThreadAttr : Z;
  mRepeatStrideAttr : Z;
  nRepeatStrideAttr : Z
}.

(** Operands, attributes and results of [miopen.blockwise_gemm_v2].  The
    attributes "m", "n", "k", "m_per_wave", "n_per_wave" and "kpack" are
    looked up by name in [v2_attrs], as the pass does. *)
Record BlockwiseGemmV2OpAdaptor : Type := mkBlockwiseGemmV2OpAdaptor {
  v2_matrixA : Value;
  v2_matrixB : Value;
  v2_waveOffsetA : Value;
  v2_waveOffsetB : Value;
  v2_bufferA : Value;
  v2_bufferB : Value;
  v2_vectorCs : list Value
}.

Record BlockwiseGemmV2Op : Type := mkBlockwiseGemmV2Op {
  v2_operands : BlockwiseGemmV2OpAdaptor;
  v2_attrs : NamedAttrList;
  ldsBufferOffsetA : Z;
  ldsBufferOffsetB : Z;
  v2_vectorDs : list Value
}.

(** [miopen.xdlops_gemm_v2], the op the V2 lowering emits. *)
Record XdlopsGemmV2Op : Type := mkXdlopsGemmV2Op {
  xd_vectorDs : list Value;
  xd_matrixA : Value;
  xd_matrixB : Value;
  xd_ldsBufferOffsetA : Z;
  xd_ldsBufferOffsetB : Z;
  xd_regOffsetA : Value;
  xd_regOffsetB : Value;
  xd_bufferA : Value;
  xd_bufferB : Value;
  xd_vectorCs : list Value;
  xd_attrs : NamedAttrList
}.

(** [miopen.threadwise_copy_v2]. *)
Record ThreadwiseCopyV2Op : Type := mkThreadwiseCopyV2Op {
  tc_source : Value;
  tc_dest : Value;
  tc_length : Z;
  tc_leftOobDims : list Z;
  tc_rightOobDims : list Z;
  tc_sourceCoord : Value;
  tc_destCoord : list Value;
  tc_storeMethodAttr : StoreMethod
}.

(** The operations of the IR.  Terminators ([affine.yield], [miopen.yield])
    are implicit.  [OtherOp] stands for any operation the pass neither
    matches nor creates. *)
Inductive Operation : Type :=
(* arith *)
| ConstantIndexOp (res : Value) (value : Z)
| AddIOp (res lhs rhs : Value)
| MulIOp (res lhs rhs : Value)
| DivUIOp (res lhs rhs : Value)
| RemUIOp (res lhs rhs : Value)
| TypeConversionOp (res src : Value)
(* affine *)
| AffineForOp (iv : Value) (lb ub step : Z) (body : list Operation)
(* memref *)
| LoadOp (res memref : Value) (indices : list Value)
| StoreOp (value memref : Value) (indices : list Value)
(* miopen *)
| WorkitemIdOp (res : Value)
| GpuAllocOp (res : Value)
| TransformOp (res input : Value) (transform : TransformMapAttr)
| TransformingForOp (lowerCoords : list (list Value))
    (starts : list (list Value)) (transforms : list (list TransformMapAttr))
    (bounds : list Z) (strides : option (list Z))
    (forceUnroll useIndexDiffs : bool) (body : list Operation)
| InBoundsLoadOp (res : Value) (source : Value) (coords : list Value)
| BufferStoreOp (data dest : Value) (leftOobDims rightOobDims : list Z)
    (coords : list Value) (storeMethod : StoreMethod)
| ThreadwiseGemmOp (matrixA matrixB matrixC : Value)
| XdlopsGemmV2 (op : XdlopsGemmV2Op)
| Fill (op : FillOp)
| BlockwiseGemm (op : BlockwiseGemmOp)
| BlockwiseGemmV2 (op : BlockwiseGemmV2Op)
| ThreadwiseCopyV2 (op : ThreadwiseCopyV2Op)
(* anything else *)
| OtherOp (dialect name : string) (operands results : list Value)
    (regions : list Operation).


(** ** The rewriter

    A pattern runs against a [RewriterState]: the counter for fresh SSA
    values, the operations created so far at the insertion point (in creation
    order), and the values that replace the results of the matched operation
    once [replaceOp] was called.  [Fatal] is a compiler that stopped: nothing
    of the state survives it. *)

Inductive LogicalResult : Type := success | failure.

Inductive Outcome (A : Type) : Type :=
| Ok (a : A)
| Fatal (why : string).

Arguments Ok {A} a.
Arguments Fatal {A} why.

Record RewriterState : Type := mkRewriterState {
  nextId : nat;
  emitted : list Operation;
  replacement : option (list Value)
}.

Definition Rewriter (A : Type) : Type :=
  RewriterState -> Outcome (A * RewriterState).

Definition ret {A} (a : A) : Rewriter A := fun s => Ok (a, s).

Definition bind {A B} (m : Rewriter A) (k : A -> Rewriter B) : Rewriter B :=
  fun s => match m s with
           | Ok (a, s') => k a s'
           | Fatal why => Fatal why
           end.

Definition fatal {A} (why : string) : Rewriter A := fun _ => Fatal why.

Declare Scope rewriter_scope.
Delimit Scope rewriter_scope with rewriter.
Notation "x <- c1 ;; c2" := (bind c1 (fun x => c2))
  (at level 61, c1 at next level, right associativity) : rewriter_scope.
Notation "c1 ;; c2" := (bind c1 (fun _ => c2))
  (at level 61, right associativity) : rewriter_scope.
Local Open Scope rewriter_scope.

(** [assert(cond && "message")]. *)
Definition assert (cond : bool) (message : string) : Rewriter unit :=
  if cond then ret tt else fatal message.

Definition llvm_unreachable {A} (message : string) : Rewriter A :=
  fatal message.

(** [a / b] and [a % b] on [int64_t]. *)
Definition int64_div (a b : Z) : Rewriter Z :=
  if b =? 0 then fatal "integer division by zero" else ret (int64 (Z.quot a b)).

Definition int64_rem (a b : Z) : Rewriter Z :=
  if b =? 0 then fatal "integer division by zero" else ret (int64 (Z.rem a b)).

(** [t.cast<MemRefType>()], as the triple a [MemRefType] is made of. *)
Record MemRefInfo : Type := mkMemRefInfo {
  getShape : list Z;
  getElementType : Ty;
  getMemorySpace : Z
}.

Definition cast_MemRefType (t : Ty) : Rewriter MemRefInfo :=
  match t with
  | MemRefType shape elementType space =>
      ret (mkMemRefInfo shape elementType space)
  | _ => fatal "cast<MemRefType>() argument of incompatible type"
  end.

(** [shape[i]] on an [ArrayRef]. *)
Definition at_index {A} (l : list A) (i : nat) : Rewriter A :=
  match nth_error l i with
  | Some x => ret x
  | None => fatal "index out of range"
  end.

(** [op->getAttr(name).cast<IntegerAttr>().getInt()]. *)
Definition getIntAttr (attrs : NamedAttrList) (name : string) : Rewriter Z :=
  match getAttr name attrs with
  | Some (IntegerAttr _ v) => ret v
  | _ => fatal "cast<IntegerAttr>() argument of incompatible type"
  end.

Definition fresh (t : Ty) : Rewriter Value :=
  fun s => Ok (mkValue (nextId s) t,
               mkRewriterState (S (nextId s)) (emitted s) (replacement s)).

Fixpoint freshs (ts : list Ty) : Rewriter (list Value) :=
  match ts with
  | [] => ret []
  | t :: ts' => v <- fresh t ;; vs <- freshs ts' ;; ret (v :: vs)
  end.

(** The values [freshs] gives out from the counter [next]. *)
Fixpoint valuesFrom (next : nat) (ts : list Ty) : list Value :=
  match ts with
  | [] => []
  | t :: ts' => mkValue next t :: valuesFrom (S next) ts'
  end.

Definition emit (o : Operation) : Rewriter unit :=
  fun s => Ok (tt, mkRewriterState (nextId s) (emitted s ++ [o]) (replacement s)).

(** [b.replaceOp(op, values)]. *)
Definition replaceOp (values : list Value) : Rewriter unit :=
  fun s => Ok (tt, mkRewriterState (nextId s) (emitted s) (Some values)).

(** Runs [m] with the insertion point inside a fresh region and gives back
    the operations created there; the value counter runs on. *)
Definition inRegion {A} (m : Rewriter A) : Rewriter (A * list Operation) :=
  fun s =>
    match m (mkRewriterState (nextId s) [] (replacement s)) with
    | Ok (a, s') =>
        Ok ((a, emitted s'),
            mkRewriterState (nextId s') (emitted s) (replacement s'))
    | Fatal why => Fatal why
    end.

(** The state a pattern starts from. *)
Definition initState (n0 : nat) : RewriterState := mkRewriterState n0 [] None.

(** *** Builders of the operations the pass creates *)

Definition create_ConstantIndexOp (value : Z) : Rewriter Value :=
  r <- fresh IndexType ;; emit (ConstantIndexOp r value) ;; ret r.

(** [createOrFold<ConstantIndexOp>]: a constant folds to itself. *)
Definition createOrFold_ConstantIndexOp (value : Z) : Rewriter Value :=
  create_ConstantIndexOp value.

Definition create_AddIOp (lhs rhs : Value) : Rewriter Value :=
  r <- fresh (vty lhs) ;; emit (AddIOp r lhs rhs) ;; ret r.

Definition create_MulIOp (lhs rhs : Value) : Rewriter Value :=
  r <- fresh (vty lhs) ;; emit (MulIOp r lhs rhs) ;; ret r.

Definition create_DivUIOp (lhs rhs : Value) : Rewriter Value :=
  r <- fresh (vty lhs) ;; emit (DivUIOp r lhs rhs) ;; ret r.

Definition create_RemUIOp (lhs rhs : Value) : Rewriter Value :=
  r <- fresh (vty lhs) ;; emit (RemUIOp r lhs rhs) ;; ret r.

Definition create_WorkitemIdOp (t : Ty) : Rewriter Value :=
  r <- fresh t ;; emit (WorkitemIdOp r) ;; ret r.

Definition create_GpuAllocOp (t : Ty) : Rewriter Value :=
  r <- fresh t ;; emit (GpuAllocOp r) ;; ret r.

Definition create_LoadOp (memref : Value) (indices : list Value)
  : Rewriter Value :=
  mt <- cast_MemRefType (vty memref) ;;
  r <- fresh (getElementType mt) ;; emit (LoadOp r memref indices) ;; ret r.

Definition create_StoreOp (value memref : Value) (indices : list Value)
  : Rewriter unit :=
  emit (StoreOp value memref indices).

Definition create_InBoundsLoadOp (t : Ty) (source : Value)
  (coords : list Value) : Rewriter Value :=
  r <- fresh t ;; emit (InBoundsLoadOp r source coords) ;; ret r.

Definition create_ThreadwiseGemmOp (a b c : Value) : Rewriter unit :=
  emit (ThreadwiseGemmOp a b c).

(** [b.create<AffineForOp>(loc, lb, ub, step)] followed by the code that
    fills the body of the loop, which receives the induction variable. *)
Definition create_AffineForOp (lb ub step : Z)
  (body : Value -> Rewriter unit) : Rewriter unit :=
  iv <- fresh IndexType ;;
  r <- inRegion (body iv) ;;
  emit (AffineForOp iv lb ub step (snd r)).

(** ** ThreadwiseCopyV2 lowering (lines 625-651) *)

Module ThreadwiseCopyV2RewritePattern.

(** Lines 637-639 and 640-642: the element type, or a vector of
    [copyLength] of them when [copyLength > 1]. *)
Definition typeFor (copyLength : Z) (elementType : Ty) : Ty :=
  if copyLength >? 1 then VectorType [copyLength] elementType
  else elementType.

Definition matchAndRewrite (op : ThreadwiseCopyV2Op)
  : Rewriter LogicalResult :=
  let source := tc_source op in
  sourceType <- cast_MemRefType (vty source) ;;
  let sourceCoord := tc_sourceCoord op in
  let copyLength := tc_length op in
  let typeToLoad := typeFor copyLength (getElementType sourceType) in
  destType <- cast_MemRefType (vty (tc_dest op)) ;;
  let typeToStore := typeFor copyLength (getElementType destType) in
  loaded <- create_InBoundsLoadOp typeToLoad source [sourceCoord] ;;
  (* replaceOpWithNewOp<BufferStoreOp>: the store has no result *)
  emit (BufferStoreOp loaded (tc_dest op) (tc_leftOobDims op)
          (tc_rightOobDims op) (tc_destCoord op) (tc_storeMethodAttr op)) ;;
  replaceOp [] ;;
  ret success.

(** How many elements of type [elementType] a value of type [t] holds:
    one for the element type itself, [n] for a one-dimensional vector of
    [n] of them. *)
Definition widthOver (elementType t : Ty) : option Z :=
  if Ty_eqb t elementType then Some 1
  else match t with
       | VectorType [n] e => if Ty_eqb e elementType then Some n else None
       | _ => None
       end.

End ThreadwiseCopyV2RewritePattern.

(** ** Fill lowering (lines 56-76) *)

(** Modelled from the spec: [buildAffineLoopNest] is not part of the sources
    at hand.  It makes "an explicit nested affine loop": one [affine.for] per
    entry of the bounds, outermost first, and calls the body builder in the
    innermost loop with all induction variables. *)
Fixpoint buildAffineLoopNest (lbs ubs steps : list Z) (ivs : list Value)
  (bodyBuilderFn : list Value -> Rewriter unit) : Rewriter unit :=
  match lbs, ubs, steps with
  | lb :: lbs', ub :: ubs', step :: steps' =>
      create_AffineForOp lb ub step
        (fun iv => buildAffineLoopNest lbs' ubs' steps' (ivs ++ [iv])
                     bodyBuilderFn)
  | [], [], [] => bodyBuilderFn ivs
  | _, _, _ => fatal "bounds and steps of different sizes"
  end.

Module FillRewritePattern.

Definition matchAndRewrite (op : FillOp) (adaptor : FillOpAdaptor)
  : Rewriter LogicalResult :=
  inputType <- cast_MemRefType (vty (fill_input (fill_operands op))) ;;
  let inputShape := getShape inputType in
  let lbs := repeat 0 (List.length inputShape) in
  let strides := repeat 1 (List.length inputShape) in
  buildAffineLoopNest lbs inputShape strides []
    (fun ivs => create_StoreOp (fill_value adaptor) (fill_input adaptor) ivs) ;;
  replaceOp [] ;;
  ret success.

(** The loop nest the spec describes for a fill, to compare the pattern's
    output with: one [affine.for] from 0 to the extent in steps of 1 per
    dimension, numbered from [next], around one store at the induction
    variables. *)
Fixpoint expectedNest (value input : Value) (ivs : list Value) (next : nat)
  (shape : list Z) : list Operation :=
  match shape with
  | [] => [StoreOp value input ivs]
  | ub :: shape' =>
      [AffineForOp (mkValue next IndexType) 0 ub 1
         (expectedNest value input (ivs ++ [mkValue next IndexType]) (S next)
            shape')]
  end.

End FillRewritePattern.

(** ** BlockwiseGemm lowering (lines 82-229) *)

(** [gpu::GPUDialect::getPrivateAddressSpace()]. *)
Definition getPrivateAddressSpace : Z := 5.

(** Modelled from the spec: [createTypeConversionOp] (builderUtils.h) is not
    part of the sources at hand; it applies "an element type conversion at
    each element if source/destination types differ". *)
Definition createTypeConversionOp (source : Value) (destType : Ty)
  : Rewriter Value :=
  if Ty_eqb (vty source) destType then ret source
  else (r <- fresh destType ;; emit (TypeConversionOp r source) ;; ret r).

(** Modelled from the spec: [reshapeBuffer] (loweringUtils.h) is not part of
    the sources at hand; it is "a zero-cost coordinate re-view, not a data
    copy" of a flat buffer under the given names and shape. *)
Definition reshapeBuffer (buffer : Value) (names : list string)
  (shape : list Z) : Rewriter Value :=
  bufferType <- cast_MemRefType (vty buffer) ;;
  r <- fresh (MemRefType shape (getElementType bufferType)
                (getMemorySpace bufferType)) ;;
  emit (TransformOp r buffer
          (BottomUpTMBuilder ["raw"] (getShape bufferType)
             [unmerge names (seq 0 (List.length names)) "raw" shape])) ;;
  ret r.

(** The number of lower coordinates a [TransformingForOp] hands to its body
    for one domain: the rank below the last map of the chain, or the rank of
    the start coordinates under an empty chain. *)
Definition domainLowerRank (start : list Value)
  (chain : list TransformMapAttr) : nat :=
  match rev chain with
  | [] => List.length start
  | t :: _ => lowerRank t
  end.

(** [b.create<TransformingForOp>(...)] followed by the code that fills its
    body; [getLowerCoords] of the loop is handed to that code. *)
Definition create_TransformingForOp (starts : list (list Value))
  (transforms : list (list TransformMapAttr)) (bounds : list Z)
  (strides : option (list Z)) (forceUnroll useIndexDiffs : bool)
  (body : (nat -> list Value) -> Rewriter unit) : Rewriter unit :=
  (fix args (ds : list (list Value * list TransformMapAttr))
     (k : list (list Value) -> Rewriter unit) : Rewriter unit :=
     match ds with
     | [] => k []
     | (st, ch) :: ds' =>
         vs <- freshs (repeat IndexType (domainLowerRank st ch)) ;;
         args ds' (fun rest => k (vs :: rest))
     end)
    (combine starts transforms)
    (fun lowerCoords =>
       r <- inRegion (body (fun domain => nth domain lowerCoords [])) ;;
       emit (TransformingForOp lowerCoords starts transforms bounds strides
               forceUnroll useIndexDiffs (snd r))).

Module BlockwiseGemmRewritePattern.

Section WithUntransform.

(** [untransform] (loweringUtils.h) is not part of the sources at hand: it
    peels the [miopen.transform] ops that define a view and gives the
    underlying buffer together with the maps to go through, the given ones
    first. *)
Variable untransform :
  Value -> list TransformMapAttr -> Value * list TransformMapAttr.

Definition matchAndRewrite (op : BlockwiseGemmOp)
  (adaptor : BlockwiseGemmOpAdaptor) : Rewriter LogicalResult :=
  zeroConstantOp <- createOrFold_ConstantIndexOp 0 ;;
  blockAType <- cast_MemRefType (vty (bg_matrixA (bg_operands op))) ;;
  blockBType <- cast_MemRefType (vty (bg_matrixB (bg_operands op))) ;;
  bufferCType <- cast_MemRefType (vty (bg_matrixC (bg_operands op))) ;;
  let elementType := getElementType bufferCType in
  k <- at_index (getShape blockAType) 0 ;;
  m <- at_index (getShape blockAType) 1 ;;
  n <- at_index (getShape blockBType) 1 ;;
  kPack <- at_index (getShape blockAType) 2 ;;
  mC <- at_index (getShape bufferCType) 0 ;;
  nC <- at_index (getShape bufferCType) 1 ;;
  let kPerThread := kPerThreadAttr op in
  let mPerThread := mPerThreadAttr op in
  let nPerThread := nPerThreadAttr op in
  let mRepeatStride := mRepeatStrideAttr op in
  let nRepeatStride := nRepeatStrideAttr op in
  mRepeat <- int64_div mC mPerThread ;;
  nRepeat <- int64_div nC nPerThread ;;
  mPerRepeat <- int64_div m mRepeat ;;
  let strideLDSBufferAAttr :=
    TopDownTMBuilder ["k"; "mRepeat"; "mPerThread"; "kpack"]
      [k; mRepeat; mPerRepeat; kPack]
      [passThrough "k";
       embed "m" 1 m ["mRepeat"; "mPerThread"] [mRepeatStride; 1];
       passThroughTo ["kpack"] [2%nat] ["kpack"]] in
  nPerRepeat <- int64_div n nRepeat ;;
  let strideLDSBufferBAttr :=
    TopDownTMBuilder ["k"; "nRepeat"; "nPerThread"; "kpack"]
      [k; nRepeat; nPerRepeat; kPack]
      [passThrough "k";
       embed "n" 1 n ["nRepeat"; "nPerThread"] [nRepeatStride; 1];
       passThroughTo ["kpack"] [2%nat] ["kpack"]] in
  let (matrixA, transformsA) :=
    untransform (bg_matrixA adaptor) [strideLDSBufferAAttr] in
  let (matrixB, transformsB) :=
    untransform (bg_matrixB adaptor) [strideLDSBufferBAttr] in
  let threadANumRegisters := int64_mul (int64_mul kPerThread mC) kPack in
  let threadBNumRegisters := int64_mul (int64_mul kPerThread nC) kPack in
  threadAAllocOp <-
    create_GpuAllocOp
      (MemRefType [threadANumRegisters] elementType getPrivateAddressSpace) ;;
  threadBAllocOp <-
    create_GpuAllocOp
      (MemRefType [threadBNumRegisters] elementType getPrivateAddressSpace) ;;
  let threadACopyViewAttr :=
    BottomUpTMBuilder ["raw"] [threadANumRegisters]
      [unmerge ["k"; "mRepeat"; "mPerThread"; "kpack"] [0; 1; 2; 3]%nat "raw"
         [kPerThread; mRepeat; mPerThread; kPack]] in
  let threadBCopyViewAttr :=
    BottomUpTMBuilder ["raw"] [threadBNumRegisters]
      [unmerge ["k"; "nRepeat"; "nPerThread"; "kpack"] [0; 1; 2; 3]%nat "raw"
         [kPerThread; nRepeat; nPerThread; kPack]] in
  (* replaceOpWithNewOp<AffineForOp>(op, 0, k, kPerThread); what follows is
     created inside the body of that loop *)
  create_AffineForOp 0 k kPerThread (fun kOffset =>
    let registerStartCoords := repeat zeroConstantOp 4 in
    let ldsBufferAStartCoords :=
      [kOffset; zeroConstantOp; bg_threadOffsetA (bg_operands op);
       zeroConstantOp] in
    create_TransformingForOp [ldsBufferAStartCoords; registerStartCoords]
      [transformsA; [threadACopyViewAttr]]
      [kPerThread; mRepeat; mPerThread; kPack] None true true
      (fun getLowerCoords =>
         aCopy <- create_LoadOp matrixA (getLowerCoords 0%nat) ;;
         aCast <- createTypeConversionOp aCopy elementType ;;
         create_StoreOp aCast threadAAllocOp (getLowerCoords 1%nat)) ;;
    let ldsBufferBStartCoords :=
      [kOffset; zeroConstantOp; bg_threadOffsetB (bg_operands op);
       zeroConstantOp] in
    create_TransformingForOp [ldsBufferBStartCoords; registerStartCoords]
      [transformsB; [threadBCopyViewAttr]]
      [kPerThread; nRepeat; nPerThread; kPack] None true true
      (fun getLowerCoords =>
         bCopy <- create_LoadOp matrixB (getLowerCoords 0%nat) ;;
         bCast <- createTypeConversionOp bCopy elementType ;;
         create_StoreOp bCast threadBAllocOp (getLowerCoords 1%nat)) ;;
    reshapedARegisters <-
      reshapeBuffer threadAAllocOp ["k"; "m"; "kpack"] [kPerThread; mC; kPack] ;;
    reshapedBRegisters <-
      reshapeBuffer threadBAllocOp ["k"; "n"; "kpack"] [kPerThread; nC; kPack] ;;
    create_ThreadwiseGemmOp reshapedARegisters reshapedBRegisters
      (bg_matrixC (bg_operands op))) ;;
  replaceOp [] ;;
  ret success.

End WithUntransform.

End BlockwiseGemmRewritePattern.

(** ** BlockwiseGemmV2 lowering (lines 235-620) *)

(** What the pass reads of an [XdlopsCodeSelection]
    (XdlopsCodeSelection.h, not part of the sources at hand). *)
Record XdlopsCodeSelection : Type := mkXdlopsCodeSelection {
  instr : string;
  imms : list (list Z);
  argType : Ty;
  num_threads_blk : Z;
  num_input_blks : Z;
  num_output_blks : Z;
  k_base : Z
}.

(** A created [XdlopsGemmV2Op]: its place among the operations created so
    far, which is what later [setAttr] calls go through, and its results. *)
Record XdlopsGemmV2Handle : Type := mkXdlopsGemmV2Handle {
  h_index : nat;
  vectorDs : list Value
}.

Definition create_XdlopsGemmV2Op (resultTypes : list Ty)
  (matrixA matrixB : Value) (ldsOffsetA ldsOffsetB : Z)
  (regOffsetA regOffsetB bufferA bufferB : Value) (vectorCs : list Value)
  : Rewriter XdlopsGemmV2Handle :=
  rs <- freshs resultTypes ;;
  fun s =>
    Ok (mkXdlopsGemmV2Handle (List.length (emitted s)) rs,
        mkRewriterState (nextId s)
          (emitted s ++
             [XdlopsGemmV2
                (mkXdlopsGemmV2Op rs matrixA matrixB ldsOffsetA ldsOffsetB
                   regOffsetA regOffsetB bufferA bufferB vectorCs [])])
          (replacement s)).

Definition Operation_setAttr (name : string) (a : Attribute) (o : Operation)
  : Operation :=
  match o with
  | XdlopsGemmV2 x =>
      XdlopsGemmV2
        (mkXdlopsGemmV2Op (xd_vectorDs x) (xd_matrixA x) (xd_matrixB x)
           (xd_ldsBufferOffsetA x) (xd_ldsBufferOffsetB x) (xd_regOffsetA x)
           (xd_regOffsetB x) (xd_bufferA x) (xd_bufferB x) (xd_vectorCs x)
           (setAttr name a (xd_attrs x)))
  | _ => o
  end.

Fixpoint update_nth {A} (i : nat) (f : A -> A) (l : list A) : list A :=
  match l, i with
  | [], _ => []
  | x :: l', O => f x :: l'
  | x :: l', S i' => x :: update_nth i' f l'
  end.

(** [h->setAttr(name, a)]: the created operation itself changes. *)
Definition XdlopsGemmV2Op_setAttr (h : XdlopsGemmV2Handle) (name : string)
  (a : Attribute) : Rewriter unit :=
  fun s =>
    Ok (tt, mkRewriterState (nextId s)
              (update_nth (h_index h) (Operation_setAttr name a) (emitted s))
              (replacement s)).

(** [h->setAttr(name, op->getAttr(name))]. *)
Definition copyAttr (h : XdlopsGemmV2Handle) (attrs : NamedAttrList)
  (name : string) : Rewriter unit :=
  match getAttr name attrs with
  | Some a => XdlopsGemmV2Op_setAttr h name a
  | None => fatal "null attribute"
  end.

Definition getI32IntegerAttr (v : Z) : Attribute := IntegerAttr I32 v.

Module BlockwiseGemmV2RewritePattern.

(** Lines 263-266. *)
Definition MRepeats (MPerWave : Z) : Z :=
  if MPerWave >? 64 then Z.quot MPerWave 64 else 1.
Definition NRepeats (NPerWave : Z) : Z :=
  if NPerWave >? 64 then Z.quot NPerWave 64 else 1.
Definition MPerXdlops (MPerWave : Z) : Z :=
  if MPerWave >? 64 then 64 else MPerWave.
Definition NPerXdlops (NPerWave : Z) : Z :=
  if NPerWave >? 64 then 64 else NPerWave.

(** Line 310. *)
Definition IsKReduction (xcs : XdlopsCodeSelection) : bool :=
  (num_output_blks xcs =? 1) && (num_input_blks xcs >? 1).

(** Line 353. *)
Definition KPerThread (xcs : XdlopsCodeSelection) (K : Z) : Z :=
  if IsKReduction xcs then int64 (Z.quot K (num_input_blks xcs)) else K.

Definition waveSize : Z := 64.

(** The values the staging code and the final emission share. *)
Record Staging : Type := mkStaging {
  aBase : Value;
  bBase : Value;
  laneId : Value;
  MConstantOp : Value;
  NConstantOp : Value;
  KConstantOp : Value;
  MPerXdlopsConstantOp : Value;
  NPerXdlopsConstantOp : Value;
  zeroConstantOp : Value;
  KPerBlockConstantOp : Value
}.

(** Lines 357-430: the staging loops without K reduction. *)
Definition stageNonKReduction (op : BlockwiseGemmV2Op)
  (bufferA bufferB : Value) (bufferAElementType bufferBElementType : Ty)
  (MPerWave NPerWave KPack KPerThread : Z) (c : Staging) : Rewriter unit :=
  create_AffineForOp 0 (MRepeats MPerWave) 1 (fun olmiv =>
    t <- create_MulIOp (MPerXdlopsConstantOp c) olmiv ;;
    mOffset <- create_AddIOp (aBase c) t ;;
    kOffsetA <- create_MulIOp olmiv (KConstantOp c) ;;
    create_AffineForOp 0 KPerThread 1 (fun ilmkiv =>
      t1 <- create_MulIOp ilmkiv (MConstantOp c) ;;
      t2 <- create_AddIOp t1 (laneId c) ;;
      sourceOffsetA <- create_AddIOp t2 mOffset ;;
      sourceOffsetA <-
        (if KPack >? 1
         then (kp <- create_ConstantIndexOp KPack ;;
               create_MulIOp sourceOffsetA kp)
         else ret sourceOffsetA) ;;
      destOffsetA <- create_AddIOp ilmkiv kOffsetA ;;
      valueA <- create_InBoundsLoadOp bufferAElementType
                  (v2_matrixA (v2_operands op)) [sourceOffsetA] ;;
      create_StoreOp valueA bufferA [destOffsetA])) ;;
  create_AffineForOp 0 (NRepeats NPerWave) 1 (fun olniv =>
    t <- create_MulIOp (NPerXdlopsConstantOp c) olniv ;;
    nOffset <- create_AddIOp (bBase c) t ;;
    kOffsetB <- create_MulIOp olniv (KConstantOp c) ;;
    create_AffineForOp 0 KPerThread 1 (fun ilnkiv =>
      t1 <- create_MulIOp ilnkiv (NConstantOp c) ;;
      t2 <- create_AddIOp t1 (laneId c) ;;
      sourceOffsetB <- create_AddIOp t2 nOffset ;;
      sourceOffsetB <-
        (if KPack >? 1
         then (kp <- create_ConstantIndexOp KPack ;;
               create_MulIOp sourceOffsetB kp)
         else ret sourceOffsetB) ;;
      destOffsetB <- create_AddIOp ilnkiv kOffsetB ;;
      valueB <- create_InBoundsLoadOp bufferBElementType
                  (v2_matrixB (v2_operands op)) [sourceOffsetB] ;;
      create_StoreOp valueB bufferB [destOffsetB])).

(** Lines 431-493: the staging loop under K reduction. *)
Definition stageKReduction (op : BlockwiseGemmV2Op)
  (bufferA bufferB : Value) (bufferAElementType bufferBElementType : Ty)
  (xcs : XdlopsCodeSelection) (KPack KPerThread : Z) (c : Staging)
  : Rewriter unit :=
  NumThreadsBlkConstantOp <- create_ConstantIndexOp (num_threads_blk xcs) ;;
  blk_id <- create_DivUIOp (laneId c) NumThreadsBlkConstantOp ;;
  blk_td <- create_RemUIOp (laneId c) NumThreadsBlkConstantOp ;;
  kBaseA <- create_AddIOp (aBase c) blk_td ;;
  kBaseB <- create_AddIOp (bBase c) blk_td ;;
  NumInputBlksConstantOp <- create_ConstantIndexOp (num_input_blks xcs) ;;
  create_AffineForOp 0 KPerThread 1 (fun lkliv =>
    t1 <- create_MulIOp lkliv NumInputBlksConstantOp ;;
    t2 <- create_AddIOp t1 blk_id ;;
    t3 <- create_MulIOp t2 (MConstantOp c) ;;
    sourceOffsetA <- create_AddIOp t3 kBaseA ;;
    sourceOffsetA <-
      (if KPack >? 1
       then (kp <- create_ConstantIndexOp KPack ;;
             create_MulIOp sourceOffsetA kp)
       else ret sourceOffsetA) ;;
    valueA <- create_InBoundsLoadOp bufferAElementType
                (v2_matrixA (v2_operands op)) [sourceOffsetA] ;;
    create_StoreOp valueA bufferA [lkliv] ;;
    t1 <- create_MulIOp lkliv NumInputBlksConstantOp ;;
    t2 <- create_AddIOp t1 blk_id ;;
    t3 <- create_MulIOp t2 (NConstantOp c) ;;
    sourceOffsetB <- create_AddIOp t3 kBaseB ;;
    sourceOffsetB <-
      (if KPack >? 1
       then (kp <- create_ConstantIndexOp KPack ;;
             create_MulIOp sourceOffsetB kp)
       else ret sourceOffsetB) ;;
    valueB <- create_InBoundsLoadOp bufferBElementType
                (v2_matrixB (v2_operands op)) [sourceOffsetB] ;;
    create_StoreOp valueB bufferB [lkliv]).

(** The attributes every emitted [xdlops_gemm_v2] of a repeated tile gets
    (lines 531-539 and their three copies). *)
Definition setRepeatAttrs (h : XdlopsGemmV2Handle) (op : BlockwiseGemmV2Op)
  : Rewriter unit :=
  copyAttr h (v2_attrs op) "m" ;;
  copyAttr h (v2_attrs op) "n" ;;
  copyAttr h (v2_attrs op) "k" ;;
  XdlopsGemmV2Op_setAttr h "m_per_wave" (getI32IntegerAttr 64) ;;
  XdlopsGemmV2Op_setAttr h "n_per_wave" (getI32IntegerAttr 64) ;;
  (if hasAttr "kpack" (v2_attrs op)
   then copyAttr h (v2_attrs op) "kpack" else ret tt).

(** [op.vectorDs()[i].getType()]. *)
Definition resultType (op : BlockwiseGemmV2Op) (i : nat) : Rewriter Ty :=
  v <- at_index (v2_vectorDs op) i ;; ret (vty v).

(** [vectorCs().take_front(2)] and [drop_front(2)] on a [ValueRange]. *)
Definition take_front (n : nat) (vs : list Value) : Rewriter (list Value) :=
  if (n <=? List.length vs)%nat then ret (firstn n vs)
  else fatal "Invalid specifier".
Definition drop_front (n : nat) (vs : list Value) : Rewriter (list Value) :=
  if (n <=? List.length vs)%nat then ret (skipn n vs)
  else fatal "Invalid specifier".

(** Lines 495-618: the emission of the [xdlops_gemm_v2] ops. *)
Definition emitXdlops (op : BlockwiseGemmV2Op)
  (adaptor : BlockwiseGemmV2OpAdaptor) (MPerWave NPerWave : Z) (c : Staging)
  : Rewriter LogicalResult :=
  (if (MRepeats MPerWave =? 1) && (NRepeats NPerWave =? 1) then
     let resultTypes := map vty (v2_vectorDs op) in
     (* replaceOpWithNewOp<XdlopsGemmV2Op> *)
     xdlopsGemmV2Op <-
       create_XdlopsGemmV2Op resultTypes (v2_matrixA adaptor)
         (v2_matrixB adaptor) (ldsBufferOffsetA op) (ldsBufferOffsetB op)
         (zeroConstantOp c) (zeroConstantOp c) (v2_bufferA adaptor)
         (v2_bufferB adaptor) (v2_vectorCs adaptor) ;;
     replaceOp (vectorDs xdlopsGemmV2Op) ;;
     copyAttr xdlopsGemmV2Op (v2_attrs op) "m" ;;
     copyAttr xdlopsGemmV2Op (v2_attrs op) "n" ;;
     copyAttr xdlopsGemmV2Op (v2_attrs op) "k" ;;
     copyAttr xdlopsGemmV2Op (v2_attrs op) "m_per_wave" ;;
     copyAttr xdlopsGemmV2Op (v2_attrs op) "n_per_wave" ;;
     (if hasAttr "kpack" (v2_attrs op)
      then copyAttr xdlopsGemmV2Op (v2_attrs op) "kpack" else ret tt)
   else if (MRepeats MPerWave =? 2) && (NRepeats NPerWave =? 1) then
     t0 <- resultType op 0 ;;
     t1 <- resultType op 1 ;;
     cs0 <- take_front 2 (v2_vectorCs adaptor) ;;
     xdlopsGemmV2Op0 <-
       create_XdlopsGemmV2Op [t0; t1] (v2_matrixA adaptor)
         (v2_matrixB adaptor) (ldsBufferOffsetA op) (ldsBufferOffsetB op)
         (zeroConstantOp c) (zeroConstantOp c) (v2_bufferA adaptor)
         (v2_bufferB adaptor) cs0 ;;
     setRepeatAttrs xdlopsGemmV2Op0 op ;;
     t2 <- resultType op 2 ;;
     t3 <- resultType op 3 ;;
     cs1 <- drop_front 2 (v2_vectorCs adaptor) ;;
     xdlopsGemmV2Op1 <-
       create_XdlopsGemmV2Op [t2; t3] (v2_matrixA adaptor)
         (v2_matrixB adaptor) (ldsBufferOffsetA op) (ldsBufferOffsetB op)
         (KPerBlockConstantOp c) (zeroConstantOp c) (v2_bufferA adaptor)
         (v2_bufferB adaptor) cs1 ;;
     setRepeatAttrs xdlopsGemmV2Op1 op ;;
     d00 <- at_index (vectorDs xdlopsGemmV2Op0) 0 ;;
     d01 <- at_index (vectorDs xdlopsGemmV2Op0) 1 ;;
     d10 <- at_index (vectorDs xdlopsGemmV2Op1) 0 ;;
     d11 <- at_index (vectorDs xdlopsGemmV2Op1) 1 ;;
     replaceOp [d00; d01; d10; d11]
   else if (MRepeats MPerWave =? 1) && (NRepeats NPerWave =? 2) then
     t0 <- resultType op 0 ;;
     t1 <- resultType op 1 ;;
     cs0 <- take_front 2 (v2_vectorCs adaptor) ;;
     xdlopsGemmV2Op0 <-
       create_XdlopsGemmV2Op [t0; t1] (v2_matrixA adaptor)
         (v2_matrixB adaptor) (ldsBufferOffsetA op) (ldsBufferOffsetB op)
         (zeroConstantOp c) (zeroConstantOp c) (v2_bufferA adaptor)
         (v2_bufferB adaptor) cs0 ;;
     setRepeatAttrs xdlopsGemmV2Op0 op ;;
     t2 <- resultType op 2 ;;
     t3 <- resultType op 3 ;;
     cs1 <- drop_front 2 (v2_vectorCs adaptor) ;;
     xdlopsGemmV2Op1 <-
       create_XdlopsGemmV2Op [t2; t3] (v2_matrixA adaptor)
         (v2_matrixB adaptor) (ldsBufferOffsetA op) (ldsBufferOffsetB op)
         (zeroConstantOp c) (KPerBlockConstantOp c) (v2_bufferA adaptor)
         (v2_bufferB adaptor) cs1 ;;
     setRepeatAttrs xdlopsGemmV2Op1 op ;;
     d00 <- at_index (vectorDs xdlopsGemmV2Op0) 0 ;;
     d01 <- at_index (vectorDs xdlopsGemmV2Op0) 1 ;;
     d10 <- at_index (vectorDs xdlopsGemmV2Op1) 0 ;;
     d11 <- at_index (vectorDs xdlopsGemmV2Op1) 1 ;;
     replaceOp [d00; d01; d10; d11]
   else ret tt) ;;
  ret success.

(** What lines 244-355 hand to the rest of the pattern. *)
Record Prologue : Type := mkPrologue {
  p_MPerWave : Z;
  p_NPerWave : Z;
  p_KPack : Z;
  p_xcs : XdlopsCodeSelection;
  p_KPerThread : Z;
  p_bufferAElementType : Ty;
  p_bufferBElementType : Ty;
  p_staging : Staging
}.

Section WithCodeSelection.

(** [XdlopsCodeSelection::get(dataType, MPerWave, NPerWave, b)]; [None] is
    the selector stopping the compiler because no instruction fits. *)
Variable XdlopsCodeSelection_get : Ty -> Z -> Z -> option XdlopsCodeSelection.

(** Lines 244-355: the attributes, the alignment assertions, the base
    addresses, the instruction selection and the constants. *)
Definition prologue (op : BlockwiseGemmV2Op)
  (adaptor : BlockwiseGemmV2OpAdaptor) : Rewriter Prologue :=
  M <- getIntAttr (v2_attrs op) "m" ;;
  N <- getIntAttr (v2_attrs op) "n" ;;
  K <- getIntAttr (v2_attrs op) "k" ;;
  MPerWave <- getIntAttr (v2_attrs op) "m_per_wave" ;;
  NPerWave <- getIntAttr (v2_attrs op) "n_per_wave" ;;
  KPack <- (if hasAttr "kpack" (v2_attrs op)
            then getIntAttr (v2_attrs op) "kpack" else ret 1) ;;
  let ldsOffsetA := ldsBufferOffsetA op in
  let ldsOffsetB := ldsBufferOffsetB op in
  remA <- int64_rem ldsOffsetA KPack ;;
  assert (remA =? 0) "LDS buffer segment for A is kpack-aligned" ;;
  remB <- int64_rem ldsOffsetB KPack ;;
  assert (remB =? 0) "LDS buffer segment for B is kpack-aligned" ;;
  matrixAType <- cast_MemRefType (vty (v2_matrixA adaptor)) ;;
  let dataType := getElementType matrixAType in
  quotA <- int64_div ldsOffsetA KPack ;;
  cA <- create_ConstantIndexOp quotA ;;
  aBase <- create_AddIOp (v2_waveOffsetA adaptor) cA ;;
  quotB <- int64_div ldsOffsetB KPack ;;
  cB <- create_ConstantIndexOp quotB ;;
  bBase <- create_AddIOp (v2_waveOffsetB adaptor) cB ;;
  xcs <- match XdlopsCodeSelection_get dataType MPerWave NPerWave with
         | Some xcs => ret xcs
         | None => fatal "no xdlops instruction for this type and tile"
         end ;;
  (if KPack >? 1 then
     if KPack <? k_base xcs then
       llvm_unreachable "kPack is multiple of k_base"
     else
       r <- int64_rem KPack (k_base xcs) ;;
       if negb (r =? 0) then llvm_unreachable "kPack is multiple of k_base"
       else ret tt
   else ret tt) ;;
  tid <- create_WorkitemIdOp IndexType ;;
  c64 <- create_ConstantIndexOp waveSize ;;
  laneId <- create_RemUIOp tid c64 ;;
  MConstantOp <- create_ConstantIndexOp M ;;
  NConstantOp <- create_ConstantIndexOp N ;;
  KConstantOp <- create_ConstantIndexOp K ;;
  MPerXdlopsConstantOp <- create_ConstantIndexOp (MPerXdlops MPerWave) ;;
  NPerXdlopsConstantOp <- create_ConstantIndexOp (NPerXdlops NPerWave) ;;
  let bufferA := v2_bufferA adaptor in
  let bufferB := v2_bufferB adaptor in
  bufferAType <- cast_MemRefType (vty bufferA) ;;
  bufferBType <- cast_MemRefType (vty bufferB) ;;
  let bufferAElementType := getElementType bufferAType in
  let bufferBElementType := getElementType bufferBType in
  let KPerThread := KPerThread xcs K in
  zeroConstantOp <- createOrFold_ConstantIndexOp 0 ;;
  KPerBlockConstantOp <- create_ConstantIndexOp KPerThread ;;
  ret (mkPrologue MPerWave NPerWave KPack xcs KPerThread bufferAElementType
         bufferBElementType
         (mkStaging aBase bBase laneId MConstantOp NConstantOp KConstantOp
            MPerXdlopsConstantOp NPerXdlopsConstantOp zeroConstantOp
            KPerBlockConstantOp)).

(** Lines 244-493: the prologue and the staging of A and B into the
    register buffers, by either strategy. *)
Definition stagingPhase (op : BlockwiseGemmV2Op)
  (adaptor : BlockwiseGemmV2OpAdaptor) : Rewriter Prologue :=
  p <- prologue op adaptor ;;
  (if negb (IsKReduction (p_xcs p))
   then stageNonKReduction op (v2_bufferA adaptor) (v2_bufferB adaptor)
          (p_bufferAElementType p) (p_bufferBElementType p) (p_MPerWave p)
          (p_NPerWave p) (p_KPack p) (p_KPerThread p) (p_staging p)
   else stageKReduction op (v2_bufferA adaptor) (v2_bufferB adaptor)
          (p_bufferAElementType p) (p_bufferBElementType p) (p_xcs p)
          (p_KPack p) (p_KPerThread p) (p_staging p)) ;;
  ret p.

Definition matchAndRewrite (op : BlockwiseGemmV2Op)
  (adaptor : BlockwiseGemmV2OpAdaptor) : Rewriter LogicalResult :=
  p <- stagingPhase op adaptor ;;
  emitXdlops op adaptor (p_MPerWave p) (p_NPerWave p) (p_staging p).

End WithCodeSelection.

End BlockwiseGemmV2RewritePattern.

(** ** Meaning of the emitted code

    One thread runs the operations against a [Machine]: the values of the
    SSA names, the contents of the buffers, and the trace of the loads and
    stores it did, oldest first.  A buffer is named by the number of the SSA
    value that holds it. *)

Inductive Event : Type :=
| EvLoad (buffer : nat) (coords : list Z)
| EvStore (buffer : nat) (coords : list Z) (value : Z).

Record Machine : Type := mkMachine {
  env : nat -> Z;
  mem : nat -> list Z -> Z;
  trace : list Event
}.

Definition setValue (v : Value) (z : Z) (m : Machine) : Machine :=
  mkMachine (fun i => if Nat.eqb i (vid v) then z else env m i)
            (mem m) (trace m).

Definition getValue (m : Machine) (v : Value) : Z := env m (vid v).

Definition doLoad (res buffer : Value) (indices : list Value) (m : Machine)
  : Machine :=
  let coords := map (getValue m) indices in
  mkMachine (fun i => if Nat.eqb i (vid res) then mem m (vid buffer) coords
                      else env m i)
            (mem m)
            (trace m ++ [EvLoad (vid buffer) coords]).

Definition doStore (value buffer : Value) (indices : list Value)
  (m : Machine) : Machine :=
  let coords := map (getValue m) indices in
  let z := getValue m value in
  mkMachine (env m)
            (fun b c => if Nat.eqb b (vid buffer) && list_Z_eqb c coords
                        then z else mem m b c)
            (trace m ++ [EvStore (vid buffer) coords z]).

Fixpoint setValues (vs : list Value) (zs : list Z) (m : Machine) : Machine :=
  match vs, zs with
  | v :: vs', z :: zs' => setValues vs' zs' (setValue v z m)
  | _, _ => m
  end.

(** The values an [affine.for] induction variable takes. *)
Definition affineRange (lb ub step : Z) : list Z :=
  if step >? 0
  then map (fun i => lb + Z.of_nat i * step)
           (seq 0 (Z.to_nat ((ub - lb + step - 1) / step)))
  else [].

(** The index tuples of a loop nest over [bounds] with the given strides,
    in the order the nest visits them (last dimension fastest). *)
Fixpoint box (bounds strides : list Z) : list (list Z) :=
  match bounds with
  | [] => [[]]
  | b :: bs =>
      flat_map (fun i => map (cons i) (box bs (tl strides)))
               (affineRange 0 b (hd 1 strides))
  end.

Fixpoint zipAdd (a b : list Z) : list Z :=
  match a, b with
  | x :: a', y :: b' => (x + y) :: zipAdd a' b'
  | _, _ => []
  end.

Section Semantics.

(** Width of the [index] type on the target. *)
Variable indexBitwidth : Z.

(** The id of the work item that runs the code. *)
Variable workitemId : Z.

(** The coordinate function of a transform map (TransformMapBuilder.h and
    the MIOpen dialect are not part of the sources at hand). *)
Variable applyTransform : TransformMapAttr -> list Z -> list Z.

(** The conversion between element types ([arith] extension or truncation). *)
Variable convert : Ty -> Ty -> Z -> Z.

Definition wrap (z : Z) : Z := z mod 2 ^ indexBitwidth.

(** Two integers that are the same [index] value. *)
Definition sameIndex (a b : Z) : Prop := wrap a = wrap b.

Definition lowerCoordsOf (chain : list TransformMapAttr) (upper : list Z)
  : list Z :=
  fold_left (fun c t => applyTransform t c) chain upper.

(** Binds the lower coordinates of every domain of a [TransformingForOp] at
    the index tuple [idx]. *)
Fixpoint bindDomains (lowerCoords starts : list (list Value))
  (transforms : list (list TransformMapAttr)) (idx : list Z) (m0 m : Machine)
  : Machine :=
  match lowerCoords, starts, transforms with
  | lc :: lcs, st :: sts, ch :: chs =>
      bindDomains lcs sts chs idx m0
        (setValues lc (lowerCoordsOf ch (zipAdd (map (getValue m0) st) idx)) m)
  | _, _, _ => m
  end.

(** Modelled from the spec: the loops and the coordinates of
    [TransformingForOp] follow the "indexed-loop-nest generator that, given a
    tuple of transform chains and a shape, produces nested loops whose body
    receives the corresponding lower-space coordinates for each chain".
    Unsigned division by zero is left at [Z.div]'s zero.  Operations whose
    meaning is outside this development (the matrix instructions, the
    blockwise operations before lowering, allocation and views) leave the
    machine as it is. *)
Fixpoint exec (o : Operation) (m : Machine) : Machine :=
  let fix execs (l : list Operation) (m : Machine) : Machine :=
    match l with
    | [] => m
    | o' :: l' => execs l' (exec o' m)
    end in
  match o with
  | ConstantIndexOp r z => setValue r (wrap z) m
  | AddIOp r a b => setValue r (wrap (getValue m a + getValue m b)) m
  | MulIOp r a b => setValue r (wrap (getValue m a * getValue m b)) m
  | DivUIOp r a b =>
      setValue r (wrap (getValue m a) / wrap (getValue m b)) m
  | RemUIOp r a b =>
      setValue r (wrap (getValue m a) mod wrap (getValue m b)) m
  | TypeConversionOp r s =>
      setValue r (convert (vty s) (vty r) (getValue m s)) m
  | AffineForOp iv lb ub step body =>
      fold_left (fun m' i => execs body (setValue iv i m'))
                (affineRange lb ub step) m
  | LoadOp r b idx => doLoad r b idx m
  | StoreOp v b idx => doStore v b idx m
  | WorkitemIdOp r => setValue r (wrap workitemId) m
  | TransformingForOp lcs sts chs bounds strides _ _ body =>
      fold_left (fun m' idx => execs body (bindDomains lcs sts chs idx m' m'))
                (box bounds (match strides with Some s => s | None => [] end))
                m
  | InBoundsLoadOp r b coords => doLoad r b coords m
  | BufferStoreOp v b _ _ coords _ => doStore v b coords m
  | _ => m
  end.

Definition execs (l : list Operation) (m : Machine) : Machine :=
  fold_left (fun m' o => exec o m') l m.

End Semantics.

(** ** The conversion driver and the pass (lines 653-669) *)

(** Dialect and mnemonic of an operation. *)
Definition OperationName : Type := (string * string)%type.

Definition getName (o : Operation) : OperationName :=
  match o with
  | ConstantIndexOp _ _ => ("arith", "constant")
  | AddIOp _ _ _ => ("arith", "addi")
  | MulIOp _ _ _ => ("arith", "muli")
  | DivUIOp _ _ _ => ("arith", "divui")
  | RemUIOp _ _ _ => ("arith", "remui")
  | TypeConversionOp _ _ => ("arith", "type_conversion")
  | AffineForOp _ _ _ _ _ => ("affine", "for")
  | LoadOp _ _ _ => ("memref", "load")
  | StoreOp _ _ _ => ("memref", "store")
  | WorkitemIdOp _ => ("miopen", "workitem_id")
  | GpuAllocOp _ => ("miopen", "alloc")
  | TransformOp _ _ _ => ("miopen", "transform")
  | TransformingForOp _ _ _ _ _ _ _ _ => ("miopen", "transforming_for")
  | InBoundsLoadOp _ _ _ => ("miopen", "in_bounds_load")
  | BufferStoreOp _ _ _ _ _ _ => ("miopen", "buffer_store")
  | ThreadwiseGemmOp _ _ _ => ("miopen", "threadwise_gemm")
  | XdlopsGemmV2 _ => ("miopen", "xdlops_gemm_v2")
  | Fill _ => ("miopen", "fill")
  | BlockwiseGemm _ => ("miopen", "blockwise_gemm")
  | BlockwiseGemmV2 _ => ("miopen", "blockwise_gemm_v2")
  | ThreadwiseCopyV2 _ => ("miopen", "threadwise_copy_v2")
  | OtherOp d n _ _ _ => (d, n)
  end.

Definition OperationName_eqb (a b : OperationName) : bool :=
  String.eqb (fst a) (fst b) && String.eqb (snd a) (snd b).

(** [ConversionTarget]: what [addIllegalOp] and [addLegalDialect] recorded. *)
Record ConversionTarget : Type := mkConversionTarget {
  illegalOps : list OperationName;
  legalDialects : list string
}.

Inductive LegalizationAction : Type := Legal | Illegal | Unknown.

(** An action set for the operation itself goes before the one of its
    dialect. *)
Definition getOpAction (target : ConversionTarget) (o : Operation)
  : LegalizationAction :=
  if existsb (OperationName_eqb (getName o)) (illegalOps target) then Illegal
  else if existsb (String.eqb (fst (getName o))) (legalDialects target)
       then Legal
       else Unknown.

Definition isIllegal (target : ConversionTarget) (o : Operation) : bool :=
  match getOpAction target o with Illegal => true | _ => false end.

(** Whether an illegal operation occurs in a tree of operations. *)
Fixpoint hasIllegal (target : ConversionTarget) (o : Operation) : bool :=
  let fix any (l : list Operation) : bool :=
    match l with
    | [] => false
    | x :: l' => hasIllegal target x || any l'
    end in
  isIllegal target o ||
  match o with
  | AffineForOp _ _ _ _ body => any body
  | TransformingForOp _ _ _ _ _ _ _ body => any body
  | OtherOp _ _ _ _ regions => any regions
  | _ => false
  end.

Definition anyIllegal (target : ConversionTarget) (l : list Operation)
  : bool :=
  existsb (hasIllegal target) l.

(** Whether every operation of a tree is of a legal dialect and not one of
    the illegal operations. *)
Fixpoint allLegal (target : ConversionTarget) (o : Operation) : bool :=
  let fix all (l : list Operation) : bool :=
    match l with
    | [] => true
    | x :: l' => allLegal target x && all l'
    end in
  match getOpAction target o with Legal => true | _ => false end &&
  match o with
  | AffineForOp _ _ _ _ body => all body
  | TransformingForOp _ _ _ _ _ _ _ body => all body
  | OtherOp _ _ _ _ regions => all regions
  | _ => true
  end.

(** The values that replaced the results of rewritten operations. *)
Definition Mapping : Type := list (nat * Value).

Fixpoint remap (mp : Mapping) (v : Value) : Value :=
  match mp with
  | [] => v
  | (i, v') :: mp' => if Nat.eqb i (vid v) then v' else remap mp' v
  end.

Definition getResults (o : Operation) : list Value :=
  match o with
  | BlockwiseGemmV2 op => v2_vectorDs op
  | _ => []
  end.

(** A conversion pattern: [None] when the root is not of its kind, else its
    [matchAndRewrite] on the root and on the root's remapped operands. *)
Definition Pattern : Type :=
  Mapping -> Operation -> option (Rewriter LogicalResult).

Definition FillPattern : Pattern := fun mp o =>
  match o with
  | Fill op =>
      Some (FillRewritePattern.matchAndRewrite op
              (mkFillOpAdaptor (remap mp (fill_input (fill_operands op)))
                 (remap mp (fill_value (fill_operands op)))))
  | _ => None
  end.

Definition BlockwiseGemmPattern
  (untransform : Value -> list TransformMapAttr ->
                 Value * list TransformMapAttr) : Pattern := fun mp o =>
  match o with
  | BlockwiseGemm op =>
      let x := bg_operands op in
      Some (BlockwiseGemmRewritePattern.matchAndRewrite untransform op
              (mkBlockwiseGemmOpAdaptor (remap mp (bg_matrixA x))
                 (remap mp (bg_matrixB x)) (remap mp (bg_matrixC x))
                 (remap mp (bg_threadOffsetA x))
                 (remap mp (bg_threadOffsetB x))))
  | _ => None
  end.

Definition BlockwiseGemmV2Pattern
  (XdlopsCodeSelection_get : Ty -> Z -> Z -> option XdlopsCodeSelection)
  : Pattern := fun mp o =>
  match o with
  | BlockwiseGemmV2 op =>
      let x := v2_operands op in
      Some (BlockwiseGemmV2RewritePattern.matchAndRewrite
              XdlopsCodeSelection_get op
              (mkBlockwiseGemmV2OpAdaptor (remap mp (v2_matrixA x))
                 (remap mp (v2_matrixB x)) (remap mp (v2_waveOffsetA x))
                 (remap mp (v2_waveOffsetB x)) (remap mp (v2_bufferA x))
                 (remap mp (v2_bufferB x)) (map (remap mp) (v2_vectorCs x))))
  | _ => None
  end.

(** [ThreadwiseCopyV2RewritePattern] is an [OpRewritePattern]: it has no
    adaptor and reads the operands of the root as they are. *)
Definition ThreadwiseCopyV2Pattern : Pattern := fun _ o =>
  match o with
  | ThreadwiseCopyV2 op => Some (ThreadwiseCopyV2RewritePattern.matchAndRewrite op)
  | _ => None
  end.

Fixpoint matchPattern (patterns : list Pattern) (mp : Mapping)
  (o : Operation) : option (Rewriter LogicalResult) :=
  match patterns with
  | [] => None
  | p :: ps =>
      match p mp o with
      | Some rw => Some rw
      | None => matchPattern ps mp o
      end
  end.

(** One step of the driver on a list of operations. *)
Inductive Step : Type :=
| NothingToDo
| Rewrote (ops : list Operation) (next : nat) (mp : Mapping)
| RuleFailed
| CompilerStopped (why : string).

(** Modelled from the spec: the driver "drives pattern application until no
    illegal op remains (Converged) or a rule fails to match/apply (Failed)".
    [legalizeRoot] applies the rule of an illegal operation: what the rule
    created takes the place of the root when the rule replaced it, and goes
    in front of the root otherwise. *)
Definition legalizeRoot (patterns : list Pattern) (o : Operation)
  (next : nat) (mp : Mapping) : Step :=
  match matchPattern patterns mp o with
  | None => RuleFailed
  | Some rw =>
      match rw (initState next) with
      | Fatal why => CompilerStopped why
      | Ok (failure, _) => RuleFailed
      | Ok (success, s) =>
          match replacement s with
          | Some values =>
              Rewrote (emitted s) (nextId s)
                      (combine (map vid (getResults o)) values ++ mp)%list
          | None => Rewrote (emitted s ++ [o]) (nextId s) mp
          end
      end
  end.

(** Modelled from the spec: finds the first illegal operation, regions
    included, and legalizes it. *)
Fixpoint stepOp (target : ConversionTarget) (patterns : list Pattern)
  (next : nat) (mp : Mapping) (o : Operation) : Step :=
  let fix stepList (l : list Operation) : Step :=
    match l with
    | [] => NothingToDo
    | x :: l' =>
        match stepOp target patterns next mp x with
        | NothingToDo =>
            match stepList l' with
            | Rewrote l'' n' mp' => Rewrote (x :: l'') n' mp'
            | r => r
            end
        | Rewrote xs n' mp' => Rewrote (xs ++ l') n' mp'
        | r => r
        end
    end in
  if isIllegal target o then legalizeRoot patterns o next mp
  else
    match o with
    | AffineForOp iv lb ub step body =>
        match stepList body with
        | Rewrote body' n' mp' =>
            Rewrote [AffineForOp iv lb ub step body'] n' mp'
        | r => r
        end
    | TransformingForOp lc st tr bd sd fu ud body =>
        match stepList body with
        | Rewrote body' n' mp' =>
            Rewrote [TransformingForOp lc st tr bd sd fu ud body'] n' mp'
        | r => r
        end
    | OtherOp d n os rs regions =>
        match stepList regions with
        | Rewrote regions' n' mp' => Rewrote [OtherOp d n os rs regions'] n' mp'
        | r => r
        end
    | _ => NothingToDo
    end.

Fixpoint stepList (target : ConversionTarget) (patterns : list Pattern)
  (next : nat) (mp : Mapping) (l : list Operation) : Step :=
  match l with
  | [] => NothingToDo
  | x :: l' =>
      match stepOp target patterns next mp x with
      | NothingToDo =>
          match stepList target patterns next mp l' with
          | Rewrote l'' n' mp' => Rewrote (x :: l'') n' mp'
          | r => r
          end
      | Rewrote xs n' mp' => Rewrote (xs ++ l') n' mp'
      | r => r
      end
  end.

(** The states of the driver that end a run, and the one that does not. *)
Inductive ConversionResult : Type :=
| Converged (ir : list Operation) (mp : Mapping)
| Failed
| Stopped (why : string)
| Rewriting.

(** Modelled from the spec: [applyPartialConversion] (DialectConversion.h is
    not part of the sources at hand), with [fuel] bounding the number of
    rewrites; [Rewriting] is a driver that has not finished within it. *)
Fixpoint applyPartialConversion (fuel : nat) (target : ConversionTarget)
  (patterns : list Pattern) (next : nat) (mp : Mapping)
  (ir : list Operation) : ConversionResult :=
  match stepList target patterns next mp ir with
  | NothingToDo => Converged ir mp
  | Rewrote ir' next' mp' =>
      match fuel with
      | O => Rewriting
      | S fuel' => applyPartialConversion fuel' target patterns next' mp' ir'
      end
  | RuleFailed => Failed
  | CompilerStopped why => Stopped why
  end.

(** What a run of the pass ends in. *)
Inductive PassResult : Type :=
| PassSucceeded (ir : list Operation) (mp : Mapping)
| PassFailureSignalled
| PassStopped (why : string)
| PassRunning.

Section Pass.

Variable XdlopsCodeSelection_get : Ty -> Z -> Z -> option XdlopsCodeSelection.
Variable untransform :
  Value -> list TransformMapAttr -> Value * list TransformMapAttr.

(** Lines 655-660. *)
Definition target : ConversionTarget :=
  mkConversionTarget
    [("miopen", "fill"); ("miopen", "blockwise_gemm");
     ("miopen", "blockwise_gemm_v2"); ("miopen", "threadwise_copy_v2")]
    ["arith"; "miopen"; "affine"; "memref"; "vector"].

(** Lines 662-665. *)
Definition patterns : list Pattern :=
  [FillPattern; BlockwiseGemmPattern untransform;
   BlockwiseGemmV2Pattern XdlopsCodeSelection_get; ThreadwiseCopyV2Pattern].

(** Lines 666-668: [signalPassFailure] when the conversion failed. *)
Definition runOnOperation (fuel next : nat) (ir : list Operation)
  : PassResult :=
  match applyPartialConversion fuel target patterns next [] ir with
  | Converged ir' mp => PassSucceeded ir' mp
  | Failed => PassFailureSignalled
  | Stopped why => PassStopped why
  | Rewriting => PassRunning
  end.

End Pass.

(** ** Observations on emitted code and on traces *)

(** All operations of a tree, regions included, in program order. *)
Fixpoint flattenOp (o : Operation) : list Operation :=
  let fix flat (l : list Operation) : list Operation :=
    match l with
    | [] => []
    | x :: l' => flattenOp x ++ flat l'
    end in
  o :: match o with
       | AffineForOp _ _ _ _ body => flat body
       | TransformingForOp _ _ _ _ _ _ _ body => flat body
       | OtherOp _ _ _ _ regions => flat regions
       | _ => []
       end.

Definition flatten (l : list Operation) : list Operation :=
  flat_map flattenOp l.

(** The types of the buffers allocated by [miopen.alloc] operations. *)
Definition allocations (l : list Operation) : list Ty :=
  flat_map (fun o => match o with GpuAllocOp r => [vty r] | _ => [] end)
           (flatten l).

(** The [xdlops_gemm_v2] operations. *)
Definition xdlopsGemms (l : list Operation) : list XdlopsGemmV2Op :=
  flat_map (fun o => match o with XdlopsGemmV2 x => [x] | _ => [] end)
           (flatten l).

(** The constant an SSA value is defined as, if a [ConstantIndexOp] among
    [l] defines it. *)
Definition constantOf (l : list Operation) (v : Value) : option Z :=
  match find (fun o => match o with
                       | ConstantIndexOp r _ => Nat.eqb (vid r) (vid v)
                       | _ => false
                       end) (flatten l) with
  | Some (ConstantIndexOp _ z) => Some z
  | _ => None
  end.

Definition isLoadFrom (buffer : nat) (e : Event) : bool :=
  match e with
  | EvLoad b _ => Nat.eqb b buffer
  | EvStore _ _ _ => false
  end.

Definition isStoreTo (buffer : nat) (e : Event) : bool :=
  match e with
  | EvLoad _ _ => false
  | EvStore b _ _ => Nat.eqb b buffer
  end.

Definition countLoads (buffer : nat) (t : list Event) : nat :=
  List.length (filter (isLoadFrom buffer) t).

Definition countStores (buffer : nat) (t : list Event) : nat :=
  List.length (filter (isStoreTo buffer) t).

(** The size the spec gives the register buffers of the non-XDLOPS lowering:
    "K-per-thread x repeat-count x K-pack". *)
Definition repeatCountSize (kPerThread repeatCount kPack : Z) : Z :=
  kPerThread * repeatCount * kPack.

(** The body of a copy loop: a load from [source] at the first domain's
    lower coordinates, a store to [dest] at the second's, and between them a
    conversion when the element types differ. *)
Inductive CopyBody (source dest : Value) : list Operation -> Prop :=
| CopyBody_same (r : Value) (c c' : list Value) :
    CopyBody source dest [LoadOp r source c; StoreOp r dest c']
| CopyBody_convert (r r' : Value) (c c' : list Value) :
    CopyBody source dest
      [LoadOp r source c; TypeConversionOp r' r; StoreOp r' dest c'].

(** The coordinates inside a shape. *)
Definition inShape (c shape : list Z) : Prop :=
  Forall2 (fun ci si => 0 <= ci < si) c shape.


(** ** Concrete operations used to exercise the statements below *)

Definition f32LdsBuffer : Ty := MemRefType [8192] F32 3.

Definition copyExample (length : Z) : ThreadwiseCopyV2Op :=
  mkThreadwiseCopyV2Op (mkValue 0 (MemRefType [64] F32 5))
    (mkValue 1 (MemRefType [128; 128] F16 0)) length [] [1]
    (mkValue 2 IndexType) [mkValue 3 IndexType; mkValue 4 IndexType] StoreSet.

Definition fillExample : FillOp :=
  mkFillOp (mkFillOpAdaptor (mkValue 0 (MemRefType [2; 3] F32 5))
              (mkValue 1 F32)).

Definition machine0 : Machine :=
  mkMachine (fun i => Z.of_nat i + 100) (fun _ _ => 0) [].

(** A view that is its own buffer: nothing to peel. *)
Definition untransformNothing (v : Value) (maps : list TransformMapAttr)
  : Value * list TransformMapAttr := (v, maps).

(** A blockwise GEMM on an 8 x 128 x 1 tile of A and B in LDS, a 4 x 4 tile
    of C per thread, two rows and two columns per repeat, two steps of K per
    iteration. *)
Definition gemmExample : BlockwiseGemmOp :=
  mkBlockwiseGemmOp
    (mkBlockwiseGemmOpAdaptor
       (mkValue 0 (MemRefType [8; 128; 1] F16 3))
       (mkValue 1 (MemRefType [8; 128; 1] F16 3))
       (mkValue 2 (MemRefType [4; 4] F32 5))
       (mkValue 3 IndexType) (mkValue 4 IndexType))
    2 2 2 64 64.

(** Two instruction descriptions: one without K reduction (two output
    blocks), one with (one output block, two input blocks). *)
Definition xcsPlain : XdlopsCodeSelection :=
  mkXdlopsCodeSelection "mfma_f32_32x32x1f32" [[1; 0; 0]] F32 32 2 2 1.

Definition xcsKReduction : XdlopsCodeSelection :=
  mkXdlopsCodeSelection "mfma_f32_32x32x2f32" [[0; 0; 0]] F32 32 2 1 1.

Definition selectAlways (xcs : XdlopsCodeSelection)
  : Ty -> Z -> Z -> option XdlopsCodeSelection := fun _ _ _ => Some xcs.

Definition v2Operands : BlockwiseGemmV2OpAdaptor :=
  mkBlockwiseGemmV2OpAdaptor
    (mkValue 0 f32LdsBuffer) (mkValue 1 f32LdsBuffer)
    (mkValue 2 IndexType) (mkValue 3 IndexType)
    (mkValue 4 (MemRefType [8] F32 5)) (mkValue 5 (MemRefType [8] F32 5))
    [mkValue 6 (VectorType [32] F32); mkValue 7 (VectorType [32] F32);
     mkValue 8 (VectorType [32] F32); mkValue 9 (VectorType [32] F32)].

(** A blockwise GEMM on xdlops with M = 256, N = 128, K = 4, the given tile
    per wave, K-pack factor and LDS offset of A. *)
Definition v2Example (MPerWave NPerWave KPack ldsOffsetA : Z)
  : BlockwiseGemmV2Op :=
  mkBlockwiseGemmV2Op v2Operands
    [("m", IntegerAttr I32 256); ("n", IntegerAttr I32 128);
     ("k", IntegerAttr I32 4); ("m_per_wave", IntegerAttr I32 MPerWave);
     ("n_per_wave", IntegerAttr I32 NPerWave);
     ("kpack", IntegerAttr I32 KPack)]
    ldsOffsetA 4096
    [mkValue 10 (VectorType [32] F32); mkValue 11 (VectorType [32] F32);
     mkValue 12 (VectorType [32] F32); mkValue 13 (VectorType [32] F32)].

(** An instruction description with [k_base = 4]. *)
Definition xcsKBase4 : XdlopsCodeSelection :=
  mkXdlopsCodeSelection "mfma_f32_32x32x8f16" [[1; 0; 0]] F16 32 2 2 4.

(** A blockwise GEMM whose thread tile of C has one row, fewer than the two
    rows per repeat. *)
Definition gemmSmallTile : BlockwiseGemmOp :=
  mkBlockwiseGemmOp
    (mkBlockwiseGemmOpAdaptor
       (mkValue 0 (MemRefType [8; 128; 1] F16 3))
       (mkValue 1 (MemRefType [8; 128; 1] F16 3))
       (mkValue 2 (MemRefType [1; 4] F32 5))
       (mkValue 3 IndexType) (mkValue 4 IndexType))
    2 2 2 64 64.

(** ** What the rules of the pass may create *)

(** Every operation of the list, regions included, is legal for the
    target of the pass. *)
Definition legalOps (l : list Operation) : bool := forallb (allLegal target) l.

Definition LegalState (s : RewriterState) : Prop :=
  legalOps (emitted s) = true.

(** A rewriter that, run where only legal operations have been created,
    creates only legal operations, and whose result satisfies [Q]. *)
Definition PreservesWith {A} (Q : A -> Prop) (m : Rewriter A) : Prop :=
  forall s a s', LegalState s -> m s = Ok (a, s') -> LegalState s' /\ Q a.

Definition Preserves {A} (m : Rewriter A) : Prop :=
  PreservesWith (fun _ => True) m.

(** ** The copy loops of the BlockwiseGemm lowering *)

(** The body of a copy loop: a load into [r] from [source] at [lc0], a
    conversion into [r'] when there is one, and a store of the outcome to
    [dest] at [lc1]. *)
Definition copyBody (source dest r : Value) (conv : option Value)
  (lc0 lc1 : list Value) : list Operation :=
  LoadOp r source lc0 ::
  match conv with
  | None => [StoreOp r dest lc1]
  | Some r' => [TypeConversionOp r' r; StoreOp r' dest lc1]
  end.

(** The SSA values a copy loop defines. *)
Definition copyDefs (r : Value) (conv : option Value) (lc0 lc1 : list Value)
  : list nat :=
  map vid (lc0 ++ lc1 ++ r :: match conv with None => [] | Some r' => [r'] end).

(** The copy loop the lowering creates from the counter [base] on: [rank]
    coordinates for the source, one for the register buffer, the loaded
    value and, when the element types differ, the converted one. *)
Definition copyLoop (base : nat) (source dest : Value)
  (sourceElement elementType : Ty) (rank : nat) (start0 start1 : list Value)
  (chain : list TransformMapAttr) (view : TransformMapAttr)
  (bounds : list Z) : Operation :=
  let lc0 := valuesFrom base (repeat IndexType rank) in
  let n1 := (base + List.length (repeat IndexType rank))%nat in
  let lc1 := [mkValue n1 IndexType] in
  let r := mkValue (S n1) sourceElement in
  let conv := if Ty_eqb sourceElement elementType then None
              else Some (mkValue (S (S n1)) elementType) in
  TransformingForOp [lc0; lc1] [start0; start1] [chain; [view]] bounds None
    true true (copyBody source dest r conv lc0 lc1).

(** The counter after that loop. *)
Definition copyLoopNext (base : nat) (sourceElement elementType : Ty)
  (rank : nat) : nat :=
  let n1 := (base + List.length (repeat IndexType rank))%nat in
  if Ty_eqb sourceElement elementType then S (S n1) else S (S (S n1)).

(** The value that reaches the store of a copy loop. *)
Definition converted (convert : Ty -> Ty -> Z -> Z)
  (sourceElement elementType : Ty) (z : Z) : Z :=
  if Ty_eqb sourceElement elementType then z
  else convert sourceElement elementType z.

(** What a copy loop does, index tuple by index tuple: it loads the element
    of [source] at the coordinates the [chain] gives for [start + idx], and
    stores it, converted, to [dest] at the coordinates the [view] gives for
    [regStart + idx]. *)
Definition copyEvents (applyTransform : TransformMapAttr -> list Z -> list Z)
  (convert : Ty -> Ty -> Z -> Z) (source dest : Value)
  (sourceElement elementType : Ty) (chain : list TransformMapAttr)
  (view : TransformMapAttr) (start regStart : list Z)
  (memory : nat -> list Z -> Z) (idxs : list (list Z)) : list Event :=
  flat_map
    (fun idx =>
       let from := lowerCoordsOf applyTransform chain (zipAdd start idx) in
       [EvLoad (vid source) from;
        EvStore (vid dest) (applyTransform view (zipAdd regStart idx))
          (converted convert sourceElement elementType
             (memory (vid source) from))])
    idxs.

(** A machine that differs from [m1] by the values [defs] and the contents
    of [dest] only. *)
Definition sameOutside (defs : list nat) (dest : Value) (m m1 : Machine)
  : Prop :=
  (forall i, ~ In i defs -> env m i = env m1 i)
  /\ (forall b c, b <> vid dest -> mem m b c = mem m1 b c).

(** The events of one iteration of a loop over two domains whose body is
    [copyBody], seen from the machine [m1] the loop started in. *)
Definition iterationEvents
  (applyTransform : TransformMapAttr -> list Z -> list Z)
  (convert : Ty -> Ty -> Z -> Z) (source dest r : Value)
  (conv : option Value) (st0 st1 : list Value)
  (ch0 ch1 : list TransformMapAttr) (m1 : Machine) (idx : list Z)
  : list Event :=
  let from :=
    lowerCoordsOf applyTransform ch0 (zipAdd (map (getValue m1) st0) idx) in
  [EvLoad (vid source) from;
   EvStore (vid dest)
     (lowerCoordsOf applyTransform ch1 (zipAdd (map (getValue m1) st1) idx))
     (match conv with
      | None => fun z => z
      | Some r' => convert (vty r) (vty r')
      end (mem m1 (vid source) from))].

(** Coordinate functions to exercise the statements with: a bottom-up map
    is read as one [unmerge] (row-major position under its lengths), a
    top-down map as the maps of the copy loops are built (pass-through,
    [embed] of the two middle coordinates with its coefficients,
    pass-through). *)
Definition applyExample (t : TransformMapAttr) (c : list Z) : list Z :=
  match tmDirection t with
  | BottomUp =>
      match tmCalls t with
      | [unmerge _ _ _ lengths] =>
          [fold_left (fun acc p => acc * fst p + snd p) (combine lengths c) 0]
      | _ => repeat 0 (lowerRank t)
      end
  | TopDown =>
      match tmCalls t, c with
      | [passThrough _; embed _ _ _ _ [s; s']; passThroughTo [_] _ _],
        [a; b; c'; d] => [a; b * s + c' * s'; d]
      | _, _ => repeat 0 (lowerRank t)
      end
  end.

(** The operations nested in the region of an operation. *)
Definition getRegionOps (o : Operation) : list Operation :=
  match o with
  | AffineForOp _ _ _ _ body => body
  | TransformingForOp _ _ _ _ _ _ _ body => body
  | OtherOp _ _ _ _ regions => regions
  | _ => []
  end.

(** * Properties *)

(** ** General facts *)

Lemma list_Z_eqb_refl (l : list Z) : list_Z_eqb l l = true.
Proof.
  induction l as [|x l IH]; simpl; [reflexivity|].
  now rewrite Z.eqb_refl, IH.
Qed.

Lemma Ty_eqb_refl (t : Ty) : Ty_eqb t t = true.
Proof.
  induction t; simpl; try reflexivity.
  - now rewrite list_Z_eqb_refl, IHt.
  - now rewrite list_Z_eqb_refl, IHt, Z.eqb_refl.
Qed.

Lemma gtb_true (a b : Z) : b < a -> (a >? b) = true.
Proof. intros H. rewrite Z.gtb_ltb. now apply Z.ltb_lt. Qed.

Lemma gtb_false (a b : Z) : a <= b -> (a >? b) = false.
Proof. intros H. rewrite Z.gtb_ltb. now apply Z.ltb_ge. Qed.

Lemma gtb_true_inv (a b : Z) : (a >? b) = true -> b < a.
Proof. rewrite Z.gtb_ltb. apply Z.ltb_lt. Qed.

Lemma gtb_false_inv (a b : Z) : (a >? b) = false -> a <= b.
Proof. rewrite Z.gtb_ltb. apply Z.ltb_ge. Qed.

(** A type is never a vector of itself. *)
Lemma Ty_eqb_vector_self (t : Ty) (s : list Z) :
  Ty_eqb (VectorType s t) t = false.
Proof.
  revert s; induction t as [| | | | | |shape t IH|]; intros s';
    try reflexivity.
  change (list_Z_eqb s' shape && Ty_eqb (VectorType shape t) t = false).
  rewrite IH. apply andb_false_r.
Qed.

Lemma freshs_run (ts : list Ty) :
  forall s : RewriterState,
    freshs ts s =
    Ok (valuesFrom (nextId s) ts,
        mkRewriterState (nextId s + List.length ts) (emitted s)
          (replacement s)).
Proof.
  induction ts as [|t ts IH]; intros s.
  - simpl. unfold ret. rewrite Nat.add_0_r. now destruct s.
  - simpl. unfold bind, fresh. rewrite IH. simpl.
    now rewrite Nat.add_succ_r.
Qed.

Lemma int64_div_ok (a b : Z) :
  b <> 0 -> int64_div a b = ret (int64 (Z.quot a b)).
Proof.
  intros H. unfold int64_div.
  now destruct (Z.eqb_spec b 0).
Qed.

Lemma int64_rem_ok (a b : Z) :
  b <> 0 -> int64_rem a b = ret (int64 (Z.rem a b)).
Proof.
  intros H. unfold int64_rem.
  now destruct (Z.eqb_spec b 0).
Qed.

(** *** Running a rewriter step by step *)

Lemma run_bind {A B} (m : Rewriter A) (k : A -> Rewriter B)
  (s s1 : RewriterState) (a : A) (r : Outcome (B * RewriterState)) :
  m s = Ok (a, s1) -> k a s1 = r -> bind m k s = r.
Proof. intros Hm Hk. unfold bind. now rewrite Hm. Qed.

Lemma run_inRegion {A} (m : Rewriter A) (s s1 : RewriterState) (a : A) :
  m (mkRewriterState (nextId s) [] (replacement s)) = Ok (a, s1) ->
  inRegion m s =
  Ok ((a, emitted s1),
      mkRewriterState (nextId s1) (emitted s) (replacement s1)).
Proof. intros Hm. unfold inRegion. now rewrite Hm. Qed.

Lemma run_fatal_bind {A B} (m : Rewriter A) (k : A -> Rewriter B)
  (s : RewriterState) (why : string) :
  m s = Fatal why -> bind m k s = Fatal why.
Proof. intros Hm. unfold bind. now rewrite Hm. Qed.

(** [run] follows a rewriter along its binds and regions as long as every
    step computes, and leaves the first step that does not. *)
Ltac run_leaf :=
  first [ reflexivity
        | apply freshs_run
        | rewrite int64_div_ok by eassumption; reflexivity
        | rewrite int64_rem_ok by eassumption; reflexivity ].

Ltac run_norm :=
  cbv beta;
  cbn [nextId emitted replacement initState app fst snd vty getShape
       getElementType getMemorySpace
       BlockwiseGemmV2RewritePattern.p_MPerWave
       BlockwiseGemmV2RewritePattern.p_NPerWave
       BlockwiseGemmV2RewritePattern.p_KPack
       BlockwiseGemmV2RewritePattern.p_xcs
       BlockwiseGemmV2RewritePattern.p_KPerThread
       BlockwiseGemmV2RewritePattern.p_bufferAElementType
       BlockwiseGemmV2RewritePattern.p_bufferBElementType
       BlockwiseGemmV2RewritePattern.p_staging
       BlockwiseGemmV2RewritePattern.aBase
       BlockwiseGemmV2RewritePattern.bBase
       BlockwiseGemmV2RewritePattern.laneId
       BlockwiseGemmV2RewritePattern.MConstantOp
       BlockwiseGemmV2RewritePattern.NConstantOp
       BlockwiseGemmV2RewritePattern.KConstantOp
       BlockwiseGemmV2RewritePattern.MPerXdlopsConstantOp
       BlockwiseGemmV2RewritePattern.NPerXdlopsConstantOp
       BlockwiseGemmV2RewritePattern.zeroConstantOp
       BlockwiseGemmV2RewritePattern.KPerBlockConstantOp
       h_index vectorDs List.length update_nth Operation_setAttr
       xd_vectorDs xd_matrixA xd_matrixB xd_ldsBufferOffsetA
       xd_ldsBufferOffsetB xd_regOffsetA xd_regOffsetB xd_bufferA xd_bufferB
       xd_vectorCs xd_attrs nth_error map firstn skipn].

(** Decides the condition of an [if] from a hypothesis or by computation. *)
Ltac run_if c :=
  first [ match goal with H : c = _ |- _ => rewrite H end
        | let c' := eval hnf in c in
          lazymatch c' with
          | true => change c with true
          | false => change c with false
          end ];
  cbv iota.

Ltac run :=
  run_norm;
  try match goal with
      | H : ?m = ret _ |- ?m _ = _ => rewrite H
      end;
  lazymatch goal with
  | H : ?lhs = Ok _ |- ?lhs = Ok _ => exact H
  | |- bind _ _ _ = _ => eapply run_bind; [solve [run] | run]
  | |- BlockwiseGemmV2RewritePattern.stageNonKReduction
         _ _ _ _ _ _ _ _ _ _ _ = _ =>
      unfold BlockwiseGemmV2RewritePattern.stageNonKReduction; run
  | |- BlockwiseGemmV2RewritePattern.stageKReduction
         _ _ _ _ _ _ _ _ _ _ = _ =>
      unfold BlockwiseGemmV2RewritePattern.stageKReduction; run
  | |- BlockwiseGemmV2RewritePattern.setRepeatAttrs _ _ _ = _ =>
      unfold BlockwiseGemmV2RewritePattern.setRepeatAttrs; run
  | |- BlockwiseGemmV2RewritePattern.resultType _ _ _ = _ =>
      unfold BlockwiseGemmV2RewritePattern.resultType; run
  | |- at_index ?l _ _ = _ =>
      unfold at_index;
      try match goal with H : l = _ |- _ => rewrite H end;
      reflexivity
  | |- BlockwiseGemmV2RewritePattern.take_front _ ?l _ = _ =>
      unfold BlockwiseGemmV2RewritePattern.take_front;
      try match goal with H : l = _ |- _ => rewrite H end;
      reflexivity
  | |- BlockwiseGemmV2RewritePattern.drop_front _ ?l _ = _ =>
      unfold BlockwiseGemmV2RewritePattern.drop_front;
      try match goal with H : l = _ |- _ => rewrite H end;
      reflexivity
  | |- inRegion _ _ = _ => eapply run_inRegion; run
  | |- cast_MemRefType (vty ?v) _ = _ =>
      match goal with
      | H : vty v = _ |- _ => rewrite H; reflexivity
      end
  | |- getIntAttr ?attrs ?name _ = _ =>
      unfold getIntAttr;
      match goal with
      | H : getAttr name attrs = _ |- _ => rewrite H; reflexivity
      end
  | |- copyAttr _ ?attrs ?name _ = _ =>
      unfold copyAttr;
      match goal with
      | H : getAttr name attrs = _ |- _ => rewrite H; run
      end
  | |- assert ?c _ _ = _ => unfold assert; run
  | |- create_AffineForOp _ _ _ _ _ = _ => unfold create_AffineForOp; run
  | |- create_TransformingForOp _ _ _ _ _ _ _ _ = _ =>
      unfold create_TransformingForOp; cbn [combine]; run
  | |- create_LoadOp _ _ _ = _ => unfold create_LoadOp; run
  | |- createTypeConversionOp _ _ _ = _ =>
      unfold createTypeConversionOp; run
  | |- reshapeBuffer _ _ _ _ = _ => unfold reshapeBuffer; run
  | |- (if ?c then _ else _) _ = _ => first [ run_if c; run | idtac ]
  | |- (match ?o with Some _ => _ | None => _ end) _ = _ =>
      match goal with
      | H : o = _ |- _ => rewrite H; run
      | _ => idtac
      end
  | |- (let (_, _) := ?p in _) _ = _ =>
      match goal with
      | H : ?q = (_, _) |- _ => change p with q; rewrite H; run
      | _ => idtac
      end
  | |- _ => first [ run_leaf | idtac ]
  end.

(** ** ThreadwiseCopyV2 *)

Section ThreadwiseCopyV2.

Import ThreadwiseCopyV2RewritePattern.

Variables (op : ThreadwiseCopyV2Op) (n0 : nat).
Variables (sourceShape destShape : list Z) (sourceElement destElement : Ty)
          (sourceSpace destSpace : Z).
Hypothesis source_is_memref :
  vty (tc_source op) = MemRefType sourceShape sourceElement sourceSpace.
Hypothesis dest_is_memref :
  vty (tc_dest op) = MemRefType destShape destElement destSpace.

(** What the pattern does to a well-typed copy, for any length. *)
Lemma copy_run :
  let loaded := mkValue n0 (typeFor (tc_length op) sourceElement) in
  matchAndRewrite op (initState n0) =
  Ok (success,
      mkRewriterState (S n0)
        [InBoundsLoadOp loaded (tc_source op) [tc_sourceCoord op];
         BufferStoreOp loaded (tc_dest op) (tc_leftOobDims op)
           (tc_rightOobDims op) (tc_destCoord op) (tc_storeMethodAttr op)]
        (Some [])).
Proof.
  unfold matchAndRewrite, bind.
  rewrite source_is_memref, dest_is_memref. reflexivity.
Qed.

(** C9: a copy of length [L >= 1] becomes one in-bounds load of [L] source
    elements at [sourceCoord] followed by one buffer store of the loaded
    value at [destCoord], with the op's out-of-bounds dimensions and store
    method, and nothing else; the op is replaced by no value. *)
Theorem copy_is_one_load_one_store :
  1 <= tc_length op ->
  let loaded := mkValue n0 (typeFor (tc_length op) sourceElement) in
  matchAndRewrite op (initState n0) =
  Ok (success,
      mkRewriterState (S n0)
        [InBoundsLoadOp loaded (tc_source op) [tc_sourceCoord op];
         BufferStoreOp loaded (tc_dest op) (tc_leftOobDims op)
           (tc_rightOobDims op) (tc_destCoord op) (tc_storeMethodAttr op)]
        (Some []))
  /\ widthOver sourceElement (vty loaded) = Some (tc_length op).
Proof.
  intros Hlen loaded. split; [apply copy_run|].
  unfold loaded, widthOver, typeFor; simpl.
  destruct (tc_length op >? 1) eqn:E.
  - now rewrite Ty_eqb_vector_self, Ty_eqb_refl.
  - rewrite Ty_eqb_refl. f_equal. apply gtb_false_inv in E. lia.
Qed.

(** C10: the load of a copy of length 1 has the source's element type
    itself, not a one-element vector of it, and the store stores that loaded
    value as it is: what is stored has the source's element type, which is
    the destination's only when the two agree (the type computed for the
    store at lines 640-642 is not used).  A vector type, of width [L] and of
    the source's element type, appears exactly when [L > 1]. *)
Theorem copy_of_length_one_is_scalar :
  exists loaded,
    matchAndRewrite op (initState n0) =
    Ok (success,
        mkRewriterState (S n0)
          [InBoundsLoadOp loaded (tc_source op) [tc_sourceCoord op];
           BufferStoreOp loaded (tc_dest op) (tc_leftOobDims op)
             (tc_rightOobDims op) (tc_destCoord op) (tc_storeMethodAttr op)]
          (Some []))
    /\ (tc_length op <= 1 -> vty loaded = sourceElement)
    /\ (tc_length op <= 1 ->
        (vty loaded = destElement <-> sourceElement = destElement))
    /\ (1 < tc_length op ->
        vty loaded = VectorType [tc_length op] sourceElement).
Proof.
  exists (mkValue n0 (typeFor (tc_length op) sourceElement)).
  split; [apply copy_run|]. unfold typeFor; simpl.
  split; [|split]; intros H.
  - rewrite gtb_false by lia; reflexivity.
  - rewrite gtb_false by lia; reflexivity.
  - rewrite gtb_true by lia; reflexivity.
Qed.

End ThreadwiseCopyV2.

Lemma copy_is_one_load_one_store_witness :
  1 <= tc_length (copyExample 4) /\
  ThreadwiseCopyV2RewritePattern.matchAndRewrite (copyExample 4)
    (initState 5) =
  Ok (success,
      mkRewriterState 6
        [InBoundsLoadOp (mkValue 5 (VectorType [4] F32))
           (mkValue 0 (MemRefType [64] F32 5)) [mkValue 2 IndexType];
         BufferStoreOp (mkValue 5 (VectorType [4] F32))
           (mkValue 1 (MemRefType [128; 128] F16 0)) [] [1]
           [mkValue 3 IndexType; mkValue 4 IndexType] StoreSet]
        (Some [])) /\
  ThreadwiseCopyV2RewritePattern.widthOver F32 (VectorType [4] F32) = Some 4.
Proof.
  assert (Hlen : 1 <= tc_length (copyExample 4)) by (simpl; lia).
  split; [exact Hlen|].
  exact (copy_is_one_load_one_store (copyExample 4) 5 [64] [128; 128]
           F32 F16 5 0 eq_refl eq_refl Hlen).
Defined.

Lemma copy_of_length_one_is_scalar_witness :
  exists loaded,
    ThreadwiseCopyV2RewritePattern.matchAndRewrite (copyExample 1)
      (initState 5) =
    Ok (success,
        mkRewriterState 6
          [InBoundsLoadOp loaded (mkValue 0 (MemRefType [64] F32 5))
             [mkValue 2 IndexType];
           BufferStoreOp loaded (mkValue 1 (MemRefType [128; 128] F16 0))
             [] [1] [mkValue 3 IndexType; mkValue 4 IndexType] StoreSet]
          (Some []))
    /\ vty loaded = F32.
Proof.
  destruct (copy_of_length_one_is_scalar (copyExample 1) 5 [64] [128; 128]
              F32 F16 5 0 eq_refl eq_refl) as (loaded & Hrun & H1 & _).
  exists loaded. split; [exact Hrun|]. apply H1. simpl. lia.
Defined.

(** C10 as the spec words it fails: a copy of length 1 from a buffer of
    [f32] to a buffer of [f16] stores the [f32] it loaded; the store does
    not use the destination's element type. *)
Lemma copy_store_keeps_the_source_element_type :
  exists loaded destShape destElement destSpace,
    ThreadwiseCopyV2RewritePattern.matchAndRewrite (copyExample 1)
      (initState 5) =
    Ok (success,
        mkRewriterState 6
          [InBoundsLoadOp loaded (tc_source (copyExample 1))
             [tc_sourceCoord (copyExample 1)];
           BufferStoreOp loaded (tc_dest (copyExample 1)) [] [1]
             (tc_destCoord (copyExample 1)) StoreSet]
          (Some []))
    /\ vty (tc_dest (copyExample 1)) =
       MemRefType destShape destElement destSpace
    /\ vty loaded <> destElement.
Proof.
  exists (mkValue 5 F32), [128; 128], F16, 0.
  split; [reflexivity|]. split; [reflexivity|]. discriminate.
Qed.

(** ** Loop ranges and index boxes *)

Lemma affineRange_unit (b : Z) :
  affineRange 0 b 1 = map Z.of_nat (seq 0 (Z.to_nat b)).
Proof.
  unfold affineRange. simpl (1 >? 0).
  replace ((b - 0 + 1 - 1) / 1) with b by (rewrite Z.div_1_r; lia).
  apply map_ext. intros i. lia.
Qed.

Lemma In_affineRange_unit (b i : Z) :
  In i (affineRange 0 b 1) <-> 0 <= i < b.
Proof.
  rewrite affineRange_unit, in_map_iff. split.
  - intros (k & <- & Hk). apply in_seq in Hk. lia.
  - intros H. exists (Z.to_nat i). split; [lia|]. apply in_seq. lia.
Qed.

Lemma NoDup_affineRange_unit (b : Z) : NoDup (affineRange 0 b 1).
Proof.
  rewrite affineRange_unit.
  apply Injective_map_NoDup; [|apply seq_NoDup].
  intros x y H. lia.
Qed.

Lemma length_affineRange_unit (b : Z) :
  List.length (affineRange 0 b 1) = Z.to_nat b.
Proof. now rewrite affineRange_unit, length_map, length_seq. Qed.

Lemma In_box (shape c : list Z) : In c (box shape []) <-> inShape c shape.
Proof.
  revert c; induction shape as [|b shape IH]; intros c; simpl.
  - split.
    + intros [<-|[]]. constructor.
    + intros H; inversion H; now left.
  - rewrite in_flat_map. split.
    + intros (i & Hi & Hc). apply in_map_iff in Hc as (c' & <- & Hc').
      constructor; [now apply In_affineRange_unit | now apply IH].
    + intros H; inversion H as [|i ? c' ? Hi Hc']; subst.
      exists i. split; [now apply In_affineRange_unit|].
      apply in_map. now apply IH.
Qed.

Lemma NoDup_flat_map_cons (A : Type) (xs : list A) (ys : list (list A)) :
  NoDup xs -> NoDup ys ->
  NoDup (flat_map (fun i => map (cons i) ys) xs).
Proof.
  intros Hx Hy; induction Hx as [|x xs Hnin Hx IH]; simpl; [constructor|].
  apply NoDup_app; [| exact IH |].
  - apply Injective_map_NoDup; [|exact Hy].
    intros a b H; now inversion H.
  - intros c Hc Hc'. apply in_map_iff in Hc as (c' & <- & _).
    apply in_flat_map in Hc' as (j & Hj & Hc').
    apply in_map_iff in Hc' as (c'' & E & _). inversion E; subst.
    now apply Hnin.
Qed.

Lemma NoDup_box (shape : list Z) : NoDup (box shape []).
Proof.
  induction shape as [|b shape IH]; simpl.
  - repeat constructor. intros [].
  - apply NoDup_flat_map_cons; [apply NoDup_affineRange_unit | exact IH].
Qed.

Lemma length_flat_map_cons (A : Type) (xs : list A) (ys : list (list A)) :
  List.length (flat_map (fun i => map (cons i) ys) xs) =
  (List.length xs * List.length ys)%nat.
Proof.
  induction xs as [|x xs IH]; simpl; [reflexivity|].
  now rewrite length_app, length_map, IH.
Qed.

(** The number of index tuples of a nest is the product of its bounds. *)
Lemma length_box (bounds : list Z) :
  List.length (box bounds []) =
  fold_right (fun b n => (Z.to_nat b * n)%nat) 1%nat bounds.
Proof.
  induction bounds as [|b bounds IH]; simpl; [reflexivity|].
  now rewrite length_flat_map_cons, length_affineRange_unit, IH.
Qed.

(** ** Runs of the emitted code *)

Lemma fold_left_pointwise (A B : Type) (f g : A -> B -> A) (l : list B) :
  (forall a b, f a b = g a b) ->
  forall a, fold_left f l a = fold_left g l a.
Proof.
  intros E; induction l as [|b l IH]; intros a; simpl; [reflexivity|].
  now rewrite E, IH.
Qed.

Section SemanticsFacts.

Variables (indexBitwidth workitemId : Z).
Variable applyTransform : TransformMapAttr -> list Z -> list Z.
Variable convert : Ty -> Ty -> Z -> Z.

Local Abbreviation exec := (exec indexBitwidth workitemId applyTransform convert).
Local Abbreviation execs := (execs indexBitwidth workitemId applyTransform convert).
Local Abbreviation bindDomains := (bindDomains applyTransform).

Lemma execs_nil (m : Machine) : execs [] m = m.
Proof. reflexivity. Qed.

Lemma execs_cons (o : Operation) (l : list Operation) (m : Machine) :
  execs (o :: l) m = execs l (exec o m).
Proof. reflexivity. Qed.

Lemma execs_app (l1 l2 : list Operation) (m : Machine) :
  execs (l1 ++ l2) m = execs l2 (execs l1 m).
Proof. unfold execs. apply fold_left_app. Qed.

Lemma exec_region (body : list Operation) (m : Machine) :
  (fix go (l : list Operation) (m : Machine) : Machine :=
     match l with
     | [] => m
     | o' :: l' => go l' (exec o' m)
     end) body m = execs body m.
Proof.
  revert m; induction body as [|o body IH]; intros m; [reflexivity|].
  rewrite execs_cons. apply IH.
Qed.

Lemma exec_AffineForOp iv lb ub step body m :
  exec (AffineForOp iv lb ub step body) m =
  fold_left (fun m' i => execs body (setValue iv i m'))
            (affineRange lb ub step) m.
Proof.
  simpl. apply fold_left_pointwise. intros m' i. apply exec_region.
Qed.

Lemma exec_TransformingForOp lcs sts chs bounds strides fu ud body m :
  exec (TransformingForOp lcs sts chs bounds strides fu ud body) m =
  fold_left (fun m' idx => execs body (bindDomains lcs sts chs idx m' m'))
            (box bounds (match strides with Some s => s | None => [] end)) m.
Proof.
  simpl. apply fold_left_pointwise. intros m' i. apply exec_region.
Qed.

End SemanticsFacts.

(** *** Index arithmetic modulo the width of [index] *)

Section IndexArithmetic.

Variable indexBitwidth : Z.

Local Abbreviation W := (wrap indexBitwidth).
Local Abbreviation same := (sameIndex indexBitwidth).

Lemma wrap_wrap (a : Z) : W (W a) = W a.
Proof. unfold wrap. apply Zmod_mod. Qed.

Lemma sameIndex_refl (a : Z) : same a a.
Proof. reflexivity. Qed.

Lemma sameIndex_wrap (a a' : Z) : same a a' -> same (W a) a'.
Proof. unfold sameIndex. intros H. now rewrite wrap_wrap. Qed.

Lemma sameIndex_add (a a' b b' : Z) :
  same a a' -> same b b' -> same (a + b) (a' + b').
Proof.
  unfold sameIndex, wrap. intros H1 H2.
  rewrite Zplus_mod, H1, H2, <- Zplus_mod. reflexivity.
Qed.

Lemma sameIndex_mul (a a' b b' : Z) :
  same a a' -> same b b' -> same (a * b) (a' * b').
Proof.
  unfold sameIndex, wrap. intros H1 H2.
  rewrite Zmult_mod, H1, H2, <- Zmult_mod. reflexivity.
Qed.

Lemma wrap_eq (a a' b : Z) : same a a' -> a' = b -> W a = W b.
Proof. intros H <-. exact H. Qed.

End IndexArithmetic.

(** Removes the wrap-arounds inside sums and products. *)
Ltac strip_wraps :=
  lazymatch goal with
  | |- sameIndex ?w (wrap ?w _) _ => apply sameIndex_wrap; strip_wraps
  | |- sameIndex _ (_ + _) _ => apply sameIndex_add; strip_wraps
  | |- sameIndex _ (_ * _) _ => apply sameIndex_mul; strip_wraps
  | |- sameIndex _ _ _ => apply sameIndex_refl
  end.

Ltac same_index :=
  rewrite ?wrap_wrap; eapply wrap_eq; [strip_wraps | try ring].

(** *** Stepping through straight-line code

    The facts known about the machine are kept as hypotheses
    [env mc i = z]; a step runs the next operation, records the value it
    defines and carries the other facts over. *)

Lemma env_setValue_same (v : Value) (z : Z) (m : Machine) :
  env (setValue v z m) (vid v) = z.
Proof. simpl. now rewrite Nat.eqb_refl. Qed.

Lemma env_setValue_other (v : Value) (z : Z) (m : Machine) (i : nat) :
  i <> vid v -> env (setValue v z m) i = env m i.
Proof. intros H. simpl. now destruct (Nat.eqb_spec i (vid v)). Qed.

Lemma env_doLoad_other (r b : Value) (c : list Value) (m : Machine)
  (i : nat) :
  i <> vid r -> env (doLoad r b c m) i = env m i.
Proof. intros H. simpl. now destruct (Nat.eqb_spec i (vid r)). Qed.

Lemma trace_setValue (v : Value) (z : Z) (m : Machine) :
  trace (setValue v z m) = trace m.
Proof. reflexivity. Qed.

Lemma env_doStore (v b : Value) (c : list Value) (m : Machine) (i : nat) :
  env (doStore v b c m) i = env m i.
Proof. reflexivity. Qed.

Lemma trace_doLoad (r b : Value) (c : list Value) (m : Machine) :
  trace (doLoad r b c m) =
  trace m ++ [EvLoad (vid b) (map (fun v => env m (vid v)) c)].
Proof. reflexivity. Qed.

Lemma trace_doStore (v b : Value) (c : list Value) (m : Machine) :
  trace (doStore v b c m) =
  trace m ++ [EvStore (vid b) (map (fun v => env m (vid v)) c)
                (env m (vid v))].
Proof. reflexivity. Qed.

(** Orders and tells apart SSA numbers of the forms [S (S ... n)] and
    [i] with [i < n] at hand. *)
Ltac ids_lt :=
  unfold lt; solve [repeat first [apply le_n | assumption | apply le_S]].

Ltac ids_neq :=
  first [ reflexivity
        | apply Nat.lt_neq; ids_lt
        | apply not_eq_sym; apply Nat.lt_neq; ids_lt
        | lia ].

(** Rewrites the operands [env mc i] of the goal with the known facts. *)
Ltac use_facts mc :=
  repeat match goal with
         | H : env mc ?i = _ |- context [env mc ?i] => rewrite H
         end;
  repeat match goal with
         | Hold : forall i, (i < _)%nat -> env mc i = _
           |- context [env mc ?i] =>
             rewrite (Hold i) by (cbn [vid]; first [assumption | ids_lt | lia])
         end.

Ltac use_facts_in mc Htr :=
  repeat match goal with
         | H : env mc ?i = _ |- _ =>
             lazymatch type of Htr with
             | context [env mc i] => rewrite H in Htr
             end
         end.

(** Carries the facts about [mc] over to [mc'], which differs from it at
    [r] only. *)
Ltac carry_facts mc mc' r Hframe :=
  repeat match goal with
         | H : env mc ?i = ?z |- _ =>
             let H' := fresh "Hv" in
             assert (H' : env mc' i = z)
               by (rewrite Hframe by (cbn [vid]; ids_neq); exact H);
             clear H
         end;
  repeat match goal with
         | Hold : forall i, (i < ?b)%nat -> env mc i = ?f i |- _ =>
             let H' := fresh "Hold" in
             assert (H' : forall i, (i < b)%nat -> env mc' i = f i)
               by (intros ? ?; rewrite Hframe by (cbn [vid]; ids_neq);
                   apply Hold; assumption);
             clear Hold
         end;
  repeat match goal with
         | Hold : forall i, (i < ?b)%nat -> env mc i = env ?m1 i |- _ =>
             let H' := fresh "Hold" in
             assert (H' : forall i, (i < b)%nat -> env mc' i = env m1 i)
               by (intros ? ?; rewrite Hframe by (cbn [vid]; ids_neq);
                   apply Hold; assumption);
             clear Hold
         end.

(** Starts from the machine [m] with the loop variable [iv] set to [z];
    [Hagree] says that [m] agrees with [mc] below [iv]. *)
Ltac sem_enter_loop m Hagree :=
  repeat match goal with
         | H : env ?mc ?i = ?z |- _ =>
             lazymatch type of Hagree with
             | forall j, _ -> env m j = env mc j =>
                 let H' := fresh "Hv" in
                 assert (H' : env m i = z)
                   by (rewrite Hagree by (cbn [vid]; first [ids_lt | lia]); exact H);
                 clear H
             end
         end;
  repeat match goal with
         | Hold : forall i, (i < ?b)%nat -> env ?mc i = env ?m1 i |- _ =>
             lazymatch type of Hagree with
             | forall j, _ -> env m j = env mc j =>
                 let H' := fresh "Hold" in
                 assert (H' : forall i, (i < b)%nat -> env m i = env m1 i)
                   by (intros ? ?; rewrite Hagree by (cbn [vid]; first [ids_lt | lia]);
                       apply Hold; assumption);
                 clear Hold
             end
         end;
  lazymatch goal with
  | |- context [setValue ?iv ?z m] =>
      let mc' := fresh "mc" in
      let E := fresh "E" in
      remember (setValue iv z m) as mc' eqn:E;
      let Hframe := fresh "Hframe" in
      assert (Hframe : forall i, i <> vid iv -> env mc' i = env m i)
        by (intros ? ?; rewrite E; now apply env_setValue_other);
      let Hnew := fresh "Hv" in
      assert (Hnew : env mc' (vid iv) = z)
        by (rewrite E; apply env_setValue_same);
      let Htr := fresh "Htr" in
      assert (Htr : trace mc' = trace m) by (rewrite E; apply trace_setValue);
      cbn [vid] in Hnew;
      carry_facts m mc' iv Hframe;
      clear E Hframe
  end.

(** Puts the recorded steps of the trace together. *)
Ltac sem_trace :=
  rewrite ?execs_nil;
  repeat match goal with
         | H : trace ?a = _ |- context [trace ?a] => rewrite H
         | H : exists z, trace ?a = _ |- context [trace ?a] =>
             let z := fresh "z" in destruct H as [z H]; rewrite H
         end;
  rewrite <- ?app_assoc; cbn [app].

(** Compares two traces event by event, addresses as [index] values. *)
Ltac trace_eq :=
  repeat lazymatch goal with
         | |- ?t ++ _ = ?t ++ _ => apply (f_equal (app t))
         | |- EvLoad ?b [_] = EvLoad ?b [_] =>
             apply (f_equal (fun x => EvLoad b [x])); same_index
         | |- EvStore ?b [_] _ = EvStore ?b [_] _ =>
             first [ reflexivity
                   | apply (f_equal2 (fun x z => EvStore b [x] z));
                     [same_index | reflexivity] ]
         | |- _ :: _ = _ :: _ => apply (f_equal2 (@cons Event))
         | |- @nil Event = @nil Event => reflexivity
         end.

Ltac sem_step :=
  rewrite execs_cons; cbn [exec]; unfold getValue; cbn [vid];
  lazymatch goal with
  | |- context [execs _ _ _ _ _ (setValue ?r ?z ?mc)] =>
      use_facts mc;
      lazymatch goal with
      | |- context [execs _ _ _ _ _ (setValue r ?z' mc)] =>
          let mc' := fresh "mc" in
          let E := fresh "E" in
          remember (setValue r z' mc) as mc' eqn:E;
          let Hframe := fresh "Hframe" in
          assert (Hframe : forall i, i <> vid r -> env mc' i = env mc i)
            by (intros ? ?; rewrite E; now apply env_setValue_other);
          let Hnew := fresh "Hv" in
          assert (Hnew : env mc' (vid r) = z')
            by (rewrite E; apply env_setValue_same);
          let Htr := fresh "Htr" in
          assert (Htr : trace mc' = trace mc) by (rewrite E; apply trace_setValue);
          cbn [vid] in Hnew;
          carry_facts mc mc' r Hframe;
          clear E Hframe
      end
  | |- context [execs _ _ _ _ _ (doLoad ?r ?b ?c ?mc)] =>
      let mc' := fresh "mc" in
      let E := fresh "E" in
      remember (doLoad r b c mc) as mc' eqn:E;
      let Hframe := fresh "Hframe" in
      assert (Hframe : forall i, i <> vid r -> env mc' i = env mc i)
        by (intros ? ?; rewrite E; now apply env_doLoad_other);
      let Htr := fresh "Htr" in
      assert (Htr : trace mc' =
                    trace mc ++ [EvLoad (vid b) (map (fun x => env mc (vid x)) c)])
        by (rewrite E; apply trace_doLoad);
      cbn [map vid] in Htr; use_facts_in mc Htr;
      carry_facts mc mc' r Hframe;
      clear E Hframe
  | |- context [execs _ _ _ _ _ (doStore ?sv ?b ?c ?mc)] =>
      let mc' := fresh "mc" in
      let E := fresh "E" in
      remember (doStore sv b c mc) as mc' eqn:E;
      let Hframe := fresh "Hframe" in
      assert (Hframe : forall i, i = i -> env mc' i = env mc i)
        by (intros ? ?; rewrite E; apply env_doStore);
      let Htr := fresh "Htr" in
      assert (Htr : exists z, trace mc' =
                    trace mc ++
                    [EvStore (vid b) (map (fun x => env mc (vid x)) c) z])
        by (eexists; rewrite E; apply trace_doStore);
      cbn [map vid] in Htr; use_facts_in mc Htr;
      carry_facts mc mc' sv Hframe;
      clear E Hframe
  end.

(** *** Stepping with the loaded and the stored values

    As above, and the memory is followed too: a fact [mem mc = mem m] says
    that nothing has been stored since [m], a fact
    [forall b c, b <> x -> mem mc b c = mem m b c] that only the buffer [x]
    has been stored to. *)

Lemma mem_setValue (v : Value) (z : Z) (m : Machine) :
  mem (setValue v z m) = mem m.
Proof. reflexivity. Qed.

Lemma mem_doLoad (r b : Value) (c : list Value) (m : Machine) :
  mem (doLoad r b c m) = mem m.
Proof. reflexivity. Qed.

Lemma env_doLoad_same (r b : Value) (c : list Value) (m : Machine) :
  env (doLoad r b c m) (vid r) =
  mem m (vid b) (map (fun v => env m (vid v)) c).
Proof. simpl. now rewrite Nat.eqb_refl. Qed.

Lemma mem_doStore_other (v b : Value) (c : list Value) (m : Machine)
  (b' : nat) (c' : list Z) :
  b' <> vid b -> mem (doStore v b c m) b' c' = mem m b' c'.
Proof.
  intros H. simpl. now destruct (Nat.eqb_spec b' (vid b)).
Qed.

(** Carries the fact about the memory of [mc] over to [mc'], which has the
    same memory by [Hsame]. *)
Ltac carry_mem mc mc' Hsame :=
  try match goal with
      | Hm : mem mc = ?f |- _ =>
          let H' := fresh "Hmem" in
          assert (H' : mem mc' = f) by (rewrite Hsame; exact Hm);
          clear Hm
      | Hm : forall b c, b <> ?x -> mem mc b c = mem ?m0 b c |- _ =>
          let H' := fresh "Hmem" in
          assert (H' : forall b c, b <> x -> mem mc' b c = mem m0 b c)
            by (intros ? ? ?; rewrite Hsame; apply Hm; assumption);
          clear Hm
      end.

(** Writes the memory read in [H] as the memory of the machine the loop
    iteration started from. *)
Ltac use_mem_in mc H :=
  try match goal with
      | Hm : mem mc = _ |- _ => rewrite Hm in H
      | Hm : forall b c, b <> _ -> mem mc b c = _ |- _ =>
          rewrite Hm in H by (cbn [vid]; first [assumption | congruence])
      end.

Ltac vsem_enter_loop m Hagree :=
  repeat match goal with
         | H : env ?mc ?i = ?z |- _ =>
             lazymatch type of Hagree with
             | forall j, _ -> env m j = env mc j =>
                 let H' := fresh "Hv" in
                 assert (H' : env m i = z)
                   by (rewrite Hagree by (cbn [vid]; first [ids_lt | lia]); exact H);
                 clear H
             end
         end;
  repeat match goal with
         | Hold : forall i, (i < ?b)%nat -> env ?mc i = env ?m1 i |- _ =>
             lazymatch type of Hagree with
             | forall j, _ -> env m j = env mc j =>
                 let H' := fresh "Hold" in
                 assert (H' : forall i, (i < b)%nat -> env m i = env m1 i)
                   by (intros ? ?; rewrite Hagree by (cbn [vid]; first [ids_lt | lia]);
                       apply Hold; assumption);
                 clear Hold
             end
         end;
  lazymatch goal with
  | |- context [setValue ?iv ?z m] =>
      let mc' := fresh "mc" in
      let E := fresh "E" in
      remember (setValue iv z m) as mc' eqn:E;
      let Hframe := fresh "Hframe" in
      assert (Hframe : forall i, i <> vid iv -> env mc' i = env m i)
        by (intros ? ?; rewrite E; now apply env_setValue_other);
      let Hnew := fresh "Hv" in
      assert (Hnew : env mc' (vid iv) = z)
        by (rewrite E; apply env_setValue_same);
      let Htr := fresh "Htr" in
      assert (Htr : trace mc' = trace m) by (rewrite E; apply trace_setValue);
      let Hmem := fresh "Hmem" in
      assert (Hmem : mem mc' = mem m) by (rewrite E; apply mem_setValue);
      cbn [vid] in Hnew;
      carry_facts m mc' iv Hframe;
      clear E Hframe
  end.

Ltac vsem_step :=
  rewrite execs_cons; cbn [exec]; unfold getValue; cbn [vid];
  lazymatch goal with
  | |- context [execs _ _ _ _ _ (setValue ?r ?z ?mc)] =>
      use_facts mc;
      lazymatch goal with
      | |- context [execs _ _ _ _ _ (setValue r ?z' mc)] =>
          let mc' := fresh "mc" in
          let E := fresh "E" in
          remember (setValue r z' mc) as mc' eqn:E;
          let Hframe := fresh "Hframe" in
          assert (Hframe : forall i, i <> vid r -> env mc' i = env mc i)
            by (intros ? ?; rewrite E; now apply env_setValue_other);
          let Hnew := fresh "Hv" in
          assert (Hnew : env mc' (vid r) = z')
            by (rewrite E; apply env_setValue_same);
          let Htr := fresh "Htr" in
          assert (Htr : trace mc' = trace mc)
            by (rewrite E; apply trace_setValue);
          let Hsame := fresh "Hsame" in
          assert (Hsame : mem mc' = mem mc)
            by (rewrite E; apply mem_setValue);
          cbn [vid] in Hnew;
          carry_facts mc mc' r Hframe;
          carry_mem mc mc' Hsame;
          clear E Hframe Hsame
      end
  | |- context [execs _ _ _ _ _ (doLoad ?r ?b ?c ?mc)] =>
      let mc' := fresh "mc" in
      let E := fresh "E" in
      remember (doLoad r b c mc) as mc' eqn:E;
      let Hframe := fresh "Hframe" in
      assert (Hframe : forall i, i <> vid r -> env mc' i = env mc i)
        by (intros ? ?; rewrite E; now apply env_doLoad_other);
      let Hnew := fresh "Hv" in
      assert (Hnew : env mc' (vid r) =
                     mem mc (vid b) (map (fun x => env mc (vid x)) c))
        by (rewrite E; apply env_doLoad_same);
      let Htr := fresh "Htr" in
      assert (Htr : trace mc' =
                    trace mc ++ [EvLoad (vid b) (map (fun x => env mc (vid x)) c)])
        by (rewrite E; apply trace_doLoad);
      let Hsame := fresh "Hsame" in
      assert (Hsame : mem mc' = mem mc) by (rewrite E; apply mem_doLoad);
      cbn [map vid] in Htr, Hnew;
      use_facts_in mc Htr; use_facts_in mc Hnew; use_mem_in mc Hnew;
      carry_facts mc mc' r Hframe;
      carry_mem mc mc' Hsame;
      clear E Hframe Hsame
  | |- context [execs _ _ _ _ _ (doStore ?sv ?b ?c ?mc)] =>
      let mc' := fresh "mc" in
      let E := fresh "E" in
      remember (doStore sv b c mc) as mc' eqn:E;
      let Hframe := fresh "Hframe" in
      assert (Hframe : forall i, i = i -> env mc' i = env mc i)
        by (intros ? ?; rewrite E; apply env_doStore);
      let Htr := fresh "Htr" in
      assert (Htr : trace mc' =
                    trace mc ++
                    [EvStore (vid b) (map (fun x => env mc (vid x)) c)
                       (env mc (vid sv))])
        by (rewrite E; apply trace_doStore);
      cbn [map vid] in Htr; use_facts_in mc Htr;
      try match goal with
          | Hm : mem mc = mem ?m0 |- _ =>
              let H' := fresh "Hmem" in
              assert (H' : forall b' c', b' <> vid b ->
                             mem mc' b' c' = mem m0 b' c')
                by (intros ? ? ?; rewrite E;
                    rewrite mem_doStore_other by assumption;
                    now rewrite Hm)
          end;
      repeat match goal with
             | Hm : mem mc = _ |- _ => clear Hm
             | Hm : forall b c, b <> _ -> mem mc b c = _ |- _ => clear Hm
             end;
      carry_facts mc mc' sv Hframe;
      clear E Hframe
  end.

(** Compares two traces event by event: addresses as [index] values, a
    stored value as the memory cell it was loaded from. *)
Ltac mem_eq :=
  lazymatch goal with
  | |- mem ?m ?a [_] = mem ?m ?a [_] =>
      apply (f_equal (fun x => mem m a [x])); same_index
  end.

Ltac vtrace_eq :=
  repeat lazymatch goal with
         | |- ?t ++ _ = ?t ++ _ => apply (f_equal (app t))
         | |- EvLoad ?b [_] = EvLoad ?b [_] =>
             apply (f_equal (fun x => EvLoad b [x])); same_index
         | |- EvStore ?b [_] _ = EvStore ?b [_] _ =>
             first [ reflexivity
                   | apply (f_equal2 (fun x z => EvStore b [x] z));
                     [first [reflexivity | same_index]
                     |first [reflexivity | mem_eq]] ]
         | |- _ :: _ = _ :: _ => apply (f_equal2 (@cons Event))
         | |- @nil Event = @nil Event => reflexivity
         end.

(** ** Fill *)

Section Fill.

Import FillRewritePattern.

Lemma buildAffineLoopNest_store (value input : Value) (shape : list Z) :
  forall (ivs : list Value) (s : RewriterState),
    buildAffineLoopNest (repeat 0 (List.length shape)) shape
      (repeat 1 (List.length shape)) ivs
      (fun ivs => create_StoreOp value input ivs) s =
    Ok (tt,
        mkRewriterState (nextId s + List.length shape)
          (emitted s ++ expectedNest value input ivs (nextId s) shape)
          (replacement s)).
Proof.
  induction shape as [|ub shape IH]; intros ivs s.
  - simpl. unfold create_StoreOp, emit. now rewrite Nat.add_0_r.
  - cbn [List.length repeat buildAffineLoopNest expectedNest].
    unfold create_AffineForOp, bind, fresh, inRegion.
    rewrite IH. cbn. now rewrite Nat.add_succ_r.
Qed.

Variables (indexBitwidth workitemId : Z).
Variable applyTransform : TransformMapAttr -> list Z -> list Z.
Variable convert : Ty -> Ty -> Z -> Z.

Local Abbreviation execs :=
  (execs indexBitwidth workitemId applyTransform convert).

Lemma getValue_setValue_other (m : Machine) (v w : Value) (z : Z) :
  vid w <> vid v -> getValue (setValue v z m) w = getValue m w.
Proof.
  intros H. unfold getValue, setValue; simpl.
  destruct (Nat.eqb_spec (vid w) (vid v)); [contradiction|reflexivity].
Qed.

Lemma getValue_setValue_same (m : Machine) (v : Value) (z : Z) :
  getValue (setValue v z m) v = z.
Proof. unfold getValue, setValue; simpl. now rewrite Nat.eqb_refl. Qed.

(** A run of the expected nest stores the value once at every coordinate
    of the shape, in row-major order, below the coordinates already fixed
    by the enclosing loops; it leaves older SSA values as they were. *)
Lemma run_expectedNest (value input : Value) (shape : list Z) :
  forall (ivs : list Value) (next : nat) (m : Machine),
    (vid value < next)%nat ->
    Forall (fun iv => (vid iv < next)%nat) ivs ->
    let m' := execs (expectedNest value input ivs next shape) m in
    trace m' =
      trace m ++
      map (fun c => EvStore (vid input) (map (getValue m) ivs ++ c)
                      (getValue m value))
          (box shape [])
    /\ forall i, (i < next)%nat -> env m' i = env m i.
Proof.
  induction shape as [|ub shape IH]; intros ivs next m Hv Hivs m'.
  - subst m'. simpl. now rewrite app_nil_r.
  - subst m'. cbn [expectedNest]. rewrite execs_cons, execs_nil.
    rewrite exec_AffineForOp. cbn [box hd tl].
    set (iv := mkValue next IndexType).
    (* the loop, one value of the induction variable after the other *)
    assert (Hloop : forall (range : list Z) (m1 : Machine),
      (forall i, (i < next)%nat -> env m1 i = env m i) ->
      let m2 := fold_left
                  (fun m' i =>
                     execs (expectedNest value input (ivs ++ [iv]) (S next)
                              shape) (setValue iv i m')) range m1 in
      trace m2 =
        trace m1 ++
        map (fun c => EvStore (vid input) (map (getValue m) ivs ++ c)
                        (getValue m value))
            (flat_map (fun i => map (cons i) (box shape [])) range)
      /\ forall i, (i < next)%nat -> env m2 i = env m i).
    { induction range as [|i range IHr]; intros m1 Hm1 m2.
      - subst m2; simpl. now rewrite app_nil_r.
      - subst m2. cbn [fold_left flat_map].
        destruct (IH (ivs ++ [iv]) (S next) (setValue iv i m1)) as [Ht He].
        { simpl; lia. }
        { apply Forall_app; split.
          - eapply Forall_impl; [|exact Hivs]. simpl; intros; lia.
          - repeat constructor. }
        assert (Hold : forall j, (j < next)%nat ->
                  env (setValue iv i m1) j = env m j).
        { intros j Hj. simpl.
          destruct (Nat.eqb_spec j next); [lia|now apply Hm1]. }
        edestruct IHr as [Ht' He'];
          [|rewrite Ht'; split; [|exact He']].
        { intros j Hj. rewrite He by lia. now apply Hold. }
        rewrite Ht. change (trace (setValue iv i m1)) with (trace m1).
        rewrite <- app_assoc. f_equal.
        rewrite (map_app _ (map (cons i) (box shape []))). f_equal.
        rewrite map_map. apply map_ext. intros c.
        rewrite map_app. cbn [map]. rewrite getValue_setValue_same.
        rewrite <- app_assoc. cbn [app]. f_equal; [f_equal|].
        + apply map_ext_in. intros w Hw. unfold getValue.
          apply Hold. rewrite Forall_forall in Hivs. now apply Hivs.
        + unfold getValue. now apply Hold. }
    apply Hloop. reflexivity.
Qed.

(** C8: a fill of a buffer of shape [shape] is replaced (by no value) with
    a nest of one [affine.for] per dimension, each from 0 to the extent in
    steps of 1, around one store of the fill value at the induction
    variables; a run of that nest stores the value at every coordinate of
    the shape exactly once. *)
Theorem fill_becomes_store_loop_nest (op : FillOp) (adaptor : FillOpAdaptor)
  (n0 : nat) (shape : list Z) (elementType : Ty) (space : Z) (m : Machine) :
  vty (fill_input (fill_operands op)) = MemRefType shape elementType space ->
  (vid (fill_value adaptor) < n0)%nat ->
  let nest :=
    expectedNest (fill_value adaptor) (fill_input adaptor) [] n0 shape in
  matchAndRewrite op adaptor (initState n0) =
    Ok (success, mkRewriterState (n0 + List.length shape) nest (Some []))
  /\ trace (execs nest m) =
       trace m ++
       map (fun c => EvStore (vid (fill_input adaptor)) c
                       (getValue m (fill_value adaptor)))
           (box shape [])
  /\ NoDup (box shape [])
  /\ (forall c, In c (box shape []) <-> inShape c shape).
Proof.
  intros Hty Hfresh nest. split; [|split; [|split]].
  - unfold matchAndRewrite, bind. rewrite Hty. cbn [cast_MemRefType ret getShape].
    rewrite buildAffineLoopNest_store. reflexivity.
  - apply (run_expectedNest (fill_value adaptor) (fill_input adaptor) shape
             [] n0 m Hfresh (Forall_nil _)).
  - apply NoDup_box.
  - intros c. apply In_box.
Qed.

End Fill.

Lemma fill_becomes_store_loop_nest_witness :
  FillRewritePattern.matchAndRewrite fillExample (fill_operands fillExample)
    (initState 2) =
  Ok (success,
      mkRewriterState 4
        [AffineForOp (mkValue 2 IndexType) 0 2 1
           [AffineForOp (mkValue 3 IndexType) 0 3 1
              [StoreOp (mkValue 1 F32) (mkValue 0 (MemRefType [2; 3] F32 5))
                 [mkValue 2 IndexType; mkValue 3 IndexType]]]]
        (Some []))
  /\ trace (execs 64 0 (fun _ c => c) (fun _ _ z => z)
              (FillRewritePattern.expectedNest (mkValue 1 F32)
                 (mkValue 0 (MemRefType [2; 3] F32 5)) [] 2 [2; 3])
              machine0) =
     [EvStore 0 [0; 0] 101; EvStore 0 [0; 1] 101; EvStore 0 [0; 2] 101;
      EvStore 0 [1; 0] 101; EvStore 0 [1; 1] 101; EvStore 0 [1; 2] 101].
Proof.
  destruct (fill_becomes_store_loop_nest 64 0 (fun _ c => c)
              (fun _ _ z => z) fillExample (fill_operands fillExample) 2
              [2; 3] F32 5 machine0 eq_refl (Nat.lt_succ_diag_r 1))
    as (Hrun & Htrace & _).
  split; [exact Hrun | exact Htrace].
Defined.

(** ** BlockwiseGemm *)

Section CopyLoops.

Variables (indexBitwidth workitemId : Z).
Variable applyTransform : TransformMapAttr -> list Z -> list Z.
Variable convert : Ty -> Ty -> Z -> Z.

Local Abbreviation exec :=
  (exec indexBitwidth workitemId applyTransform convert).
Local Abbreviation execs :=
  (execs indexBitwidth workitemId applyTransform convert).
Local Abbreviation bindDomains := (bindDomains applyTransform).

Lemma setValues_trace (vs : list Value) :
  forall (zs : list Z) (m1 : Machine),
    trace (setValues vs zs m1) = trace m1.
Proof.
  induction vs as [|v vs IH]; intros [|z zs] m1; simpl; try reflexivity.
  now rewrite IH.
Qed.

Lemma bindDomains_trace (lcs : list (list Value)) :
  forall sts chs idx (m1 m2 : Machine),
    trace (bindDomains lcs sts chs idx m1 m2) = trace m2.
Proof.
  induction lcs as [|lc lcs IH]; intros [|st sts] [|ch chs] idx m1 m2;
    simpl; try reflexivity.
  now rewrite IH, setValues_trace.
Qed.

Lemma countLoads_app (b : nat) (t1 t2 : list Event) :
  countLoads b (t1 ++ t2) = (countLoads b t1 + countLoads b t2)%nat.
Proof. unfold countLoads. now rewrite filter_app, length_app. Qed.

Lemma countStores_app (b : nat) (t1 t2 : list Event) :
  countStores b (t1 ++ t2) = (countStores b t1 + countStores b t2)%nat.
Proof. unfold countStores. now rewrite filter_app, length_app. Qed.

(** The number of index tuples of a loop over four non-negative bounds. *)
Lemma length_box4 (a b c d : Z) :
  0 <= a -> 0 <= b -> 0 <= c -> 0 <= d ->
  Z.of_nat (List.length (box [a; b; c; d] [])) = a * b * c * d.
Proof.
  intros. rewrite length_box. cbn [fold_right]. lia.
Qed.

End CopyLoops.

Lemma int64_id (z : Z) : in_int64 z -> int64 z = z.
Proof.
  unfold in_int64, int64. intros H.
  rewrite Z.mod_small; lia.
Qed.

Section BlockwiseGemm.

Import BlockwiseGemmRewritePattern.

Variable untransform :
  Value -> list TransformMapAttr -> Value * list TransformMapAttr.

Variables (op : BlockwiseGemmOp) (adaptor : BlockwiseGemmOpAdaptor).

(** Peeling the views off the two matrices gives buffers. *)
Hypothesis untransform_A : forall maps,
  exists shape elementType space,
    vty (fst (untransform (bg_matrixA adaptor) maps)) =
    MemRefType shape elementType space.
Hypothesis untransform_B : forall maps,
  exists shape elementType space,
    vty (fst (untransform (bg_matrixB adaptor) maps)) =
    MemRefType shape elementType space.
Variable n0 : nat.
Variables (k m n kPack kB kPackB mC nC : Z).
Variables (elementTypeA elementTypeB elementType : Ty).
Variables (spaceA spaceB spaceC : Z).

Hypothesis matrixA_type :
  vty (bg_matrixA (bg_operands op)) =
  MemRefType [k; m; kPack] elementTypeA spaceA.
Hypothesis matrixB_type :
  vty (bg_matrixB (bg_operands op)) =
  MemRefType [kB; n; kPackB] elementTypeB spaceB.
Hypothesis matrixC_type :
  vty (bg_matrixC (bg_operands op)) = MemRefType [mC; nC] elementType spaceC.

Let kPerThread := kPerThreadAttr op.
Let mPerThread := mPerThreadAttr op.
Let nPerThread := nPerThreadAttr op.
Let mRepeat := int64 (Z.quot mC mPerThread).
Let nRepeat := int64 (Z.quot nC nPerThread).

Hypothesis mPerThread_nonzero : mPerThread <> 0.
Hypothesis nPerThread_nonzero : nPerThread <> 0.
Hypothesis mRepeat_nonzero : mRepeat <> 0.
Hypothesis nRepeat_nonzero : nRepeat <> 0.

(** What the pattern creates. *)
Lemma gemm_run :
  exists (zero threadA threadB iv : Value) (next : nat)
         (lcA lcB stA stB : list (list Value))
         (chA chB : list (list TransformMapAttr))
         (bodyA bodyB : list Operation) (rA rB : Value)
         (mapA mapB : TransformMapAttr),
    matchAndRewrite untransform op adaptor (initState n0) =
    Ok (success,
        mkRewriterState next
          [ConstantIndexOp zero 0; GpuAllocOp threadA; GpuAllocOp threadB;
           AffineForOp iv 0 k kPerThread
             [TransformingForOp lcA stA chA
                [kPerThread; mRepeat; mPerThread; kPack] None true true bodyA;
              TransformingForOp lcB stB chB
                [kPerThread; nRepeat; nPerThread; kPack] None true true bodyB;
              TransformOp rA threadA mapA; TransformOp rB threadB mapB;
              ThreadwiseGemmOp rA rB (bg_matrixC (bg_operands op))]]
          (Some []))
    /\ vty threadA =
       MemRefType [int64_mul (int64_mul kPerThread mC) kPack] elementType
         getPrivateAddressSpace
    /\ vty threadB =
       MemRefType [int64_mul (int64_mul kPerThread nC) kPack] elementType
         getPrivateAddressSpace
    /\ CopyBody
         (fst (untransform (bg_matrixA adaptor)
                 [TopDownTMBuilder ["k"; "mRepeat"; "mPerThread"; "kpack"]
                    [k; mRepeat; int64 (Z.quot m mRepeat); kPack]
                    [passThrough "k";
                     embed "m" 1 m ["mRepeat"; "mPerThread"]
                       [mRepeatStrideAttr op; 1];
                     passThroughTo ["kpack"] [2%nat] ["kpack"]]]))
         threadA bodyA
    /\ CopyBody
         (fst (untransform (bg_matrixB adaptor)
                 [TopDownTMBuilder ["k"; "nRepeat"; "nPerThread"; "kpack"]
                    [k; nRepeat; int64 (Z.quot n nRepeat); kPack]
                    [passThrough "k";
                     embed "n" 1 n ["nRepeat"; "nPerThread"]
                       [nRepeatStrideAttr op; 1];
                     passThroughTo ["kpack"] [2%nat] ["kpack"]]]))
         threadB bodyB.
Proof.
  set (strideA := TopDownTMBuilder ["k"; "mRepeat"; "mPerThread"; "kpack"] _ _).
  set (strideB := TopDownTMBuilder ["k"; "nRepeat"; "nPerThread"; "kpack"] _ _).
  destruct (untransform_A [strideA]) as (shA & elA & spA & HA).
  destruct (untransform_B [strideB]) as (shB & elB & spB & HB).
  destruct (untransform (bg_matrixA adaptor) [strideA])
    as [matrixA transformsA] eqn:UA.
  destruct (untransform (bg_matrixB adaptor) [strideB])
    as [matrixB transformsB] eqn:UB.
  cbn [fst] in HA, HB |- *.
  destruct (Ty_eqb elA elementType) eqn:EA;
    destruct (Ty_eqb elB elementType) eqn:EB.
  all: do 17 eexists; split; [|split; [|split; [|split]]].
  all: try (unfold matchAndRewrite;
            rewrite matrixA_type, matrixB_type, matrixC_type;
            fold kPerThread mPerThread nPerThread; run).
  all: first [reflexivity | constructor].
Qed.

End BlockwiseGemm.

(** An extent that divides evenly: the repeat count is exact, positive, and
    fits the machine integer. *)
Lemma exact_repeat (c p : Z) :
  0 < p -> 0 < c -> in_int64 c -> Z.rem c p = 0 ->
  int64 (Z.quot c p) = Z.quot c p /\ 0 < Z.quot c p /\ c = Z.quot c p * p.
Proof.
  intros Hp Hc Hr Hrem.
  pose proof (Z.quot_rem' c p) as E. rewrite Hrem in E.
  assert (Hq : 0 < Z.quot c p) by nia.
  split; [|split; [exact Hq | lia]].
  apply int64_id. unfold in_int64 in *. nia.
Qed.

(** C5, as the code has it: the lowering allocates exactly two buffers in
    private memory, one for A and one for B, of the element type of C and of
    [kPerThread * mC * kPack] and [kPerThread * nC * kPack] elements
    ([int64_t] products), where [mC x nC] is the shape of the thread's tile
    of C; with [mC = mRepeat * mPerThread] that is the spec's
    K-per-thread x repeat-count x K-pack size times [mPerThread]. *)
Theorem register_buffers_hold_the_thread_tile
  (untransform : Value -> list TransformMapAttr ->
                 Value * list TransformMapAttr)
  (op : BlockwiseGemmOp) (adaptor : BlockwiseGemmOpAdaptor) (n0 : nat)
  (k m n kPack kB kPackB mC nC : Z)
  (elementTypeA elementTypeB elementType : Ty) (spaceA spaceB spaceC : Z) :
  (forall maps, exists shape elementType space,
      vty (fst (untransform (bg_matrixA adaptor) maps)) =
      MemRefType shape elementType space) ->
  (forall maps, exists shape elementType space,
      vty (fst (untransform (bg_matrixB adaptor) maps)) =
      MemRefType shape elementType space) ->
  vty (bg_matrixA (bg_operands op)) =
    MemRefType [k; m; kPack] elementTypeA spaceA ->
  vty (bg_matrixB (bg_operands op)) =
    MemRefType [kB; n; kPackB] elementTypeB spaceB ->
  vty (bg_matrixC (bg_operands op)) = MemRefType [mC; nC] elementType spaceC ->
  mPerThreadAttr op <> 0 ->
  nPerThreadAttr op <> 0 ->
  int64 (Z.quot mC (mPerThreadAttr op)) <> 0 ->
  int64 (Z.quot nC (nPerThreadAttr op)) <> 0 ->
  exists s,
    BlockwiseGemmRewritePattern.matchAndRewrite untransform op adaptor
      (initState n0) = Ok (success, s)
    /\ allocations (emitted s) =
       [MemRefType [int64_mul (int64_mul (kPerThreadAttr op) mC) kPack]
          elementType getPrivateAddressSpace;
        MemRefType [int64_mul (int64_mul (kPerThreadAttr op) nC) kPack]
          elementType getPrivateAddressSpace]
    /\ (in_int64 (kPerThreadAttr op * mC) ->
        in_int64 (kPerThreadAttr op * mC * kPack) ->
        forall mRepeat, mC = mRepeat * mPerThreadAttr op ->
        int64_mul (int64_mul (kPerThreadAttr op) mC) kPack =
        repeatCountSize (kPerThreadAttr op) mRepeat kPack * mPerThreadAttr op)
    /\ (in_int64 (kPerThreadAttr op * nC) ->
        in_int64 (kPerThreadAttr op * nC * kPack) ->
        forall nRepeat, nC = nRepeat * nPerThreadAttr op ->
        int64_mul (int64_mul (kPerThreadAttr op) nC) kPack =
        repeatCountSize (kPerThreadAttr op) nRepeat kPack * nPerThreadAttr op).
Proof.
  intros HuA HuB HA HB HC Hm Hn Hmr Hnr.
  destruct (gemm_run untransform op adaptor HuA HuB n0 k m n kPack kB kPackB
              mC nC elementTypeA elementTypeB elementType spaceA spaceB
              spaceC HA HB HC Hm Hn Hmr Hnr)
    as (zero & threadA & threadB & iv & next & lcA & lcB & stA & stB & chA
        & chB & bodyA & bodyB & rA & rB & mapA & mapB
        & Hrun & HtA & HtB & HbA & HbB).
  eexists. split; [exact Hrun|]. split; [|split].
  - cbn [emitted]. destruct HbA, HbB; cbn; now rewrite HtA, HtB.
  - intros H1 H2 mRepeat E. unfold int64_mul, repeatCountSize.
    rewrite (int64_id _ H1), (int64_id _ H2). subst mC. ring.
  - intros H1 H2 nRepeat E. unfold int64_mul, repeatCountSize.
    rewrite (int64_id _ H1), (int64_id _ H2). subst nC. ring.
Qed.

Lemma register_buffers_hold_the_thread_tile_witness :
  exists s,
    BlockwiseGemmRewritePattern.matchAndRewrite untransformNothing
      gemmExample (bg_operands gemmExample) (initState 5) = Ok (success, s)
    /\ allocations (emitted s) =
       [MemRefType [8] F32 getPrivateAddressSpace;
        MemRefType [8] F32 getPrivateAddressSpace].
Proof.
  destruct (register_buffers_hold_the_thread_tile untransformNothing
              gemmExample (bg_operands gemmExample) 5 8 128 128 1 8 1 4 4
              F16 F16 F32 3 3 5)
    as (s & Hrun & Halloc & _).
  - intros maps. do 3 eexists. reflexivity.
  - intros maps. do 3 eexists. reflexivity.
  - reflexivity.
  - reflexivity.
  - reflexivity.
  - discriminate.
  - discriminate.
  - discriminate.
  - discriminate.
  - exists s. split; [exact Hrun | exact Halloc].
Defined.

(** C5 as the spec words it fails: with a 4 x 4 tile of C, two rows per
    repeat, two steps of K and K-pack 1, the spec's size is
    2 x (4 / 2) x 1 = 4 elements, and the lowering allocates 8. *)
Lemma register_buffers_not_repeat_count_sized :
  exists s,
    BlockwiseGemmRewritePattern.matchAndRewrite untransformNothing
      gemmExample (bg_operands gemmExample) (initState 5) = Ok (success, s)
    /\ allocations (emitted s) <>
       [MemRefType
          [repeatCountSize (kPerThreadAttr gemmExample)
             (Z.quot 4 (mPerThreadAttr gemmExample)) 1]
          F32 getPrivateAddressSpace;
        MemRefType
          [repeatCountSize (kPerThreadAttr gemmExample)
             (Z.quot 4 (nPerThreadAttr gemmExample)) 1]
          F32 getPrivateAddressSpace].
Proof.
  remember (BlockwiseGemmRewritePattern.matchAndRewrite untransformNothing
              gemmExample (bg_operands gemmExample) (initState 5)) as r eqn:E.
  vm_compute in E. subst r.
  eexists. split; [reflexivity|]. vm_compute. discriminate.
Qed.

(** ** The copy loops of the BlockwiseGemm lowering, element by element *)

Lemma env_setValues_other (vs : list Value) :
  forall (zs : list Z) (m : Machine) (i : nat),
    ~ In i (map vid vs) -> env (setValues vs zs m) i = env m i.
Proof.
  induction vs as [|v vs IH]; intros [|z zs] m i Hi; simpl; try reflexivity.
  rewrite IH by (intros H; apply Hi; now right).
  simpl. destruct (Nat.eqb_spec i (vid v)); [|reflexivity].
  elim Hi. now left.
Qed.

Lemma env_setValues_same (vs : list Value) :
  forall (zs : list Z) (m : Machine),
    NoDup (map vid vs) -> List.length vs = List.length zs ->
    map (fun v => env (setValues vs zs m) (vid v)) vs = zs.
Proof.
  induction vs as [|v vs IH]; intros [|z zs] m Hnd Hlen; simpl in *;
    try reflexivity; try discriminate.
  inversion Hnd as [|? ? Hnin Hnd']; subst.
  f_equal.
  - rewrite env_setValues_other by exact Hnin. simpl.
    now rewrite Nat.eqb_refl.
  - apply IH; [exact Hnd'|lia].
Qed.

Lemma mem_setValues (vs : list Value) :
  forall (zs : list Z) (m : Machine), mem (setValues vs zs m) = mem m.
Proof.
  induction vs as [|v vs IH]; intros [|z zs] m; simpl; try reflexivity.
  now rewrite IH.
Qed.

Lemma NoDup_app_disjoint {A} (l l' : list A) :
  NoDup (l ++ l') -> forall x, In x l -> ~ In x l'.
Proof.
  induction l as [|a l IH]; simpl; intros Hnd x Hx Hx'; [exact Hx|].
  inversion Hnd as [|? ? Hn Hnd']; subst.
  destruct Hx as [->|Hx].
  - apply Hn, in_or_app. now right.
  - exact (IH Hnd' x Hx Hx').
Qed.

Section CopyLoopElements.

Variables (indexBitwidth workitemId : Z).
Variable applyTransform : TransformMapAttr -> list Z -> list Z.
Variable convert : Ty -> Ty -> Z -> Z.

Local Abbreviation run1 :=
  (exec indexBitwidth workitemId applyTransform convert).
Local Abbreviation runs :=
  (execs indexBitwidth workitemId applyTransform convert).
Local Abbreviation bind := (bindDomains applyTransform).
Local Abbreviation lower := (lowerCoordsOf applyTransform).

Section OneLoop.

Variables (source dest r : Value) (conv : option Value).
Variables (lc0 lc1 st0 st1 : list Value) (ch0 ch1 : list TransformMapAttr).

Hypothesis defs_distinct : NoDup (copyDefs r conv lc0 lc1).
Hypothesis starts_older :
  forall v, In v (st0 ++ st1) -> ~ In (vid v) (copyDefs r conv lc0 lc1).
Hypothesis source_is_not_dest : vid source <> vid dest.

Local Abbreviation sameOut :=
  (sameOutside (copyDefs r conv lc0 lc1) dest).
Local Abbreviation events :=
  (iterationEvents applyTransform convert source dest r conv st0 st1 ch0 ch1).

Lemma copy_iteration (m1 m : Machine) (idx : list Z) :
  sameOut m m1 ->
  List.length (lower ch0 (zipAdd (map (getValue m1) st0) idx)) =
    List.length lc0 ->
  List.length (lower ch1 (zipAdd (map (getValue m1) st1) idx)) =
    List.length lc1 ->
  let m' := runs (copyBody source dest r conv lc0 lc1)
              (bind [lc0; lc1] [st0; st1] [ch0; ch1] idx m m) in
  trace m' = trace m ++ events m1 idx /\ sameOut m' m1.
Proof.
  intros [Henv Hmem'] Hl0 Hl1.
  assert (Hst : forall v, In v (st0 ++ st1) -> getValue m v = getValue m1 v).
  { intros v Hv. unfold getValue. apply Henv, starts_older, Hv. }
  assert (Hmem : forall c, mem m (vid source) c = mem m1 (vid source) c).
  { intros c. apply Hmem', source_is_not_dest. }
  assert (E0 : map (getValue m) st0 = map (getValue m1) st0).
  { apply map_ext_in. intros v Hv. apply Hst, in_or_app. now left. }
  assert (E1 : map (getValue m) st1 = map (getValue m1) st1).
  { apply map_ext_in. intros v Hv. apply Hst, in_or_app. now right. }
  unfold iterationEvents.
  cbn [bindDomains]. rewrite E0, E1.
  set (z0 := lower ch0 (zipAdd (map (getValue m1) st0) idx)) in *.
  set (z1 := lower ch1 (zipAdd (map (getValue m1) st1) idx)) in *.
  set (mA := setValues lc0 z0 m).
  set (mB := setValues lc1 z1 mA).
  unfold sameOutside.
  unfold copyDefs in defs_distinct, starts_older, Henv |- *.
  rewrite !map_app in defs_distinct, starts_older, Henv |- *.
  assert (Hnd0 : NoDup (map vid lc0))
    by (eapply NoDup_app_remove_r; exact defs_distinct).
  assert (Hnd1 : NoDup (map vid lc1)).
  { apply NoDup_app_remove_l in defs_distinct.
    eapply NoDup_app_remove_r; exact defs_distinct. }
  assert (Hdisj01 : forall i, In i (map vid lc0) -> ~ In i (map vid lc1)).
  { intros i Hi Hi'.
    apply (NoDup_app_disjoint _ _ defs_distinct i Hi).
    apply in_or_app. now left. }
  assert (Hr1 : forall i, In i (map vid lc1) -> i <> vid r).
  { intros i Hi ->.
    apply NoDup_app_remove_l in defs_distinct.
    apply (NoDup_app_disjoint _ _ defs_distinct _ Hi). now left. }
  (* the coordinates bound for the two domains *)
  assert (EB0 : map (fun v => env mB (vid v)) lc0 = z0).
  { transitivity (map (fun v => env mA (vid v)) lc0).
    - apply map_ext_in. intros v Hv. unfold mB.
      apply env_setValues_other. apply Hdisj01. now apply in_map.
    - apply env_setValues_same; [exact Hnd0|now symmetry]. }
  assert (EB1 : map (fun v => env mB (vid v)) lc1 = z1)
    by (apply env_setValues_same; [exact Hnd1|now symmetry]).
  assert (HmemB : mem mB = mem m)
    by (unfold mB, mA; now rewrite !mem_setValues).
  assert (HtrB : trace mB = trace m)
    by (unfold mB, mA; now rewrite !setValues_trace).
  assert (HenvB : forall i, ~ In i (map vid lc0) -> ~ In i (map vid lc1) ->
                            env mB i = env m i).
  { intros i H0 H1. unfold mB, mA.
    now rewrite !env_setValues_other. }
  unfold copyBody. destruct conv as [r'|].
  - (* load, conversion, store *)
    assert (Hr'1 : forall i, In i (map vid lc1) -> i <> vid r').
    { intros i Hi ->.
      apply NoDup_app_remove_l in defs_distinct.
      apply (NoDup_app_disjoint _ _ defs_distinct _ Hi). right. now left. }
    rewrite !execs_cons, execs_nil. cbn [exec].
    unfold doStore, doLoad, setValue, getValue. cbn [trace env mem].
    rewrite !Nat.eqb_refl.
    assert (EC1 : map (fun v => if Nat.eqb (vid v) (vid r') then
                        convert (vty r) (vty r')
                          (mem mB (vid source)
                             (map (fun v0 => env mB (vid v0)) lc0))
                      else if Nat.eqb (vid v) (vid r) then
                        mem mB (vid source)
                          (map (fun v0 => env mB (vid v0)) lc0)
                      else env mB (vid v)) lc1 = z1).
    { etransitivity; [|exact EB1]. apply map_ext_in. intros v Hv.
      destruct (Nat.eqb_spec (vid v) (vid r')) as [E|_];
        [elim (Hr'1 (vid v) (in_map vid _ _ Hv) E)|].
      destruct (Nat.eqb_spec (vid v) (vid r)) as [E|_];
        [elim (Hr1 (vid v) (in_map vid _ _ Hv) E)|reflexivity]. }
    rewrite EC1, EB0, HmemB, HtrB, Hmem.
    split; [now rewrite <- app_assoc|].
    split.
    + intros i Hi.
      destruct (Nat.eqb_spec i (vid r')) as [E|_].
      { elim Hi. rewrite E.
        apply in_or_app. right. apply in_or_app. right. right. now left. }
      destruct (Nat.eqb_spec i (vid r)) as [E|_].
      { elim Hi. rewrite E.
        apply in_or_app. right. apply in_or_app. right. now left. }
      rewrite HenvB.
      * apply Henv, Hi.
      * intros H. apply Hi, in_or_app. now left.
      * intros H. apply Hi, in_or_app. right. apply in_or_app. now left.
    + intros b c Hb.
      destruct (Nat.eqb_spec b (vid dest)); [contradiction|].
      cbn [andb]. now apply Hmem'.
  - (* load, store *)
    rewrite !execs_cons, execs_nil. cbn [exec].
    unfold doStore, doLoad, getValue. cbn [trace env mem].
    rewrite Nat.eqb_refl.
    assert (EC1 : map (fun v => if Nat.eqb (vid v) (vid r) then
                        mem mB (vid source)
                          (map (fun v0 => env mB (vid v0)) lc0)
                      else env mB (vid v)) lc1 = z1).
    { etransitivity; [|exact EB1]. apply map_ext_in. intros v Hv.
      destruct (Nat.eqb_spec (vid v) (vid r)) as [E|_];
        [elim (Hr1 (vid v) (in_map vid _ _ Hv) E)|reflexivity]. }
    rewrite EC1, EB0, HmemB, HtrB, Hmem.
    split; [now rewrite <- app_assoc|].
    split.
    + intros i Hi.
      destruct (Nat.eqb_spec i (vid r)) as [E|_].
      { elim Hi. rewrite E.
        apply in_or_app. right. apply in_or_app. right. now left. }
      rewrite HenvB.
      * apply Henv, Hi.
      * intros H. apply Hi, in_or_app. now left.
      * intros H. apply Hi, in_or_app. right. apply in_or_app. now left.
    + intros b c Hb.
      destruct (Nat.eqb_spec b (vid dest)); [contradiction|].
      cbn [andb]. now apply Hmem'.
Qed.

Lemma copy_loop_elements (idxs : list (list Z)) (m1 : Machine) :
  (forall idx, In idx idxs ->
     List.length (lower ch0 (zipAdd (map (getValue m1) st0) idx)) =
       List.length lc0 /\
     List.length (lower ch1 (zipAdd (map (getValue m1) st1) idx)) =
       List.length lc1) ->
  forall m, sameOut m m1 ->
  let m' := fold_left
              (fun m' idx =>
                 runs (copyBody source dest r conv lc0 lc1)
                   (bind [lc0; lc1] [st0; st1] [ch0; ch1] idx m' m'))
              idxs m in
  trace m' = trace m ++ flat_map (events m1) idxs
  /\ sameOut m' m1.
Proof.
  induction idxs as [|idx idxs IH]; intros Hlen m Hm.
  - cbn. rewrite app_nil_r. now split.
  - cbn [fold_left flat_map].
    destruct (Hlen idx (or_introl eq_refl)) as [Hl0 Hl1].
    destruct (copy_iteration m1 m idx Hm Hl0 Hl1) as [Ht Ha].
    destruct (IH (fun i Hi => Hlen i (or_intror Hi)) _ Ha) as [Ht' Ha'].
    split; [|exact Ha'].
    rewrite Ht', Ht, <- !app_assoc. reflexivity.
Qed.

End OneLoop.

Lemma map_vid_valuesFrom (ts : list Ty) :
  forall base, map vid (valuesFrom base ts) = seq base (List.length ts).
Proof.
  induction ts as [|t ts IH]; intros base; simpl; [reflexivity|].
  now rewrite IH.
Qed.

Lemma length_valuesFrom (ts : list Ty) :
  forall base, List.length (valuesFrom base ts) = List.length ts.
Proof.
  induction ts as [|t ts IH]; intros base; simpl; [reflexivity|].
  now rewrite IH.
Qed.

(** One run of a copy loop of the lowering. *)
Lemma exec_copyLoop (base : nat) (source dest : Value)
  (sourceElement elementType : Ty) (rank : nat) (st0 st1 : list Value)
  (chain : list TransformMapAttr) (view : TransformMapAttr)
  (bounds : list Z) (m1 : Machine) :
  (forall v, In v (st0 ++ st1) -> (vid v < base)%nat) ->
  vid source <> vid dest ->
  (forall idx, In idx (box bounds []) ->
     List.length (lower chain (zipAdd (map (getValue m1) st0) idx)) =
       rank /\
     List.length (applyTransform view (zipAdd (map (getValue m1) st1) idx)) =
       1%nat) ->
  let m' := run1 (copyLoop base source dest sourceElement elementType rank
                    st0 st1 chain view bounds) m1 in
  trace m' =
    trace m1 ++
    copyEvents applyTransform convert source dest sourceElement elementType
      chain view (map (getValue m1) st0) (map (getValue m1) st1) (mem m1)
      (box bounds [])
  /\ (forall i, (i < base)%nat -> env m' i = env m1 i)
  /\ (forall b c, b <> vid dest -> mem m' b c = mem m1 b c).
Proof.
  intros Hold Hsd Hlen. unfold copyLoop. cbv zeta.
  rewrite exec_TransformingForOp.
  set (lc0 := valuesFrom base (repeat IndexType rank)).
  set (n1 := (base + List.length (repeat IndexType rank))%nat).
  set (r := mkValue (S n1) sourceElement).
  set (conv := if Ty_eqb sourceElement elementType then None
               else Some (mkValue (S (S n1)) elementType)).
  assert (Hdefs : exists len, copyDefs r conv lc0 [mkValue n1 IndexType] =
                              seq base len).
  { unfold copyDefs, conv, lc0, r.
    destruct (Ty_eqb sourceElement elementType).
    - exists (List.length (repeat IndexType rank) + 2)%nat.
      rewrite map_app, map_vid_valuesFrom, seq_app. reflexivity.
    - exists (List.length (repeat IndexType rank) + 3)%nat.
      rewrite map_app, map_vid_valuesFrom, seq_app. reflexivity. }
  destruct Hdefs as (len & Hdefs).
  destruct (copy_loop_elements source dest r conv lc0 [mkValue n1 IndexType]
              st0 st1 chain [view]) with (idxs := box bounds [])
              (m1 := m1) (m := m1) as [Ht [He Hm]].
  - rewrite Hdefs. apply seq_NoDup.
  - intros v Hv. rewrite Hdefs, in_seq. specialize (Hold v Hv). lia.
  - exact Hsd.
  - intros idx Hidx. destruct (Hlen idx Hidx) as [H0 H1].
    split.
    + rewrite H0. unfold lc0.
      now rewrite length_valuesFrom, repeat_length.
    + exact H1.
  - split; intros; reflexivity.
  - split; [|split].
    + rewrite Ht. f_equal. unfold copyEvents.
      apply flat_map_ext. intros idx. unfold iterationEvents, converted, conv.
      destruct (Ty_eqb sourceElement elementType); reflexivity.
    + intros i Hi. apply He. rewrite Hdefs, in_seq. lia.
    + exact Hm.
Qed.

Lemma count_copyEvents (source dest : Value) (sourceElement elementType : Ty)
  (chain : list TransformMapAttr) (view : TransformMapAttr)
  (start regStart : list Z) (memory : nat -> list Z -> Z)
  (idxs : list (list Z)) :
  let t := copyEvents applyTransform convert source dest sourceElement
             elementType chain view start regStart memory idxs in
  countLoads (vid source) t = List.length idxs
  /\ countStores (vid dest) t = List.length idxs
  /\ List.length t = (2 * List.length idxs)%nat.
Proof.
  unfold copyEvents, countLoads, countStores.
  induction idxs as [|idx idxs IH]; [now cbn|].
  cbn [flat_map app filter isLoadFrom isStoreTo List.length].
  rewrite !Nat.eqb_refl. cbn [List.length].
  destruct IH as (-> & -> & ->). repeat split; lia.
Qed.

(** The coordinates below a chain of maps: as many as the last map gives. *)
Lemma length_lowerCoordsOf (chain : list TransformMapAttr) (upper : list Z) :
  (forall t c, In t chain ->
     List.length (applyTransform t c) = lowerRank t) ->
  List.length (lower chain upper) =
  match rev chain with
  | [] => List.length upper
  | t :: _ => lowerRank t
  end.
Proof.
  unfold lowerCoordsOf.
  destruct chain as [|t chain _] using rev_ind; intros H; [reflexivity|].
  rewrite rev_app_distr, fold_left_app. cbn.
  apply H, in_or_app. right. now left.
Qed.

End CopyLoopElements.

Section BlockwiseGemmElements.

Import BlockwiseGemmRewritePattern.

Variable untransform :
  Value -> list TransformMapAttr -> Value * list TransformMapAttr.
Variables (op : BlockwiseGemmOp) (adaptor : BlockwiseGemmOpAdaptor).
Variable n0 : nat.
Variables (k m n kPack kB kPackB mC nC : Z).
Variables (elementTypeA elementTypeB elementType : Ty).
Variables (spaceA spaceB spaceC : Z).
Variables (shapeA shapeB : list Z) (sourceElementA sourceElementB : Ty).
Variables (sourceSpaceA sourceSpaceB : Z).

Hypothesis matrixA_type :
  vty (bg_matrixA (bg_operands op)) =
  MemRefType [k; m; kPack] elementTypeA spaceA.
Hypothesis matrixB_type :
  vty (bg_matrixB (bg_operands op)) =
  MemRefType [kB; n; kPackB] elementTypeB spaceB.
Hypothesis matrixC_type :
  vty (bg_matrixC (bg_operands op)) = MemRefType [mC; nC] elementType spaceC.

Let kPerThread := kPerThreadAttr op.
Let mPerThread := mPerThreadAttr op.
Let nPerThread := nPerThreadAttr op.
Let mRepeat := int64 (Z.quot mC mPerThread).
Let nRepeat := int64 (Z.quot nC nPerThread).

Hypothesis mPerThread_nonzero : mPerThread <> 0.
Hypothesis nPerThread_nonzero : nPerThread <> 0.
Hypothesis mRepeat_nonzero : mRepeat <> 0.
Hypothesis nRepeat_nonzero : nRepeat <> 0.

Let strideA :=
  mkTransformMap TopDown ["k"; "mRepeat"; "mPerThread"; "kpack"]
    [k; mRepeat; int64 (Z.quot m mRepeat); kPack]
    [passThrough "k";
     embed "m" 1 m ["mRepeat"; "mPerThread"] [mRepeatStrideAttr op; 1];
     passThroughTo ["kpack"] [2%nat] ["kpack"]].
Let strideB :=
  mkTransformMap TopDown ["k"; "nRepeat"; "nPerThread"; "kpack"]
    [k; nRepeat; int64 (Z.quot n nRepeat); kPack]
    [passThrough "k";
     embed "n" 1 n ["nRepeat"; "nPerThread"] [nRepeatStrideAttr op; 1];
     passThroughTo ["kpack"] [2%nat] ["kpack"]].
Let viewA :=
  mkTransformMap BottomUp ["raw"]
    [int64_mul (int64_mul kPerThread mC) kPack]
    [unmerge ["k"; "mRepeat"; "mPerThread"; "kpack"] [0; 1; 2; 3]%nat "raw"
       [kPerThread; mRepeat; mPerThread; kPack]].
Let viewB :=
  mkTransformMap BottomUp ["raw"]
    [int64_mul (int64_mul kPerThread nC) kPack]
    [unmerge ["k"; "nRepeat"; "nPerThread"; "kpack"] [0; 1; 2; 3]%nat "raw"
       [kPerThread; nRepeat; nPerThread; kPack]].

Let sourceA := fst (untransform (bg_matrixA adaptor) [strideA]).
Let chainA := snd (untransform (bg_matrixA adaptor) [strideA]).
Let sourceB := fst (untransform (bg_matrixB adaptor) [strideB]).
Let chainB := snd (untransform (bg_matrixB adaptor) [strideB]).

Hypothesis sourceA_type :
  vty sourceA = MemRefType shapeA sourceElementA sourceSpaceA.
Hypothesis sourceB_type :
  vty sourceB = MemRefType shapeB sourceElementB sourceSpaceB.

(** What the pattern creates, value by value. *)
Lemma gemm_run_elements :
  let zero := mkValue n0 IndexType in
  let threadA :=
    mkValue (1 + n0)
      (MemRefType [int64_mul (int64_mul kPerThread mC) kPack] elementType
         getPrivateAddressSpace) in
  let threadB :=
    mkValue (2 + n0)
      (MemRefType [int64_mul (int64_mul kPerThread nC) kPack] elementType
         getPrivateAddressSpace) in
  let iv := mkValue (3 + n0) IndexType in
  let rankA := match rev chainA with
               | [] => 4%nat
               | t :: _ => lowerRank t
               end in
  let rankB := match rev chainB with
               | [] => 4%nat
               | t :: _ => lowerRank t
               end in
  let baseB := copyLoopNext (4 + n0) sourceElementA elementType rankA in
  exists (next : nat) (rA rB : Value) (mapA mapB : TransformMapAttr),
    matchAndRewrite untransform op adaptor (initState n0) =
    Ok (success,
        mkRewriterState next
          [ConstantIndexOp zero 0; GpuAllocOp threadA; GpuAllocOp threadB;
           AffineForOp iv 0 k kPerThread
             [copyLoop (4 + n0) sourceA threadA sourceElementA elementType
                rankA [iv; zero; bg_threadOffsetA (bg_operands op); zero]
                [zero; zero; zero; zero] chainA viewA
                [kPerThread; mRepeat; mPerThread; kPack];
              copyLoop baseB sourceB threadB sourceElementB elementType
                rankB [iv; zero; bg_threadOffsetB (bg_operands op); zero]
                [zero; zero; zero; zero] chainB viewB
                [kPerThread; nRepeat; nPerThread; kPack];
              TransformOp rA threadA mapA; TransformOp rB threadB mapB;
              ThreadwiseGemmOp rA rB (bg_matrixC (bg_operands op))]]
          (Some [])).
Proof.
  cbv zeta. unfold copyLoop, copyLoopNext. cbv zeta.
  unfold sourceA, chainA, sourceB, chainB in *.
  destruct (untransform (bg_matrixA adaptor) [strideA])
    as [matrixA transformsA] eqn:UA.
  destruct (untransform (bg_matrixB adaptor) [strideB])
    as [matrixB transformsB] eqn:UB.
  cbn [fst snd] in *.
  destruct (Ty_eqb sourceElementA elementType) eqn:EA;
    destruct (Ty_eqb sourceElementB elementType) eqn:EB.
  all: do 5 eexists.
  all: unfold matchAndRewrite;
       rewrite matrixA_type, matrixB_type, matrixC_type;
       fold kPerThread mPerThread nPerThread; run.
Qed.

End BlockwiseGemmElements.

Lemma length_zipAdd (a : list Z) :
  forall b, List.length a = List.length b ->
            List.length (zipAdd a b) = List.length a.
Proof.
  induction a as [|x a IH]; intros [|y b] H; simpl in *;
    try reflexivity; try discriminate.
  now rewrite IH by lia.
Qed.

Lemma length_in_box (bounds idx : list Z) :
  In idx (box bounds []) -> List.length idx = List.length bounds.
Proof.
  intros H. apply In_box in H. exact (Forall2_length H).
Qed.

Lemma copyLoopNext_ge (base : nat) (a b : Ty) (rank : nat) :
  (base <= copyLoopNext base a b rank)%nat.
Proof. unfold copyLoopNext. destruct (Ty_eqb a b); lia. Qed.

Lemma copyEvents_memory applyTransform convert source dest a b chain view
  start regStart (memory memory' : nat -> list Z -> Z) idxs :
  (forall c, memory (vid source) c = memory' (vid source) c) ->
  copyEvents applyTransform convert source dest a b chain view start regStart
    memory idxs =
  copyEvents applyTransform convert source dest a b chain view start regStart
    memory' idxs.
Proof.
  intros H. unfold copyEvents. apply flat_map_ext. intros idx.
  cbv zeta. now rewrite H.
Qed.

(** Two digits of a mixed-radix number. *)
Lemma radix_inj (base x y x' y' : Z) :
  0 <= y < base -> 0 <= y' < base ->
  x * base + y = x' * base + y' -> x = x' /\ y = y'.
Proof.
  intros Hy Hy' E.
  assert (x = x') by nia. subst x'. split; [reflexivity|lia].
Qed.

(** The row-major position of an index tuple of a four-dimensional shape
    identifies the tuple, and lies within the shape. *)
Lemma rowMajor4 (f : list Z -> list Z) (K R P Q : Z) :
  (forall a b c d, f [a; b; c; d] = [((a * R + b) * P + c) * Q + d]) ->
  let cells := map (fun idx => f (zipAdd [0; 0; 0; 0] idx))
                   (box [K; R; P; Q] []) in
  NoDup cells
  /\ forall cell, In cell cells ->
       exists raw, cell = [raw] /\ 0 <= raw < K * R * P * Q.
Proof.
  intros Hf cells.
  assert (Hshape : forall idx, In idx (box [K; R; P; Q] []) ->
            exists a b c d, idx = [a; b; c; d] /\ 0 <= a < K /\ 0 <= b < R
                            /\ 0 <= c < P /\ 0 <= d < Q).
  { intros idx H. apply In_box in H. unfold inShape in H.
    inversion H as [|a ? idx1 ? Ha H1]; subst.
    inversion H1 as [|b ? idx2 ? Hb H2]; subst.
    inversion H2 as [|c ? idx3 ? Hc H3]; subst.
    inversion H3 as [|d ? idx4 ? Hd H4]; subst.
    inversion H4; subst. now exists a, b, c, d. }
  split.
  - apply NoDup_map_NoDup_ForallPairs; [|apply NoDup_box].
    intros i j Hi Hj E.
    destruct (Hshape i Hi) as (a & b & c & d & -> & Ha & Hb & Hc & Hd).
    destruct (Hshape j Hj) as (a' & b' & c' & d' & -> & Ha' & Hb' & Hc' & Hd').
    cbn [zipAdd] in E. rewrite !Hf, !Z.add_0_l in E.
    injection E as E.
    apply radix_inj in E; [|assumption|assumption]. destruct E as [E ->].
    apply radix_inj in E; [|assumption|assumption]. destruct E as [E ->].
    apply radix_inj in E; [|assumption|assumption]. destruct E as [-> ->].
    reflexivity.
  - intros cell H. apply in_map_iff in H. destruct H as (idx & <- & Hidx).
    destruct (Hshape idx Hidx) as (a & b & c & d & -> & Ha & Hb & Hc & Hd).
    cbn [zipAdd]. rewrite Hf, !Z.add_0_l. eexists. split; [reflexivity|].
    assert (0 <= a * R + b < K * R) by nia.
    assert (0 <= (a * R + b) * P + c < K * R * P) by nia.
    nia.
Qed.

(** C4: when the tile of C divides evenly, the body of the generated loop
    over K starts with the two copy loops.  One run of the first visits the
    index tuples of [kPerThread x mRepeat x mPerThread x kPack] once each;
    at each it loads the element of the buffer under the view of A at the
    coordinates the chain of maps ([k], [mRepeat * stride + mPerThread],
    [kpack], then the view's own) gives for
    [(kOffset, 0, threadOffsetA, 0) + idx], and stores it, converted to the
    element type of C, to the register buffer of A at the coordinates its
    [unmerge] view gives for [idx]; that is [kPerThread * mC * kPack] loads
    and as many stores, as many elements as the register buffer has, and
    under the row-major reading of [unmerge] every element of it is written
    once.  Likewise the second for B. *)
Theorem copy_loops_read_and_write_the_same_count
  (untransform : Value -> list TransformMapAttr ->
                 Value * list TransformMapAttr)
  (indexBitwidth workitemId : Z)
  (applyTransform : TransformMapAttr -> list Z -> list Z)
  (convert : Ty -> Ty -> Z -> Z)
  (op : BlockwiseGemmOp) (adaptor : BlockwiseGemmOpAdaptor) (n0 : nat)
  (k m n kPack kB kPackB mC nC : Z)
  (elementTypeA elementTypeB elementType : Ty) (spaceA spaceB spaceC : Z)
  (shapeA shapeB : list Z) (sourceElementA sourceElementB : Ty)
  (sourceSpaceA sourceSpaceB : Z) :
  let kPerThread := kPerThreadAttr op in
  let mPerThread := mPerThreadAttr op in
  let nPerThread := nPerThreadAttr op in
  let mRepeat := Z.quot mC mPerThread in
  let nRepeat := Z.quot nC nPerThread in
  let strideA :=
    mkTransformMap TopDown ["k"; "mRepeat"; "mPerThread"; "kpack"]
      [k; mRepeat; int64 (Z.quot m mRepeat); kPack]
      [passThrough "k";
       embed "m" 1 m ["mRepeat"; "mPerThread"] [mRepeatStrideAttr op; 1];
       passThroughTo ["kpack"] [2%nat] ["kpack"]] in
  let strideB :=
    mkTransformMap TopDown ["k"; "nRepeat"; "nPerThread"; "kpack"]
      [k; nRepeat; int64 (Z.quot n nRepeat); kPack]
      [passThrough "k";
       embed "n" 1 n ["nRepeat"; "nPerThread"] [nRepeatStrideAttr op; 1];
       passThroughTo ["kpack"] [2%nat] ["kpack"]] in
  let viewA :=
    mkTransformMap BottomUp ["raw"]
      [int64_mul (int64_mul kPerThread mC) kPack]
      [unmerge ["k"; "mRepeat"; "mPerThread"; "kpack"] [0; 1; 2; 3]%nat "raw"
         [kPerThread; mRepeat; mPerThread; kPack]] in
  let viewB :=
    mkTransformMap BottomUp ["raw"]
      [int64_mul (int64_mul kPerThread nC) kPack]
      [unmerge ["k"; "nRepeat"; "nPerThread"; "kpack"] [0; 1; 2; 3]%nat "raw"
         [kPerThread; nRepeat; nPerThread; kPack]] in
  let sourceA := fst (untransform (bg_matrixA adaptor) [strideA]) in
  let chainA := snd (untransform (bg_matrixA adaptor) [strideA]) in
  let sourceB := fst (untransform (bg_matrixB adaptor) [strideB]) in
  let chainB := snd (untransform (bg_matrixB adaptor) [strideB]) in
  let zero := mkValue n0 IndexType in
  let threadA :=
    mkValue (1 + n0)
      (MemRefType [int64_mul (int64_mul kPerThread mC) kPack] elementType
         getPrivateAddressSpace) in
  let threadB :=
    mkValue (2 + n0)
      (MemRefType [int64_mul (int64_mul kPerThread nC) kPack] elementType
         getPrivateAddressSpace) in
  let kOffset := mkValue (3 + n0) IndexType in
  let boxA := box [kPerThread; mRepeat; mPerThread; kPack] [] in
  let boxB := box [kPerThread; nRepeat; nPerThread; kPack] [] in
  let eventsA (m1 : Machine) :=
    copyEvents applyTransform convert sourceA threadA sourceElementA
      elementType chainA viewA
      (map (getValue m1)
         [kOffset; zero; bg_threadOffsetA (bg_operands op); zero])
      (map (getValue m1) [zero; zero; zero; zero]) (mem m1) boxA in
  let eventsB (m1 : Machine) :=
    copyEvents applyTransform convert sourceB threadB sourceElementB
      elementType chainB viewB
      (map (getValue m1)
         [kOffset; zero; bg_threadOffsetB (bg_operands op); zero])
      (map (getValue m1) [zero; zero; zero; zero]) (mem m1) boxB in
  vty (bg_matrixA (bg_operands op)) =
    MemRefType [k; m; kPack] elementTypeA spaceA ->
  vty (bg_matrixB (bg_operands op)) =
    MemRefType [kB; n; kPackB] elementTypeB spaceB ->
  vty (bg_matrixC (bg_operands op)) = MemRefType [mC; nC] elementType spaceC ->
  vty sourceA = MemRefType shapeA sourceElementA sourceSpaceA ->
  vty sourceB = MemRefType shapeB sourceElementB sourceSpaceB ->
  (vid sourceA < n0)%nat -> (vid sourceB < n0)%nat ->
  (vid (bg_threadOffsetA (bg_operands op)) < n0)%nat ->
  (vid (bg_threadOffsetB (bg_operands op)) < n0)%nat ->
  (forall t c, In t (viewA :: chainA) ->
     List.length (applyTransform t c) = lowerRank t) ->
  (forall t c, In t (viewB :: chainB) ->
     List.length (applyTransform t c) = lowerRank t) ->
  0 < mPerThread -> 0 < nPerThread ->
  0 < mC -> 0 < nC -> in_int64 mC -> in_int64 nC ->
  Z.rem mC mPerThread = 0 -> Z.rem nC nPerThread = 0 ->
  0 <= kPerThread -> 0 <= kPack ->
  exists next copyALoop copyBLoop viewOfA viewOfB mapA mapB,
    BlockwiseGemmRewritePattern.matchAndRewrite untransform op adaptor
      (initState n0) =
    Ok (success,
        mkRewriterState next
          [ConstantIndexOp zero 0; GpuAllocOp threadA; GpuAllocOp threadB;
           AffineForOp kOffset 0 k kPerThread
             [copyALoop; copyBLoop;
              TransformOp viewOfA threadA mapA;
              TransformOp viewOfB threadB mapB;
              ThreadwiseGemmOp viewOfA viewOfB
                (bg_matrixC (bg_operands op))]]
          (Some []))
    /\ (forall m1,
          trace (exec indexBitwidth workitemId applyTransform convert
                   copyALoop m1) = trace m1 ++ eventsA m1)
    /\ (forall m1,
          trace (exec indexBitwidth workitemId applyTransform convert
                   copyBLoop m1) = trace m1 ++ eventsB m1)
    /\ (forall m1,
          trace (execs indexBitwidth workitemId applyTransform convert
                   [copyALoop; copyBLoop] m1) =
          trace m1 ++ eventsA m1 ++ eventsB m1)
    /\ (forall m1,
          Z.of_nat (countLoads (vid sourceA) (eventsA m1)) =
            kPerThread * mRepeat * mPerThread * kPack
          /\ Z.of_nat (countStores (vid threadA) (eventsA m1)) =
             kPerThread * mRepeat * mPerThread * kPack
          /\ Z.of_nat (List.length (eventsA m1)) =
             2 * (kPerThread * mRepeat * mPerThread * kPack))
    /\ (forall m1,
          Z.of_nat (countLoads (vid sourceB) (eventsB m1)) =
            kPerThread * nRepeat * nPerThread * kPack
          /\ Z.of_nat (countStores (vid threadB) (eventsB m1)) =
             kPerThread * nRepeat * nPerThread * kPack
          /\ Z.of_nat (List.length (eventsB m1)) =
             2 * (kPerThread * nRepeat * nPerThread * kPack))
    /\ NoDup boxA /\ NoDup boxB
    /\ kPerThread * mRepeat * mPerThread * kPack = kPerThread * mC * kPack
    /\ kPerThread * nRepeat * nPerThread * kPack = kPerThread * nC * kPack
    /\ ((forall a b c d,
           applyTransform viewA [a; b; c; d] =
           [((a * mRepeat + b) * mPerThread + c) * kPack + d]) ->
        let cells := map (fun idx =>
                            applyTransform viewA (zipAdd [0; 0; 0; 0] idx))
                       boxA in
        NoDup cells
        /\ forall cell, In cell cells ->
             exists raw, cell = [raw] /\ 0 <= raw < kPerThread * mC * kPack)
    /\ ((forall a b c d,
           applyTransform viewB [a; b; c; d] =
           [((a * nRepeat + b) * nPerThread + c) * kPack + d]) ->
        let cells := map (fun idx =>
                            applyTransform viewB (zipAdd [0; 0; 0; 0] idx))
                       boxB in
        NoDup cells
        /\ forall cell, In cell cells ->
             exists raw, cell = [raw] /\ 0 <= raw < kPerThread * nC * kPack).
Proof.
  intros kPerThread mPerThread nPerThread mRepeat nRepeat strideA strideB
         viewA viewB sourceA chainA sourceB chainB zero threadA threadB
         kOffset boxA boxB eventsA eventsB
         HA HB HC HsA HsB HidA HidB HoA HoB HlenA HlenB Hmp Hnp HmC HnC HmR
         HnR Hmrem Hnrem Hk Hkp.
  destruct (exact_repeat mC mPerThread Hmp HmC HmR Hmrem) as (Em & Hm0 & HmE).
  destruct (exact_repeat nC nPerThread Hnp HnC HnR Hnrem) as (En & Hn0 & HnE).
  fold mRepeat in Em, Hm0, HmE. fold nRepeat in En, Hn0, HnE.
  destruct (gemm_run_elements untransform op adaptor n0 k m n kPack kB kPackB
              mC nC elementTypeA elementTypeB elementType spaceA spaceB
              spaceC shapeA shapeB sourceElementA sourceElementB sourceSpaceA
              sourceSpaceB HA HB HC)
    as (next & rA & rB & mapA & mapB & Hrun).
  1-2: fold mPerThread nPerThread; lia.
  1-2: fold mPerThread nPerThread mRepeat nRepeat; lia.
  1-2: fold kPerThread mPerThread nPerThread mRepeat nRepeat;
       rewrite ?Em, ?En; assumption.
  fold kPerThread mPerThread nPerThread mRepeat nRepeat in Hrun.
  rewrite !Em, !En in Hrun.
  fold strideA strideB viewA viewB in Hrun.
  fold sourceA chainA sourceB chainB in Hrun.
  fold zero threadA threadB kOffset in Hrun.
  set (rankA := match rev chainA with [] => 4%nat | t :: _ => lowerRank t end)
    in Hrun.
  set (rankB := match rev chainB with [] => 4%nat | t :: _ => lowerRank t end)
    in Hrun.
  set (baseB := copyLoopNext (4 + n0) sourceElementA elementType rankA)
    in Hrun.
  assert (HbaseB : (4 + n0 <= baseB)%nat) by apply copyLoopNext_ge.
  set (stA := [kOffset; zero; bg_threadOffsetA (bg_operands op); zero]) in *.
  set (stB := [kOffset; zero; bg_threadOffsetB (bg_operands op); zero]) in *.
  set (st1 := [zero; zero; zero; zero]) in *.
  assert (HoldA : forall v, In v (stA ++ st1) -> (vid v < 4 + n0)%nat).
  { intros v Hv. cbn in Hv.
    repeat (destruct Hv as [<-|Hv]; [cbn; lia|]). elim Hv. }
  assert (HoldB : forall v, In v (stB ++ st1) -> (vid v < 4 + n0)%nat).
  { intros v Hv. cbn in Hv.
    repeat (destruct Hv as [<-|Hv]; [cbn; lia|]). elim Hv. }
  assert (HsdA : vid sourceA <> vid threadA) by (cbn; lia).
  assert (HsdB : vid sourceB <> vid threadB) by (cbn; lia).
  assert (HLA : forall m1 idx, In idx boxA ->
            List.length (lowerCoordsOf applyTransform chainA
                           (zipAdd (map (getValue m1) stA) idx)) = rankA
            /\ List.length (applyTransform viewA
                              (zipAdd (map (getValue m1) st1) idx)) = 1%nat).
  { intros m1 idx Hidx. split.
    - rewrite length_lowerCoordsOf
        by (intros t c Ht; apply HlenA; now right).
      unfold rankA. destruct (rev chainA); [|reflexivity].
      apply length_in_box in Hidx.
      rewrite length_zipAdd; rewrite length_map; [reflexivity|].
      now rewrite Hidx.
    - now rewrite HlenA by now left. }
  assert (HLB : forall m1 idx, In idx boxB ->
            List.length (lowerCoordsOf applyTransform chainB
                           (zipAdd (map (getValue m1) stB) idx)) = rankB
            /\ List.length (applyTransform viewB
                              (zipAdd (map (getValue m1) st1) idx)) = 1%nat).
  { intros m1 idx Hidx. split.
    - rewrite length_lowerCoordsOf
        by (intros t c Ht; apply HlenB; now right).
      unfold rankB. destruct (rev chainB); [|reflexivity].
      apply length_in_box in Hidx.
      rewrite length_zipAdd; rewrite length_map; [reflexivity|].
      now rewrite Hidx.
    - now rewrite HlenB by now left. }
  pose proof (fun m1 =>
    exec_copyLoop indexBitwidth workitemId applyTransform convert (4 + n0)
      sourceA threadA sourceElementA elementType rankA stA st1 chainA viewA
      [kPerThread; mRepeat; mPerThread; kPack] m1 HoldA HsdA (HLA m1))
    as HrunA.
  pose proof (fun m1 =>
    exec_copyLoop indexBitwidth workitemId applyTransform convert baseB
      sourceB threadB sourceElementB elementType rankB stB st1 chainB viewB
      [kPerThread; nRepeat; nPerThread; kPack] m1
      (fun v Hv => Nat.lt_le_trans _ _ _ (HoldB v Hv) HbaseB) HsdB (HLB m1))
    as HrunB.
  cbv zeta in HrunA, HrunB.
  do 7 eexists. split; [exact Hrun|].
  split; [intros m1; apply (HrunA m1)|].
  split; [intros m1; apply (HrunB m1)|].
  split.
  { intros m1. rewrite execs_cons, execs_cons, execs_nil.
    destruct (HrunA m1) as (HtA & HeA & HmA).
    match type of HtA with trace ?x = _ => set (mA := x) in * end.
    destruct (HrunB mA) as (HtB & _ & _).
    rewrite HtB, HtA, <- app_assoc. f_equal. f_equal.
    unfold eventsB.
    assert (EstB : map (getValue mA) stB = map (getValue m1) stB).
    { apply map_ext_in. intros v Hv. unfold getValue. apply HeA, HoldB.
      apply in_or_app. now left. }
    assert (Est1 : map (getValue mA) st1 = map (getValue m1) st1).
    { apply map_ext_in. intros v Hv. unfold getValue. apply HeA, HoldB.
      apply in_or_app. now right. }
    rewrite EstB, Est1. apply copyEvents_memory.
    intros c. apply HmA. cbn. lia. }
  split.
  { intros m1.
    destruct (count_copyEvents applyTransform convert sourceA threadA
                sourceElementA elementType chainA viewA
                (map (getValue m1) stA) (map (getValue m1) st1) (mem m1) boxA)
      as (Hl & Hs & Hn).
    fold (eventsA m1) in Hl, Hs, Hn. rewrite Hl, Hs, Hn.
    rewrite Nat2Z.inj_mul. unfold boxA. rewrite length_box4 by lia.
    repeat split; lia. }
  split.
  { intros m1.
    destruct (count_copyEvents applyTransform convert sourceB threadB
                sourceElementB elementType chainB viewB
                (map (getValue m1) stB) (map (getValue m1) st1) (mem m1) boxB)
      as (Hl & Hs & Hn).
    fold (eventsB m1) in Hl, Hs, Hn. rewrite Hl, Hs, Hn.
    rewrite Nat2Z.inj_mul. unfold boxB. rewrite length_box4 by lia.
    repeat split; lia. }
  split; [apply NoDup_box|]. split; [apply NoDup_box|].
  split; [rewrite HmE at 1; ring|]. split; [rewrite HnE at 1; ring|].
  split.
  - intros Hf.
    replace (kPerThread * mC * kPack)
      with (kPerThread * mRepeat * mPerThread * kPack)
      by (rewrite HmE at 1; ring).
    exact (rowMajor4 (applyTransform viewA) _ _ _ _ Hf).
  - intros Hf.
    replace (kPerThread * nC * kPack)
      with (kPerThread * nRepeat * nPerThread * kPack)
      by (rewrite HnE at 1; ring).
    exact (rowMajor4 (applyTransform viewB) _ _ _ _ Hf).
Qed.

Lemma in_int64_4 : in_int64 4.
Proof. split; [apply Z.leb_le | apply Z.ltb_lt]; reflexivity. Qed.

Lemma copy_loops_read_and_write_the_same_count_witness :
  exists next copyALoop copyBLoop viewOfA viewOfB mapA mapB,
    BlockwiseGemmRewritePattern.matchAndRewrite untransformNothing
      gemmExample (bg_operands gemmExample) (initState 5) =
    Ok (success,
        mkRewriterState next
          [ConstantIndexOp (mkValue 5 IndexType) 0;
           GpuAllocOp (mkValue 6 (MemRefType [8] F32 getPrivateAddressSpace));
           GpuAllocOp (mkValue 7 (MemRefType [8] F32 getPrivateAddressSpace));
           AffineForOp (mkValue 8 IndexType) 0 8 2
             [copyALoop; copyBLoop;
              TransformOp viewOfA
                (mkValue 6 (MemRefType [8] F32 getPrivateAddressSpace)) mapA;
              TransformOp viewOfB
                (mkValue 7 (MemRefType [8] F32 getPrivateAddressSpace)) mapB;
              ThreadwiseGemmOp viewOfA viewOfB
                (bg_matrixC (bg_operands gemmExample))]]
          (Some []))
    /\ (forall m1,
          trace (exec 64 0 applyExample (fun _ _ z => z) copyALoop m1) =
          trace m1 ++
          copyEvents applyExample (fun _ _ z => z)
            (mkValue 0 (MemRefType [8; 128; 1] F16 3))
            (mkValue 6 (MemRefType [8] F32 getPrivateAddressSpace)) F16 F32
            [mkTransformMap TopDown ["k"; "mRepeat"; "mPerThread"; "kpack"]
               [8; 2; 64; 1]
               [passThrough "k";
                embed "m" 1 128 ["mRepeat"; "mPerThread"] [64; 1];
                passThroughTo ["kpack"] [2%nat] ["kpack"]]]
            (mkTransformMap BottomUp ["raw"] [8]
               [unmerge ["k"; "mRepeat"; "mPerThread"; "kpack"]
                  [0; 1; 2; 3]%nat "raw" [2; 2; 2; 1]])
            (map (getValue m1)
               [mkValue 8 IndexType; mkValue 5 IndexType;
                mkValue 3 IndexType; mkValue 5 IndexType])
            (map (getValue m1)
               [mkValue 5 IndexType; mkValue 5 IndexType;
                mkValue 5 IndexType; mkValue 5 IndexType])
            (mem m1) (box [2; 2; 2; 1] []))
    /\ NoDup (box [2; 2; 2; 1] [])
    /\ 2 * 2 * 2 * 1 = 2 * 4 * 1
    /\ NoDup
         (map (fun idx =>
                 applyExample
                   (mkTransformMap BottomUp ["raw"] [8]
                      [unmerge ["k"; "mRepeat"; "mPerThread"; "kpack"]
                         [0; 1; 2; 3]%nat "raw" [2; 2; 2; 1]])
                   (zipAdd [0; 0; 0; 0] idx))
              (box [2; 2; 2; 1] [])).
Proof.
  destruct (copy_loops_read_and_write_the_same_count untransformNothing 64 0 applyExample
              (fun _ _ z => z) gemmExample (bg_operands gemmExample) 5
              8 128 128 1 8 1 4 4 F16 F16 F32 3 3 5 [8; 128; 1] [8; 128; 1]
              F16 F16 3 3)
    as (next & copyALoop & copyBLoop & viewOfA & viewOfB & mapA & mapB
        & Hrun & HA & _ & _ & _ & _ & HndA & _ & HnA & _ & HcA & _).
  - reflexivity.
  - reflexivity.
  - reflexivity.
  - reflexivity.
  - reflexivity.
  - cbn. lia.
  - cbn. lia.
  - cbn. lia.
  - cbn. lia.
  - intros t c [<-|[<-|[]]];
      [reflexivity
      |destruct c as [|? [|? [|? [|? [|? ?]]]]]; reflexivity].
  - intros t c [<-|[<-|[]]];
      [reflexivity
      |destruct c as [|? [|? [|? [|? [|? ?]]]]]; reflexivity].
  - reflexivity.
  - reflexivity.
  - reflexivity.
  - reflexivity.
  - exact in_int64_4.
  - exact in_int64_4.
  - reflexivity.
  - reflexivity.
  - discriminate.
  - discriminate.
  - exists next, copyALoop, copyBLoop, viewOfA, viewOfB, mapA, mapB.
    split; [exact Hrun|]. split; [exact HA|]. split; [exact HndA|].
    split; [exact HnA|]. apply HcA.
    intros a b c d. reflexivity.
Defined.

(** ** BlockwiseGemmV2 *)

Lemma int64_0 : int64 0 = 0.
Proof. reflexivity. Qed.

Section BlockwiseGemmV2.

Import BlockwiseGemmV2RewritePattern.

Variable XdlopsCodeSelection_get : Ty -> Z -> Z -> option XdlopsCodeSelection.
Variables (op : BlockwiseGemmV2Op) (adaptor : BlockwiseGemmV2OpAdaptor).
Variable n0 : nat.
Variables (M N K MPerWave NPerWave KPack : Z) (tM tN tK tMW tNW : Ty).
Variable xcs : XdlopsCodeSelection.
Variables (shapeA shapeBufferA shapeBufferB : list Z).
Variables (dataType elementTypeA elementTypeB : Ty).
Variables (spaceA spaceBufferA spaceBufferB : Z).

Hypothesis attr_m : getAttr "m" (v2_attrs op) = Some (IntegerAttr tM M).
Hypothesis attr_n : getAttr "n" (v2_attrs op) = Some (IntegerAttr tN N).
Hypothesis attr_k : getAttr "k" (v2_attrs op) = Some (IntegerAttr tK K).
Hypothesis attr_m_per_wave :
  getAttr "m_per_wave" (v2_attrs op) = Some (IntegerAttr tMW MPerWave).
Hypothesis attr_n_per_wave :
  getAttr "n_per_wave" (v2_attrs op) = Some (IntegerAttr tNW NPerWave).
(** "kpack" is optional and stands for 1 when absent. *)
Hypothesis attr_kpack :
  (getAttr "kpack" (v2_attrs op) = None /\ KPack = 1) \/
  (exists t, getAttr "kpack" (v2_attrs op) = Some (IntegerAttr t KPack)).
Hypothesis KPack_nonzero : KPack <> 0.
Hypothesis aligned_A : Z.rem (ldsBufferOffsetA op) KPack = 0.
Hypothesis aligned_B : Z.rem (ldsBufferOffsetB op) KPack = 0.
Hypothesis matrixA_type :
  vty (v2_matrixA adaptor) = MemRefType shapeA dataType spaceA.
Hypothesis selected :
  XdlopsCodeSelection_get dataType MPerWave NPerWave = Some xcs.
Hypothesis kpack_fits :
  KPack <= 1 \/
  (k_base xcs <= KPack /\ k_base xcs <> 0 /\ Z.rem KPack (k_base xcs) = 0).
Hypothesis bufferA_type :
  vty (v2_bufferA adaptor) = MemRefType shapeBufferA elementTypeA spaceBufferA.
Hypothesis bufferB_type :
  vty (v2_bufferB adaptor) = MemRefType shapeBufferB elementTypeB spaceBufferB.

(** The values the prologue creates, numbered from [n0]. *)
Let index (i : nat) : Value := mkValue (i + n0) IndexType.
Let aBaseV : Value := mkValue (1 + n0) (vty (v2_waveOffsetA adaptor)).
Let bBaseV : Value := mkValue (3 + n0) (vty (v2_waveOffsetB adaptor)).

Lemma prologue_run :
  prologue XdlopsCodeSelection_get op adaptor (initState n0) =
  Ok (mkPrologue MPerWave NPerWave KPack xcs (KPerThread xcs K)
        elementTypeA elementTypeB
        (mkStaging aBaseV bBaseV (index 6) (index 7) (index 8) (index 9)
           (index 10) (index 11) (index 12) (index 13)),
      mkRewriterState (14 + n0)
        [ConstantIndexOp (index 0)
           (int64 (Z.quot (ldsBufferOffsetA op) KPack));
         AddIOp aBaseV (v2_waveOffsetA adaptor) (index 0);
         ConstantIndexOp (index 2)
           (int64 (Z.quot (ldsBufferOffsetB op) KPack));
         AddIOp bBaseV (v2_waveOffsetB adaptor) (index 2);
         WorkitemIdOp (index 4);
         ConstantIndexOp (index 5) waveSize;
         RemUIOp (index 6) (index 4) (index 5);
         ConstantIndexOp (index 7) M;
         ConstantIndexOp (index 8) N;
         ConstantIndexOp (index 9) K;
         ConstantIndexOp (index 10) (MPerXdlops MPerWave);
         ConstantIndexOp (index 11) (NPerXdlops NPerWave);
         ConstantIndexOp (index 12) 0;
         ConstantIndexOp (index 13) (KPerThread xcs K)]
        None).
Proof.
  assert (HKP : (if hasAttr "kpack" (v2_attrs op)
                 then getIntAttr (v2_attrs op) "kpack" else ret 1) =
                ret KPack).
  { unfold hasAttr, getIntAttr.
    destruct attr_kpack as [[E ->]|[t E]]; now rewrite E. }
  assert (Hcheck : (if KPack >? 1
                    then if KPack <? k_base xcs
                         then llvm_unreachable "kPack is multiple of k_base"
                         else r <- int64_rem KPack (k_base xcs) ;;
                              if negb (r =? 0)
                              then llvm_unreachable
                                     "kPack is multiple of k_base"
                              else ret tt
                    else ret tt)%rewriter = ret tt).
  { destruct (KPack >? 1) eqn:E; [|reflexivity].
    apply gtb_true_inv in E.
    destruct kpack_fits as [H|(H1 & H2 & H3)]; [lia|].
    replace (KPack <? k_base xcs) with false
      by (symmetry; apply Z.ltb_ge; lia).
    rewrite (int64_rem_ok _ _ H2), H3. reflexivity. }
  assert (HremA : (int64 (Z.rem (ldsBufferOffsetA op) KPack) =? 0) = true)
    by (rewrite aligned_A; reflexivity).
  assert (HremB : (int64 (Z.rem (ldsBufferOffsetB op) KPack) =? 0) = true)
    by (rewrite aligned_B; reflexivity).
  unfold prologue. run.
Qed.

Variables (d0 d1 d2 d3 c0 c1 : Value) (cs : list Value).

(** Whether "kpack" is present, and the attribute when it is. *)
Lemma kpack_presence :
  exists b a, hasAttr "kpack" (v2_attrs op) = b /\
              (b = true -> getAttr "kpack" (v2_attrs op) = Some a).
Proof.
  unfold hasAttr. destruct attr_kpack as [[E _]|[t E]]; rewrite E.
  - exists false, UnitAttr. split; [reflexivity|discriminate].
  - eexists true, _. split; reflexivity.
Qed.

(** C1: with [m_per_wave = 128] and [n_per_wave = 64] the repeats are 2 and
    1 and the instruction tile is 64 x 64; the lowering creates exactly two
    [xdlops_gemm_v2] ops, the first with register offsets defined as the
    constants 0 and 0, the second with the offset into A's registers defined
    as the constant [KPerThread] and that into B's as 0, both carrying
    [m_per_wave = 64] and [n_per_wave = 64]; the op is replaced by the two
    results of the first followed by the two results of the second. *)
Theorem two_repeats_along_M :
  MPerWave = 128 -> NPerWave = 64 ->
  v2_vectorDs op = [d0; d1; d2; d3] ->
  v2_vectorCs adaptor = c0 :: c1 :: cs ->
  MRepeats MPerWave = 2 /\ NRepeats NPerWave = 1 /\
  MPerXdlops MPerWave = 64 /\ NPerXdlops NPerWave = 64 /\
  exists s x0 x1 r0 r1 r2 r3,
    matchAndRewrite XdlopsCodeSelection_get op adaptor (initState n0) =
    Ok (success, s)
    /\ xdlopsGemms (emitted s) = [x0; x1]
    /\ In (ConstantIndexOp (xd_regOffsetA x0) 0) (emitted s)
    /\ In (ConstantIndexOp (xd_regOffsetB x0) 0) (emitted s)
    /\ In (ConstantIndexOp (xd_regOffsetA x1) (KPerThread xcs K)) (emitted s)
    /\ In (ConstantIndexOp (xd_regOffsetB x1) 0) (emitted s)
    /\ getAttr "m_per_wave" (xd_attrs x0) = Some (getI32IntegerAttr 64)
    /\ getAttr "n_per_wave" (xd_attrs x0) = Some (getI32IntegerAttr 64)
    /\ getAttr "m_per_wave" (xd_attrs x1) = Some (getI32IntegerAttr 64)
    /\ getAttr "n_per_wave" (xd_attrs x1) = Some (getI32IntegerAttr 64)
    /\ xd_vectorCs x0 = [c0; c1] /\ xd_vectorCs x1 = cs
    /\ xd_vectorDs x0 = [r0; r1] /\ xd_vectorDs x1 = [r2; r3]
    /\ replacement s = Some [r0; r1; r2; r3].
Proof.
  intros HM HN HDs HCs.
  repeat (split; [subst; reflexivity|]).
  pose proof prologue_run as Hp.
  assert (Hm2 : (MRepeats MPerWave =? 1) && (NRepeats NPerWave =? 1) = false)
    by (subst; reflexivity).
  assert (Hm3 : (MRepeats MPerWave =? 2) && (NRepeats NPerWave =? 1) = true)
    by (subst; reflexivity).
  destruct kpack_presence as (b & a & EH & Ea).
  destruct (negb (IsKReduction xcs)) eqn:EK;
    destruct (KPack >? 1) eqn:EP;
    destruct b; try specialize (Ea eq_refl).
  all: do 7 eexists; split;
    [unfold matchAndRewrite, stagingPhase, emitXdlops; run|].
  all: cbn [emitted replacement].
  all: split; [reflexivity|].
  all: cbn [xd_regOffsetA xd_regOffsetB xd_attrs xd_vectorCs xd_vectorDs].
  all: repeat (split; [solve [reflexivity | cbn; tauto
                             | cbn [In]; repeat (first [left; reflexivity
                                                       | right])]|]).
  all: try reflexivity.
Qed.

Lemma IsKReduction_iff :
  IsKReduction xcs = true <->
  num_output_blks xcs = 1 /\ num_input_blks xcs > 1.
Proof.
  unfold IsKReduction. rewrite andb_true_iff, Z.eqb_eq. split.
  - intros [H1 H2]. split; [exact H1|]. apply gtb_true_inv in H2. lia.
  - intros [H1 H2]. split; [exact H1|]. apply gtb_true. lia.
Qed.

(** C6: the selection is a K reduction exactly when it has one output block
    and more than one input block; then [KPerThread] is [K / num_input_blks]
    and the staging is one loop over [k_i] from 0 to [KPerThread], in which
    the lane id [workitem id mod 64] is split into
    [blk_id = laneId / num_threads_blk] and
    [blk_td = laneId mod num_threads_blk], A is loaded at
    [(k_i * num_input_blks + blk_id) * M + blk_td + base] (times [KPack] when
    [KPack > 1]) with [base = waveOffsetA + ldsOffsetA / KPack], B likewise
    with [N], and what was loaded is stored at register index [k_i] of
    A's and of B's register buffer; all of it in [index] arithmetic. *)
Theorem k_reduction_staging :
  (vid (v2_waveOffsetA adaptor) < n0)%nat ->
  (vid (v2_waveOffsetB adaptor) < n0)%nat ->
  vid (v2_matrixB (v2_operands op)) <> vid (v2_bufferA adaptor) ->
  (IsKReduction xcs = true <->
   num_output_blks xcs = 1 /\ num_input_blks xcs > 1) /\
  (IsKReduction xcs = true ->
   KPerThread xcs K = int64 (Z.quot K (num_input_blks xcs)) /\
   exists p s pre iv body,
     stagingPhase XdlopsCodeSelection_get op adaptor (initState n0) =
     Ok (p, s)
     /\ matchAndRewrite XdlopsCodeSelection_get op adaptor (initState n0) =
        emitXdlops op adaptor MPerWave NPerWave (p_staging p) s
     /\ emitted s = pre ++ [AffineForOp iv 0 (KPerThread xcs K) 1 body]
     /\ Forall (fun o => match o with
                         | AffineForOp _ _ _ _ _ => False
                         | _ => True
                         end) pre
     /\ forall indexBitwidth workitemId applyTransform convert
               (m0 m : Machine) (k_i : Z),
         (forall i, (i < vid iv)%nat ->
            env m i =
            env (execs indexBitwidth workitemId applyTransform convert
                   pre m0) i) ->
         let W := wrap indexBitwidth in
         let lane := W workitemId mod W waveSize in
         let blk_id := W lane / W (num_threads_blk xcs) in
         let blk_td := W lane mod W (num_threads_blk xcs) in
         let baseA := getValue m0 (v2_waveOffsetA adaptor) +
                      int64 (Z.quot (ldsBufferOffsetA op) KPack) in
         let baseB := getValue m0 (v2_waveOffsetB adaptor) +
                      int64 (Z.quot (ldsBufferOffsetB op) KPack) in
         let scale z := if KPack >? 1 then z * KPack else z in
         let sourceOffsetA :=
           W (scale ((k_i * num_input_blks xcs + blk_id) * M + blk_td
                     + baseA)) in
         let sourceOffsetB :=
           W (scale ((k_i * num_input_blks xcs + blk_id) * N + blk_td
                     + baseB)) in
         trace (execs indexBitwidth workitemId applyTransform convert body
                  (setValue iv k_i m)) =
         trace m ++
         [EvLoad (vid (v2_matrixA (v2_operands op))) [sourceOffsetA];
          EvStore (vid (v2_bufferA adaptor)) [k_i]
            (mem m (vid (v2_matrixA (v2_operands op))) [sourceOffsetA]);
          EvLoad (vid (v2_matrixB (v2_operands op))) [sourceOffsetB];
          EvStore (vid (v2_bufferB adaptor)) [k_i]
            (mem m (vid (v2_matrixB (v2_operands op))) [sourceOffsetB])]).
Proof.
  intros HwA HwB HBA. split; [exact IsKReduction_iff|]. intros HK.
  split; [unfold KPerThread; now rewrite HK|].
  pose proof prologue_run as Hp.
  assert (EK : negb (IsKReduction xcs) = false) by now rewrite HK.
  destruct (KPack >? 1) eqn:EP.
  all: do 5 eexists; split; [unfold stagingPhase; run|].
  all: split;
    [unfold matchAndRewrite; eapply run_bind;
       [unfold stagingPhase; run|reflexivity]|].
  all: cbn [emitted]; split;
    [match goal with
     | |- ?L = ?pre ++ [_] =>
         let l' := eval cbn [removelast] in (removelast L) in
         unify pre l'
     end; reflexivity|].
  all: split; [repeat constructor|].
  all: cbv zeta.
  all: intros ibw wid aT cv m0 m k_i Hagree.
  all: revert Hagree.
  all: assert (Hold0 : forall i, (i < n0)%nat -> env m0 i = env m0 i)
         by reflexivity.
  all: unfold index, aBaseV, bBaseV; cbn [vid Nat.add].
  all: do 20 sem_step.
  all: rewrite execs_nil; intros Hagree.
  all: vsem_enter_loop m Hagree.
  all: repeat vsem_step.
  all: sem_trace.
  all: vtrace_eq.
Qed.

(** *** The other repeat combinations *)

Lemma map_vty_valuesFrom (ts : list Ty) :
  forall n, map vty (valuesFrom n ts) = ts.
Proof.
  induction ts as [|t ts IH]; intros n; simpl; [reflexivity|].
  now rewrite IH.
Qed.

Lemma repeats_of_small_tile (w : Z) : w <= 64 -> MRepeats w = 1.
Proof. intros H. unfold MRepeats. now rewrite gtb_false. Qed.

Lemma repeats_of_double_tile (w : Z) : 128 <= w < 192 -> MRepeats w = 2.
Proof.
  intros H. unfold MRepeats. rewrite gtb_true by lia.
  rewrite Z.quot_div_nonneg by lia.
  symmetry. apply Z.div_unique with (w - 128). lia. lia.
Qed.

(** Lines 495-618 when none of the three branches is taken. *)
Lemma emitXdlops_no_branch (c : Staging) (s : RewriterState) :
  (MRepeats MPerWave, NRepeats NPerWave) <> (1, 1) ->
  (MRepeats MPerWave, NRepeats NPerWave) <> (2, 1) ->
  (MRepeats MPerWave, NRepeats NPerWave) <> (1, 2) ->
  emitXdlops op adaptor MPerWave NPerWave c s = Ok (success, s).
Proof.
  intros H11 H21 H12. unfold emitXdlops.
  destruct (Z.eqb_spec (MRepeats MPerWave) 1) as [E1|E1];
    destruct (Z.eqb_spec (NRepeats NPerWave) 1) as [F1|F1];
    destruct (Z.eqb_spec (MRepeats MPerWave) 2) as [E2|E2];
    destruct (Z.eqb_spec (NRepeats NPerWave) 2) as [F2|F2];
    cbn [andb];
    try reflexivity;
    try (exfalso; apply H11; now rewrite E1, F1);
    try (exfalso; apply H21; now rewrite E2, F1);
    try (exfalso; apply H12; now rewrite E1, F2).
Qed.

(** With repeats other than 1 x 1, 2 x 1 and 1 x 2 (lines 495, 514, 565) no
    branch of the emission runs: the pattern reports success with the
    staging code as its whole output, creates no [xdlops_gemm_v2] and does
    not replace the op. *)
Theorem other_repeats_leave_the_op_in_place :
  (MRepeats MPerWave, NRepeats NPerWave) <> (1, 1) ->
  (MRepeats MPerWave, NRepeats NPerWave) <> (2, 1) ->
  (MRepeats MPerWave, NRepeats NPerWave) <> (1, 2) ->
  exists p s,
    stagingPhase XdlopsCodeSelection_get op adaptor (initState n0) =
    Ok (p, s)
    /\ matchAndRewrite XdlopsCodeSelection_get op adaptor (initState n0) =
       Ok (success, s)
    /\ emitted s <> []
    /\ xdlopsGemms (emitted s) = []
    /\ replacement s = None.
Proof.
  intros H11 H21 H12.
  pose proof prologue_run as Hp.
  destruct (negb (IsKReduction xcs)) eqn:EK;
    destruct (KPack >? 1) eqn:EP.
  all: do 2 eexists; split; [unfold stagingPhase; run|].
  all: split;
    [unfold matchAndRewrite; eapply run_bind;
       [unfold stagingPhase; run
       |cbn [p_MPerWave p_NPerWave p_staging];
        apply emitXdlops_no_branch; assumption]|].
  all: cbn [emitted replacement].
  all: split; [discriminate|].
  all: split; reflexivity.
Qed.

(** With both tiles at most 64 wide (lines 495-513) the op becomes one
    [xdlops_gemm_v2] on the op's operands and all of its accumulators, both
    register offsets the constant 0, with the op's own [m], [n], [k],
    [m_per_wave], [n_per_wave] and [kpack] attributes and results of the
    op's result types, which replace the op's. *)
Theorem single_tile_is_one_xdlops_gemm :
  MPerWave <= 64 -> NPerWave <= 64 ->
  exists s x,
    matchAndRewrite XdlopsCodeSelection_get op adaptor (initState n0) =
    Ok (success, s)
    /\ xdlopsGemms (emitted s) = [x]
    /\ In (ConstantIndexOp (xd_regOffsetA x) 0) (emitted s)
    /\ xd_regOffsetB x = xd_regOffsetA x
    /\ xd_matrixA x = v2_matrixA adaptor
    /\ xd_matrixB x = v2_matrixB adaptor
    /\ xd_ldsBufferOffsetA x = ldsBufferOffsetA op
    /\ xd_ldsBufferOffsetB x = ldsBufferOffsetB op
    /\ xd_bufferA x = v2_bufferA adaptor
    /\ xd_bufferB x = v2_bufferB adaptor
    /\ xd_vectorCs x = v2_vectorCs adaptor
    /\ map vty (xd_vectorDs x) = map vty (v2_vectorDs op)
    /\ replacement s = Some (xd_vectorDs x)
    /\ getAttr "m" (xd_attrs x) = Some (IntegerAttr tM M)
    /\ getAttr "n" (xd_attrs x) = Some (IntegerAttr tN N)
    /\ getAttr "k" (xd_attrs x) = Some (IntegerAttr tK K)
    /\ getAttr "m_per_wave" (xd_attrs x) = Some (IntegerAttr tMW MPerWave)
    /\ getAttr "n_per_wave" (xd_attrs x) = Some (IntegerAttr tNW NPerWave)
    /\ getAttr "kpack" (xd_attrs x) = getAttr "kpack" (v2_attrs op).
Proof.
  intros HM HN.
  pose proof prologue_run as Hp.
  assert (Hm1 : (MRepeats MPerWave =? 1) && (NRepeats NPerWave =? 1) = true).
  { rewrite (repeats_of_small_tile _ HM).
    unfold NRepeats. now rewrite gtb_false. }
  destruct kpack_presence as (b & a & EH & Ea).
  destruct (negb (IsKReduction xcs)) eqn:EK;
    destruct (KPack >? 1) eqn:EP;
    destruct b; try specialize (Ea eq_refl).
  all: do 2 eexists; split;
    [unfold matchAndRewrite, stagingPhase, emitXdlops,
       create_XdlopsGemmV2Op; run|].
  all: cbn [emitted replacement].
  all: split; [reflexivity|].
  all: cbn [xd_regOffsetA xd_regOffsetB xd_attrs xd_vectorCs xd_vectorDs
            xd_matrixA xd_matrixB xd_ldsBufferOffsetA xd_ldsBufferOffsetB
            xd_bufferA xd_bufferB].
  all: split; [cbn [In]; repeat (first [left; reflexivity | right])|].
  all: repeat (split; [solve [reflexivity | apply map_vty_valuesFrom]|]).
  all: unfold hasAttr in EH.
  all: destruct (getAttr "kpack" (v2_attrs op)) eqn:Ekp; try discriminate.
  all: try (injection Ea as <-).
  all: reflexivity.
Qed.

(** With [m_per_wave] at most 64 and [n_per_wave] from 128 up to 191 (lines
    565-616) the repeats are 1 and 2: two [xdlops_gemm_v2] are created, the
    second reading B's registers from the constant [KPerThread] on and A's
    from 0, each on two of the accumulators; both keep the op's [m], [n]
    and [k] and are marked [m_per_wave = 64] and [n_per_wave = 64] whatever
    [m_per_wave] is. *)
Theorem two_repeats_along_N :
  MPerWave <= 64 -> 128 <= NPerWave < 192 ->
  v2_vectorDs op = [d0; d1; d2; d3] ->
  v2_vectorCs adaptor = c0 :: c1 :: cs ->
  MRepeats MPerWave = 1 /\ NRepeats NPerWave = 2 /\
  MPerXdlops MPerWave = MPerWave /\ NPerXdlops NPerWave = 64 /\
  exists s x0 x1 r0 r1 r2 r3,
    matchAndRewrite XdlopsCodeSelection_get op adaptor (initState n0) =
    Ok (success, s)
    /\ xdlopsGemms (emitted s) = [x0; x1]
    /\ In (ConstantIndexOp (xd_regOffsetA x0) 0) (emitted s)
    /\ In (ConstantIndexOp (xd_regOffsetB x0) 0) (emitted s)
    /\ In (ConstantIndexOp (xd_regOffsetA x1) 0) (emitted s)
    /\ In (ConstantIndexOp (xd_regOffsetB x1) (KPerThread xcs K)) (emitted s)
    /\ getAttr "m_per_wave" (xd_attrs x0) = Some (getI32IntegerAttr 64)
    /\ getAttr "n_per_wave" (xd_attrs x0) = Some (getI32IntegerAttr 64)
    /\ getAttr "m_per_wave" (xd_attrs x1) = Some (getI32IntegerAttr 64)
    /\ getAttr "n_per_wave" (xd_attrs x1) = Some (getI32IntegerAttr 64)
    /\ getAttr "m" (xd_attrs x0) = Some (IntegerAttr tM M)
    /\ getAttr "n" (xd_attrs x0) = Some (IntegerAttr tN N)
    /\ getAttr "k" (xd_attrs x0) = Some (IntegerAttr tK K)
    /\ getAttr "m" (xd_attrs x1) = Some (IntegerAttr tM M)
    /\ getAttr "n" (xd_attrs x1) = Some (IntegerAttr tN N)
    /\ getAttr "k" (xd_attrs x1) = Some (IntegerAttr tK K)
    /\ xd_vectorCs x0 = [c0; c1] /\ xd_vectorCs x1 = cs
    /\ xd_vectorDs x0 = [r0; r1] /\ xd_vectorDs x1 = [r2; r3]
    /\ map vty [r0; r1; r2; r3] = map vty [d0; d1; d2; d3]
    /\ replacement s = Some [r0; r1; r2; r3].
Proof.
  intros HM HN HDs HCs.
  assert (EM : MRepeats MPerWave = 1) by now apply repeats_of_small_tile.
  assert (EN : NRepeats NPerWave = 2) by now apply repeats_of_double_tile.
  split; [exact EM|]. split; [exact EN|].
  split; [unfold MPerXdlops; now rewrite gtb_false|].
  split; [unfold NPerXdlops; rewrite gtb_true by lia; reflexivity|].
  pose proof prologue_run as Hp.
  assert (Hm1 : (MRepeats MPerWave =? 1) && (NRepeats NPerWave =? 1) = false)
    by now rewrite EM, EN.
  assert (Hm2 : (MRepeats MPerWave =? 2) && (NRepeats NPerWave =? 1) = false)
    by now rewrite EM, EN.
  assert (Hm3 : (MRepeats MPerWave =? 1) && (NRepeats NPerWave =? 2) = true)
    by now rewrite EM, EN.
  destruct kpack_presence as (b & a & EH & Ea).
  destruct (negb (IsKReduction xcs)) eqn:EK;
    destruct (KPack >? 1) eqn:EP;
    destruct b; try specialize (Ea eq_refl).
  all: do 7 eexists; split;
    [unfold matchAndRewrite, stagingPhase, emitXdlops; run|].
  all: cbn [emitted replacement].
  all: split; [reflexivity|].
  all: cbn [xd_regOffsetA xd_regOffsetB xd_attrs xd_vectorCs xd_vectorDs].
  all: repeat (split; [solve [reflexivity | cbn; tauto
                             | cbn [In]; repeat (first [left; reflexivity
                                                       | right])]|]).
  all: try reflexivity.
Qed.

(** *** Staging without K reduction *)

(** Splits the staging code into what precedes the two loop nests and, in
    each nest, what precedes the inner loop. *)
Ltac sem_split_loops :=
  lazymatch goal with
  | |- ?L = ?pre ++ [AffineForOp _ _ _ _ (?pM ++ [_]);
                     AffineForOp _ _ _ _ (?pN ++ [_])] =>
      let l := eval cbn [removelast] in (removelast (removelast L)) in
      unify pre l;
      lazymatch L with
      | context [[AffineForOp _ _ _ _ ?LM; AffineForOp _ _ _ _ ?LN]] =>
          let lm := eval cbn [removelast] in (removelast LM) in
          let ln := eval cbn [removelast] in (removelast LN) in
          unify pM lm; unify pN ln
      end
  end.

(** Without K reduction (lines 357-430) [KPerThread] is [K] and A and B are
    staged by two loop nests, over the repeat [r_i] outside and [k_i] from 0
    to [KPerThread] inside.  An iteration for A loads the LDS buffer at
    [k_i * M + laneId + (base + MPerXdlops * r_i)], times [KPack] when
    [KPack > 1], where [laneId = workitem id mod 64] and
    [base = waveOffsetA + ldsOffsetA / KPack], and stores the element it
    loaded at register index [k_i + r_i * K]; B likewise with [N],
    [NPerXdlops] and its own base; all of it in [index] arithmetic. *)
Theorem plain_staging :
  (vid (v2_waveOffsetA adaptor) < n0)%nat ->
  (vid (v2_waveOffsetB adaptor) < n0)%nat ->
  IsKReduction xcs = false ->
  KPerThread xcs K = K /\
  exists p s pre olmiv preM ilmkiv bodyA olniv preN ilnkiv bodyB,
    stagingPhase XdlopsCodeSelection_get op adaptor (initState n0) =
    Ok (p, s)
    /\ emitted s =
       pre ++
       [AffineForOp olmiv 0 (MRepeats MPerWave) 1
          (preM ++ [AffineForOp ilmkiv 0 (KPerThread xcs K) 1 bodyA]);
        AffineForOp olniv 0 (NRepeats NPerWave) 1
          (preN ++ [AffineForOp ilnkiv 0 (KPerThread xcs K) 1 bodyB])]
    /\ forall indexBitwidth workitemId applyTransform convert
              (m0 m1 m : Machine) (r_i k_i : Z),
        (forall i, (i < vid olmiv)%nat ->
           env m1 i =
           env (execs indexBitwidth workitemId applyTransform convert
                  pre m0) i) ->
        let W := wrap indexBitwidth in
        let lane := W workitemId mod W waveSize in
        let baseA := getValue m0 (v2_waveOffsetA adaptor) +
                     int64 (Z.quot (ldsBufferOffsetA op) KPack) in
        let baseB := getValue m0 (v2_waveOffsetB adaptor) +
                     int64 (Z.quot (ldsBufferOffsetB op) KPack) in
        let scale z := if KPack >? 1 then z * KPack else z in
        let sourceOffsetA :=
          W (scale (k_i * M + lane
                    + (baseA + MPerXdlops MPerWave * r_i))) in
        let sourceOffsetB :=
          W (scale (k_i * N + lane
                    + (baseB + NPerXdlops NPerWave * r_i))) in
        ((forall i, (i < vid ilmkiv)%nat ->
            env m i =
            env (execs indexBitwidth workitemId applyTransform convert
                   preM (setValue olmiv r_i m1)) i) ->
         trace (execs indexBitwidth workitemId applyTransform convert
                  bodyA (setValue ilmkiv k_i m)) =
         trace m ++
         [EvLoad (vid (v2_matrixA (v2_operands op))) [sourceOffsetA];
          EvStore (vid (v2_bufferA adaptor)) [W (k_i + r_i * K)]
            (mem m (vid (v2_matrixA (v2_operands op))) [sourceOffsetA])])
        /\
        ((forall i, (i < vid ilnkiv)%nat ->
            env m i =
            env (execs indexBitwidth workitemId applyTransform convert
                   preN (setValue olniv r_i m1)) i) ->
         trace (execs indexBitwidth workitemId applyTransform convert
                  bodyB (setValue ilnkiv k_i m)) =
         trace m ++
         [EvLoad (vid (v2_matrixB (v2_operands op))) [sourceOffsetB];
          EvStore (vid (v2_bufferB adaptor)) [W (k_i + r_i * K)]
            (mem m (vid (v2_matrixB (v2_operands op))) [sourceOffsetB])]).
Proof.
  intros HwA HwB HK.
  split; [unfold KPerThread; now rewrite HK|].
  pose proof prologue_run as Hp.
  assert (EK : negb (IsKReduction xcs) = true) by now rewrite HK.
  destruct (KPack >? 1) eqn:EP.
  all: do 11 eexists; split; [unfold stagingPhase; run|].
  all: cbn [emitted]; split; [sem_split_loops; reflexivity|].
  all: cbv zeta.
  all: intros ibw wid aT cv m0 m1 m r_i k_i Hpre.
  all: revert Hpre.
  all: assert (Hold0 : forall i, (i < n0)%nat -> env m0 i = env m0 i)
         by reflexivity.
  all: unfold index, aBaseV, bBaseV; cbn [vid Nat.add].
  all: do 14 sem_step.
  all: rewrite execs_nil; intros Hpre.
  all: split.
  all: sem_enter_loop m1 Hpre.
  all: do 3 sem_step.
  all: rewrite execs_nil; intros Hagree.
  all: vsem_enter_loop m Hagree.
  all: repeat vsem_step.
  all: sem_trace.
  all: vtrace_eq.
Qed.

(** *** The LDS offset through the division and the multiplication *)

Lemma int64_quot_exact (a b : Z) :
  in_int64 a -> 1 <= b -> Z.rem a b = 0 -> int64 (Z.quot a b) * b = a.
Proof.
  intros Ha Hb Hr.
  assert (E : a = b * Z.quot a b) by (rewrite (Z.quot_rem' a b) at 1; lia).
  rewrite int64_id; [lia|].
  unfold in_int64 in *.
  destruct (Z_le_gt_dec 0 a) as [Hs|Hs].
  - assert (0 <= Z.quot a b) by (apply Z.quot_pos; lia).
    assert (Z.quot a b <= a) by nia. lia.
  - assert (Z.quot a b <= 0) by (apply Z.quot_le_upper_bound; lia).
    assert (a <= Z.quot a b) by nia. lia.
Qed.

(** The LDS offsets count elements, the addresses of lines 288-293 count
    vectors of [KPack] elements: the offset is divided by [KPack] before it
    enters the address and the address is multiplied by [KPack] in the end
    (lines 384-386 and 421-423).  For an aligned offset the two cancel:
    without K reduction the element loaded for A is
    [(k_i * M + laneId + MPerXdlops * r_i + waveOffsetA) * KPack +
    ldsOffsetA], the offset itself added once; B likewise. *)
Theorem lds_offset_round_trips :
  (vid (v2_waveOffsetA adaptor) < n0)%nat ->
  (vid (v2_waveOffsetB adaptor) < n0)%nat ->
  IsKReduction xcs = false ->
  1 < KPack ->
  in_int64 (ldsBufferOffsetA op) -> in_int64 (ldsBufferOffsetB op) ->
  exists p s pre olmiv preM ilmkiv bodyA olniv preN ilnkiv bodyB,
    stagingPhase XdlopsCodeSelection_get op adaptor (initState n0) =
    Ok (p, s)
    /\ emitted s =
       pre ++
       [AffineForOp olmiv 0 (MRepeats MPerWave) 1
          (preM ++ [AffineForOp ilmkiv 0 (KPerThread xcs K) 1 bodyA]);
        AffineForOp olniv 0 (NRepeats NPerWave) 1
          (preN ++ [AffineForOp ilnkiv 0 (KPerThread xcs K) 1 bodyB])]
    /\ forall indexBitwidth workitemId applyTransform convert
              (m0 m1 m : Machine) (r_i k_i : Z),
        (forall i, (i < vid olmiv)%nat ->
           env m1 i =
           env (execs indexBitwidth workitemId applyTransform convert
                  pre m0) i) ->
        let W := wrap indexBitwidth in
        let lane := W workitemId mod W waveSize in
        ((forall i, (i < vid ilmkiv)%nat ->
            env m i =
            env (execs indexBitwidth workitemId applyTransform convert
                   preM (setValue olmiv r_i m1)) i) ->
         exists v d,
           trace (execs indexBitwidth workitemId applyTransform convert
                    bodyA (setValue ilmkiv k_i m)) =
           trace m ++
           [EvLoad (vid (v2_matrixA (v2_operands op)))
              [W ((k_i * M + lane + MPerXdlops MPerWave * r_i
                   + getValue m0 (v2_waveOffsetA adaptor)) * KPack
                  + ldsBufferOffsetA op)];
            EvStore (vid (v2_bufferA adaptor)) [d] v])
        /\
        ((forall i, (i < vid ilnkiv)%nat ->
            env m i =
            env (execs indexBitwidth workitemId applyTransform convert
                   preN (setValue olniv r_i m1)) i) ->
         exists v d,
           trace (execs indexBitwidth workitemId applyTransform convert
                    bodyB (setValue ilnkiv k_i m)) =
           trace m ++
           [EvLoad (vid (v2_matrixB (v2_operands op)))
              [W ((k_i * N + lane + NPerXdlops NPerWave * r_i
                   + getValue m0 (v2_waveOffsetB adaptor)) * KPack
                  + ldsBufferOffsetB op)];
            EvStore (vid (v2_bufferB adaptor)) [d] v]).
Proof.
  intros HwA HwB HK HKP HfA HfB.
  pose proof prologue_run as Hp.
  assert (EK : negb (IsKReduction xcs) = true) by now rewrite HK.
  assert (EP : (KPack >? 1) = true) by (apply gtb_true; lia).
  assert (HqA : int64 (Z.quot (ldsBufferOffsetA op) KPack) * KPack =
                ldsBufferOffsetA op)
    by (apply int64_quot_exact; [assumption|lia|exact aligned_A]).
  assert (HqB : int64 (Z.quot (ldsBufferOffsetB op) KPack) * KPack =
                ldsBufferOffsetB op)
    by (apply int64_quot_exact; [assumption|lia|exact aligned_B]).
  set (qA := int64 (Z.quot (ldsBufferOffsetA op) KPack)) in *.
  set (qB := int64 (Z.quot (ldsBufferOffsetB op) KPack)) in *.
  do 11 eexists; split; [unfold stagingPhase; run|].
  cbn [emitted]; split; [sem_split_loops; reflexivity|].
  cbv zeta.
  intros ibw wid aT cv m0 m1 m r_i k_i Hpre.
  revert Hpre.
  assert (Hold0 : forall i, (i < n0)%nat -> env m0 i = env m0 i)
    by reflexivity.
  unfold index, aBaseV, bBaseV; cbn [vid Nat.add].
  do 14 sem_step.
  rewrite execs_nil; intros Hpre.
  split.
  all: sem_enter_loop m1 Hpre.
  all: do 3 sem_step.
  all: rewrite execs_nil; intros Hagree.
  all: sem_enter_loop m Hagree.
  all: repeat sem_step.
  all: sem_trace.
  all: do 2 eexists; trace_eq.
  - rewrite <- HqA. ring.
  - rewrite <- HqB. ring.
Qed.

Lemma int64_quot_id (a b : Z) :
  in_int64 a -> 1 <= b -> int64 (Z.quot a b) = Z.quot a b.
Proof.
  intros Ha Hb. apply int64_id. unfold in_int64 in *.
  destruct (Z_le_gt_dec 0 a) as [Hs|Hs].
  - assert (0 <= Z.quot a b) by (apply Z.quot_pos; lia).
    assert (Z.quot a b <= a) by (apply Z.quot_le_upper_bound; nia). lia.
  - assert (Z.quot a b <= 0) by (apply Z.quot_le_upper_bound; lia).
    assert (a <= Z.quot a b) by (apply Z.quot_le_lower_bound; nia). lia.
Qed.

(** The staging loops of an op with aligned LDS offsets and [KPack > 1],
    without K reduction: the base of the addresses is
    [waveOffset + ldsOffset / KPack], and the address an element is loaded
    from, multiplied by [KPack], contains the LDS offset itself once. *)
Lemma aligned_offset_events :
  (vid (v2_waveOffsetA adaptor) < n0)%nat ->
  (vid (v2_waveOffsetB adaptor) < n0)%nat ->
  IsKReduction xcs = false ->
  1 < KPack ->
  in_int64 (ldsBufferOffsetA op) -> in_int64 (ldsBufferOffsetB op) ->
  exists p s pre olmiv preM ilmkiv bodyA olniv preN ilnkiv bodyB,
    stagingPhase XdlopsCodeSelection_get op adaptor (initState n0) =
    Ok (p, s)
    /\ matchAndRewrite XdlopsCodeSelection_get op adaptor (initState n0) =
       emitXdlops op adaptor MPerWave NPerWave (p_staging p) s
    /\ emitted s =
       pre ++
       [AffineForOp olmiv 0 (MRepeats MPerWave) 1
          (preM ++ [AffineForOp ilmkiv 0 (KPerThread xcs K) 1 bodyA]);
        AffineForOp olniv 0 (NRepeats NPerWave) 1
          (preN ++ [AffineForOp ilnkiv 0 (KPerThread xcs K) 1 bodyB])]
    /\ forall indexBitwidth workitemId applyTransform convert
              (m0 m1 m : Machine) (r_i k_i : Z),
        (forall i, (i < vid olmiv)%nat ->
           env m1 i =
           env (execs indexBitwidth workitemId applyTransform convert
                  pre m0) i) ->
        let W := wrap indexBitwidth in
        let lane := W workitemId mod W waveSize in
        let baseA := getValue m0 (v2_waveOffsetA adaptor) +
                     Z.quot (ldsBufferOffsetA op) KPack in
        let baseB := getValue m0 (v2_waveOffsetB adaptor) +
                     Z.quot (ldsBufferOffsetB op) KPack in
        let sourceOffsetA :=
          W ((k_i * M + lane + (baseA + MPerXdlops MPerWave * r_i))
             * KPack) in
        let sourceOffsetB :=
          W ((k_i * N + lane + (baseB + NPerXdlops NPerWave * r_i))
             * KPack) in
        ((forall i, (i < vid ilmkiv)%nat ->
            env m i =
            env (execs indexBitwidth workitemId applyTransform convert
                   preM (setValue olmiv r_i m1)) i) ->
         trace (execs indexBitwidth workitemId applyTransform convert
                  bodyA (setValue ilmkiv k_i m)) =
         trace m ++
         [EvLoad (vid (v2_matrixA (v2_operands op))) [sourceOffsetA];
          EvStore (vid (v2_bufferA adaptor)) [W (k_i + r_i * K)]
            (mem m (vid (v2_matrixA (v2_operands op))) [sourceOffsetA])])
        /\
        ((forall i, (i < vid ilnkiv)%nat ->
            env m i =
            env (execs indexBitwidth workitemId applyTransform convert
                   preN (setValue olniv r_i m1)) i) ->
         trace (execs indexBitwidth workitemId applyTransform convert
                  bodyB (setValue ilnkiv k_i m)) =
         trace m ++
         [EvLoad (vid (v2_matrixB (v2_operands op))) [sourceOffsetB];
          EvStore (vid (v2_bufferB adaptor)) [W (k_i + r_i * K)]
            (mem m (vid (v2_matrixB (v2_operands op))) [sourceOffsetB])])
        /\ sourceOffsetA =
           W ((k_i * M + lane + MPerXdlops MPerWave * r_i
               + getValue m0 (v2_waveOffsetA adaptor)) * KPack
              + ldsBufferOffsetA op)
        /\ sourceOffsetB =
           W ((k_i * N + lane + NPerXdlops NPerWave * r_i
               + getValue m0 (v2_waveOffsetB adaptor)) * KPack
              + ldsBufferOffsetB op).
Proof.
  intros HwA HwB HK HKP HfA HfB.
  pose proof prologue_run as Hp.
  assert (EK : negb (IsKReduction xcs) = true) by now rewrite HK.
  assert (EP : (KPack >? 1) = true) by (apply gtb_true; lia).
  assert (HqA : Z.quot (ldsBufferOffsetA op) KPack * KPack =
                ldsBufferOffsetA op).
  { rewrite <- (int64_quot_id _ KPack) by (assumption || lia).
    apply int64_quot_exact; [assumption|lia|exact aligned_A]. }
  assert (HqB : Z.quot (ldsBufferOffsetB op) KPack * KPack =
                ldsBufferOffsetB op).
  { rewrite <- (int64_quot_id _ KPack) by (assumption || lia).
    apply int64_quot_exact; [assumption|lia|exact aligned_B]. }
  rewrite !(int64_quot_id _ KPack) in Hp by (assumption || lia).
  set (qA := Z.quot (ldsBufferOffsetA op) KPack) in *.
  set (qB := Z.quot (ldsBufferOffsetB op) KPack) in *.
  do 11 eexists; split; [unfold stagingPhase; run|].
  split;
    [unfold matchAndRewrite; eapply run_bind;
       [unfold stagingPhase; run|reflexivity]|].
  cbn [emitted]; split; [sem_split_loops; reflexivity|].
  cbv zeta.
  intros ibw wid aT cv m0 m1 m r_i k_i Hpre.
  split; [|split; [|split]].
  3: { f_equal. rewrite <- HqA. ring. }
  3: { f_equal. rewrite <- HqB. ring. }
  all: revert Hpre.
  all: assert (Hold0 : forall i, (i < n0)%nat -> env m0 i = env m0 i)
         by reflexivity.
  all: unfold index, aBaseV, bBaseV; cbn [vid Nat.add].
  all: do 14 sem_step.
  all: rewrite execs_nil; intros Hpre.
  all: sem_enter_loop m1 Hpre.
  all: do 3 sem_step.
  all: rewrite execs_nil; intros Hagree.
  all: vsem_enter_loop m Hagree.
  all: repeat vsem_step.
  all: sem_trace.
  all: vtrace_eq.
Qed.
End BlockwiseGemmV2.

Lemma two_repeats_along_M_witness :
  BlockwiseGemmV2RewritePattern.MRepeats 128 = 2 /\
  BlockwiseGemmV2RewritePattern.NRepeats 64 = 1 /\
  BlockwiseGemmV2RewritePattern.MPerXdlops 128 = 64 /\
  BlockwiseGemmV2RewritePattern.NPerXdlops 64 = 64 /\
  exists (s : RewriterState) (x0 x1 : XdlopsGemmV2Op) (r0 r1 r2 r3 : Value),
    BlockwiseGemmV2RewritePattern.matchAndRewrite (selectAlways xcsPlain)
      (v2Example 128 64 4 8) v2Operands (initState 14) = Ok (success, s) /\
    xdlopsGemms (emitted s) = [x0; x1] /\
    In (ConstantIndexOp (xd_regOffsetA x0) 0) (emitted s) /\
    In (ConstantIndexOp (xd_regOffsetB x0) 0) (emitted s) /\
    In (ConstantIndexOp (xd_regOffsetA x1)
          (BlockwiseGemmV2RewritePattern.KPerThread xcsPlain 4))
       (emitted s) /\
    In (ConstantIndexOp (xd_regOffsetB x1) 0) (emitted s) /\
    getAttr "m_per_wave" (xd_attrs x0) = Some (getI32IntegerAttr 64) /\
    getAttr "n_per_wave" (xd_attrs x0) = Some (getI32IntegerAttr 64) /\
    getAttr "m_per_wave" (xd_attrs x1) = Some (getI32IntegerAttr 64) /\
    getAttr "n_per_wave" (xd_attrs x1) = Some (getI32IntegerAttr 64) /\
    xd_vectorCs x0 =
      [mkValue 6 (VectorType [32] F32); mkValue 7 (VectorType [32] F32)] /\
    xd_vectorCs x1 =
      [mkValue 8 (VectorType [32] F32); mkValue 9 (VectorType [32] F32)] /\
    xd_vectorDs x0 = [r0; r1] /\
    xd_vectorDs x1 = [r2; r3] /\ replacement s = Some [r0; r1; r2; r3].
Proof.
  eapply (two_repeats_along_M (selectAlways xcsPlain) (v2Example 128 64 4 8)
           v2Operands 14 256 128 4 128 64 4 I32 I32 I32 I32 I32 xcsPlain
           [8192] [8] [8] F32 F32 F32 3 5 5).
  - reflexivity.
  - reflexivity.
  - reflexivity.
  - reflexivity.
  - reflexivity.
  - right. exists I32. reflexivity.
  - discriminate.
  - reflexivity.
  - reflexivity.
  - reflexivity.
  - reflexivity.
  - right. repeat split; [discriminate|discriminate].
  - reflexivity.
  - reflexivity.
  - reflexivity.
  - reflexivity.
  - reflexivity.
  - reflexivity.
Defined.

Lemma k_reduction_staging_witness :
  (BlockwiseGemmV2RewritePattern.IsKReduction xcsKReduction = true <->
   num_output_blks xcsKReduction = 1 /\ num_input_blks xcsKReduction > 1) /\
  (BlockwiseGemmV2RewritePattern.IsKReduction xcsKReduction = true ->
   BlockwiseGemmV2RewritePattern.KPerThread xcsKReduction 4 =
   int64 (Z.quot 4 (num_input_blks xcsKReduction)) /\
   exists p s pre iv body,
     BlockwiseGemmV2RewritePattern.stagingPhase (selectAlways xcsKReduction)
       (v2Example 64 64 4 8) v2Operands (initState 14) = Ok (p, s)
     /\ BlockwiseGemmV2RewritePattern.matchAndRewrite
          (selectAlways xcsKReduction) (v2Example 64 64 4 8) v2Operands
          (initState 14) =
        BlockwiseGemmV2RewritePattern.emitXdlops (v2Example 64 64 4 8)
          v2Operands 64 64 (BlockwiseGemmV2RewritePattern.p_staging p) s
     /\ emitted s =
        pre ++
        [AffineForOp iv 0
           (BlockwiseGemmV2RewritePattern.KPerThread xcsKReduction 4) 1 body]
     /\ Forall (fun o => match o with
                         | AffineForOp _ _ _ _ _ => False
                         | _ => True
                         end) pre
     /\ forall indexBitwidth workitemId applyTransform convert
               (m0 m : Machine) (k_i : Z),
         (forall i, (i < vid iv)%nat ->
            env m i =
            env (execs indexBitwidth workitemId applyTransform convert
                   pre m0) i) ->
         let W := wrap indexBitwidth in
         let lane :=
           W workitemId mod W BlockwiseGemmV2RewritePattern.waveSize in
         let blk_id := W lane / W (num_threads_blk xcsKReduction) in
         let blk_td := W lane mod W (num_threads_blk xcsKReduction) in
         let baseA := getValue m0 (v2_waveOffsetA v2Operands) +
                      int64 (Z.quot 8 4) in
         let baseB := getValue m0 (v2_waveOffsetB v2Operands) +
                      int64 (Z.quot 4096 4) in
         let scale z := if 4 >? 1 then z * 4 else z in
         let sourceOffsetA :=
           W (scale ((k_i * num_input_blks xcsKReduction + blk_id) * 256
                     + blk_td + baseA)) in
         let sourceOffsetB :=
           W (scale ((k_i * num_input_blks xcsKReduction + blk_id) * 128
                     + blk_td + baseB)) in
         trace (execs indexBitwidth workitemId applyTransform convert body
                  (setValue iv k_i m)) =
         trace m ++
         [EvLoad 0 [sourceOffsetA];
          EvStore 4 [k_i] (mem m 0 [sourceOffsetA]);
          EvLoad 1 [sourceOffsetB];
          EvStore 5 [k_i] (mem m 1 [sourceOffsetB])]).
Proof.
  apply (k_reduction_staging (selectAlways xcsKReduction)
           (v2Example 64 64 4 8) v2Operands 14 256 128 4 64 64 4
           I32 I32 I32 I32 I32 xcsKReduction [8192] [8] [8] F32 F32 F32
           3 5 5).
  - reflexivity.
  - reflexivity.
  - reflexivity.
  - reflexivity.
  - reflexivity.
  - right. exists I32. reflexivity.
  - discriminate.
  - reflexivity.
  - reflexivity.
  - reflexivity.
  - reflexivity.
  - right. repeat split; [discriminate|discriminate].
  - reflexivity.
  - reflexivity.
  - simpl. lia.
  - simpl. lia.
  - simpl. lia.
Defined.

(** ** More on the BlockwiseGemmV2 lowering *)

Lemma other_repeats_leave_the_op_in_place_witness :
  exists p s,
    BlockwiseGemmV2RewritePattern.stagingPhase (selectAlways xcsPlain)
      (v2Example 128 128 4 8) v2Operands (initState 14) = Ok (p, s)
    /\ BlockwiseGemmV2RewritePattern.matchAndRewrite (selectAlways xcsPlain)
         (v2Example 128 128 4 8) v2Operands (initState 14) = Ok (success, s)
    /\ emitted s <> []
    /\ xdlopsGemms (emitted s) = []
    /\ replacement s = None.
Proof.
  apply (other_repeats_leave_the_op_in_place (selectAlways xcsPlain)
           (v2Example 128 128 4 8) v2Operands 14 256 128 4 128 128 4
           I32 I32 I32 I32 I32 xcsPlain [8192] [8] [8] F32 F32 F32 3 5 5).
  - reflexivity.
  - reflexivity.
  - reflexivity.
  - reflexivity.
  - reflexivity.
  - right. exists I32. reflexivity.
  - discriminate.
  - reflexivity.
  - reflexivity.
  - reflexivity.
  - reflexivity.
  - right. repeat split; [discriminate|discriminate].
  - reflexivity.
  - reflexivity.
  - discriminate.
  - discriminate.
  - discriminate.
Defined.

Lemma single_tile_is_one_xdlops_gemm_witness :
  exists s x,
    BlockwiseGemmV2RewritePattern.matchAndRewrite (selectAlways xcsPlain)
      (v2Example 64 32 4 8) v2Operands (initState 14) = Ok (success, s)
    /\ xdlopsGemms (emitted s) = [x]
    /\ In (ConstantIndexOp (xd_regOffsetA x) 0) (emitted s)
    /\ xd_regOffsetB x = xd_regOffsetA x
    /\ xd_matrixA x = v2_matrixA v2Operands
    /\ xd_matrixB x = v2_matrixB v2Operands
    /\ xd_ldsBufferOffsetA x = 8
    /\ xd_ldsBufferOffsetB x = 4096
    /\ xd_bufferA x = v2_bufferA v2Operands
    /\ xd_bufferB x = v2_bufferB v2Operands
    /\ xd_vectorCs x = v2_vectorCs v2Operands
    /\ map vty (xd_vectorDs x) = map vty (v2_vectorDs (v2Example 64 32 4 8))
    /\ replacement s = Some (xd_vectorDs x)
    /\ getAttr "m" (xd_attrs x) = Some (IntegerAttr I32 256)
    /\ getAttr "n" (xd_attrs x) = Some (IntegerAttr I32 128)
    /\ getAttr "k" (xd_attrs x) = Some (IntegerAttr I32 4)
    /\ getAttr "m_per_wave" (xd_attrs x) = Some (IntegerAttr I32 64)
    /\ getAttr "n_per_wave" (xd_attrs x) = Some (IntegerAttr I32 32)
    /\ getAttr "kpack" (xd_attrs x) =
       getAttr "kpack" (v2_attrs (v2Example 64 32 4 8)).
Proof.
  apply (single_tile_is_one_xdlops_gemm (selectAlways xcsPlain)
           (v2Example 64 32 4 8) v2Operands 14 256 128 4 64 32 4
           I32 I32 I32 I32 I32 xcsPlain [8192] [8] [8] F32 F32 F32 3 5 5).
  - reflexivity.
  - reflexivity.
  - reflexivity.
  - reflexivity.
  - reflexivity.
  - right. exists I32. reflexivity.
  - discriminate.
  - reflexivity.
  - reflexivity.
  - reflexivity.
  - reflexivity.
  - right. repeat split; [discriminate|discriminate].
  - reflexivity.
  - reflexivity.
  - lia.
  - lia.
Defined.

Lemma two_repeats_along_N_witness :
  BlockwiseGemmV2RewritePattern.MRepeats 32 = 1 /\
  BlockwiseGemmV2RewritePattern.NRepeats 128 = 2 /\
  BlockwiseGemmV2RewritePattern.MPerXdlops 32 = 32 /\
  BlockwiseGemmV2RewritePattern.NPerXdlops 128 = 64 /\
  exists (s : RewriterState) (x0 x1 : XdlopsGemmV2Op) (r0 r1 r2 r3 : Value),
    BlockwiseGemmV2RewritePattern.matchAndRewrite (selectAlways xcsPlain)
      (v2Example 32 128 4 8) v2Operands (initState 14) = Ok (success, s) /\
    xdlopsGemms (emitted s) = [x0; x1] /\
    In (ConstantIndexOp (xd_regOffsetA x0) 0) (emitted s) /\
    In (ConstantIndexOp (xd_regOffsetB x0) 0) (emitted s) /\
    In (ConstantIndexOp (xd_regOffsetA x1) 0) (emitted s) /\
    In (ConstantIndexOp (xd_regOffsetB x1)
          (BlockwiseGemmV2RewritePattern.KPerThread xcsPlain 4))
       (emitted s) /\
    getAttr "m_per_wave" (xd_attrs x0) = Some (getI32IntegerAttr 64) /\
    getAttr "n_per_wave" (xd_attrs x0) = Some (getI32IntegerAttr 64) /\
    getAttr "m_per_wave" (xd_attrs x1) = Some (getI32IntegerAttr 64) /\
    getAttr "n_per_wave" (xd_attrs x1) = Some (getI32IntegerAttr 64) /\
    getAttr "m" (xd_attrs x0) = Some (IntegerAttr I32 256) /\
    getAttr "n" (xd_attrs x0) = Some (IntegerAttr I32 128) /\
    getAttr "k" (xd_attrs x0) = Some (IntegerAttr I32 4) /\
    getAttr "m" (xd_attrs x1) = Some (IntegerAttr I32 256) /\
    getAttr "n" (xd_attrs x1) = Some (IntegerAttr I32 128) /\
    getAttr "k" (xd_attrs x1) = Some (IntegerAttr I32 4) /\
    xd_vectorCs x0 =
      [mkValue 6 (VectorType [32] F32); mkValue 7 (VectorType [32] F32)] /\
    xd_vectorCs x1 =
      [mkValue 8 (VectorType [32] F32); mkValue 9 (VectorType [32] F32)] /\
    xd_vectorDs x0 = [r0; r1] /\
    xd_vectorDs x1 = [r2; r3] /\
    map vty [r0; r1; r2; r3] =
    map vty [mkValue 10 (VectorType [32] F32);
             mkValue 11 (VectorType [32] F32);
             mkValue 12 (VectorType [32] F32);
             mkValue 13 (VectorType [32] F32)] /\
    replacement s = Some [r0; r1; r2; r3].
Proof.
  eapply (two_repeats_along_N (selectAlways xcsPlain) (v2Example 32 128 4 8)
            v2Operands 14 256 128 4 32 128 4 I32 I32 I32 I32 I32 xcsPlain
            [8192] [8] [8] F32 F32 F32 3 5 5).
  - reflexivity.
  - reflexivity.
  - reflexivity.
  - reflexivity.
  - reflexivity.
  - right. exists I32. reflexivity.
  - discriminate.
  - reflexivity.
  - reflexivity.
  - reflexivity.
  - reflexivity.
  - right. repeat split; [discriminate|discriminate].
  - reflexivity.
  - reflexivity.
  - lia.
  - lia.
  - reflexivity.
  - reflexivity.
Defined.

Lemma plain_staging_witness :
  BlockwiseGemmV2RewritePattern.KPerThread xcsPlain 4 = 4 /\
  exists p s pre olmiv preM ilmkiv bodyA olniv preN ilnkiv bodyB,
    BlockwiseGemmV2RewritePattern.stagingPhase (selectAlways xcsPlain)
      (v2Example 64 64 4 8) v2Operands (initState 14) = Ok (p, s)
    /\ emitted s =
       pre ++
       [AffineForOp olmiv 0 (BlockwiseGemmV2RewritePattern.MRepeats 64) 1
          (preM ++
           [AffineForOp ilmkiv 0
              (BlockwiseGemmV2RewritePattern.KPerThread xcsPlain 4) 1
              bodyA]);
        AffineForOp olniv 0 (BlockwiseGemmV2RewritePattern.NRepeats 64) 1
          (preN ++
           [AffineForOp ilnkiv 0
              (BlockwiseGemmV2RewritePattern.KPerThread xcsPlain 4) 1
              bodyB])]
    /\ forall indexBitwidth workitemId applyTransform convert
              (m0 m1 m : Machine) (r_i k_i : Z),
        (forall i, (i < vid olmiv)%nat ->
           env m1 i =
           env (execs indexBitwidth workitemId applyTransform convert
                  pre m0) i) ->
        let W := wrap indexBitwidth in
        let lane :=
          W workitemId mod W BlockwiseGemmV2RewritePattern.waveSize in
        let baseA := getValue m0 (v2_waveOffsetA v2Operands) +
                     int64 (Z.quot 8 4) in
        let baseB := getValue m0 (v2_waveOffsetB v2Operands) +
                     int64 (Z.quot 4096 4) in
        let scale z := if 4 >? 1 then z * 4 else z in
        let sourceOffsetA :=
          W (scale (k_i * 256 + lane
                    + (baseA
                       + BlockwiseGemmV2RewritePattern.MPerXdlops 64
                         * r_i))) in
        let sourceOffsetB :=
          W (scale (k_i * 128 + lane
                    + (baseB
                       + BlockwiseGemmV2RewritePattern.NPerXdlops 64
                         * r_i))) in
        ((forall i, (i < vid ilmkiv)%nat ->
            env m i =
            env (execs indexBitwidth workitemId applyTransform convert
                   preM (setValue olmiv r_i m1)) i) ->
         trace (execs indexBitwidth workitemId applyTransform convert
                  bodyA (setValue ilmkiv k_i m)) =
         trace m ++
         [EvLoad 0 [sourceOffsetA];
          EvStore 4 [W (k_i + r_i * 4)] (mem m 0 [sourceOffsetA])])
        /\
        ((forall i, (i < vid ilnkiv)%nat ->
            env m i =
            env (execs indexBitwidth workitemId applyTransform convert
                   preN (setValue olniv r_i m1)) i) ->
         trace (execs indexBitwidth workitemId applyTransform convert
                  bodyB (setValue ilnkiv k_i m)) =
         trace m ++
         [EvLoad 1 [sourceOffsetB];
          EvStore 5 [W (k_i + r_i * 4)] (mem m 1 [sourceOffsetB])]).
Proof.
  apply (plain_staging (selectAlways xcsPlain) (v2Example 64 64 4 8)
           v2Operands 14 256 128 4 64 64 4 I32 I32 I32 I32 I32 xcsPlain
           [8192] [8] [8] F32 F32 F32 3 5 5).
  - reflexivity.
  - reflexivity.
  - reflexivity.
  - reflexivity.
  - reflexivity.
  - right. exists I32. reflexivity.
  - discriminate.
  - reflexivity.
  - reflexivity.
  - reflexivity.
  - reflexivity.
  - right. repeat split; [discriminate|discriminate].
  - reflexivity.
  - reflexivity.
  - simpl. lia.
  - simpl. lia.
  - reflexivity.
Defined.


(** ** What stops the BlockwiseGemmV2 lowering at its entry *)

Lemma in_int64_rem (a b : Z) : in_int64 a -> b <> 0 -> in_int64 (Z.rem a b).
Proof.
  unfold in_int64. intros Ha Hb.
  pose proof (Z.rem_abs a b Hb) as Habs.
  assert (Hle : Z.rem (Z.abs a) (Z.abs b) <= Z.abs a)
    by (apply Z.rem_le; lia).
  destruct (Z_le_gt_dec 0 a) as [Hs|Hs].
  - pose proof (Z.rem_nonneg a b Hb Hs). lia.
  - assert (Hn : Z.rem a b <= 0) by (apply Z.rem_nonpos; lia). lia.
Qed.

Lemma getIntAttr_not_integer (attrs : NamedAttrList) (name : string)
  (s : RewriterState) :
  (forall t v, getAttr name attrs <> Some (IntegerAttr t v)) ->
  getIntAttr attrs name s =
  Fatal "cast<IntegerAttr>() argument of incompatible type".
Proof.
  intros H. unfold getIntAttr.
  destruct (getAttr name attrs) as [a|]; [|reflexivity].
  destruct a; try reflexivity.
  now elim (H _ _ eq_refl).
Qed.

Lemma getIntAttr_cases (attrs : NamedAttrList) (name : string)
  (s : RewriterState) :
  (exists v, getIntAttr attrs name s = Ok (v, s)) \/
  getIntAttr attrs name s =
  Fatal "cast<IntegerAttr>() argument of incompatible type".
Proof.
  unfold getIntAttr.
  destruct (getAttr name attrs) as [a|]; [|right; reflexivity].
  destruct a; try (right; reflexivity).
  left. eexists. reflexivity.
Qed.

Lemma bind_getIntAttr_fatal {B} (attrs : NamedAttrList) (name : string)
  (k : Z -> Rewriter B) (s : RewriterState) :
  (forall v, getIntAttr attrs name s = Ok (v, s) ->
     k v s = Fatal "cast<IntegerAttr>() argument of incompatible type") ->
  bind (getIntAttr attrs name) k s =
  Fatal "cast<IntegerAttr>() argument of incompatible type".
Proof.
  intros H. destruct (getIntAttr_cases attrs name s) as [[v Hv]|Hv].
  - unfold bind. rewrite Hv. now apply H.
  - now apply run_fatal_bind.
Qed.

Section BlockwiseGemmV2Entry.

Import BlockwiseGemmV2RewritePattern.

Variable XdlopsCodeSelection_get : Ty -> Z -> Z -> option XdlopsCodeSelection.
Variables (op : BlockwiseGemmV2Op) (adaptor : BlockwiseGemmV2OpAdaptor).

(** An attribute among [m], [n], [k], [m_per_wave] and [n_per_wave] that is
    missing or not an integer stops the lowering at the cast of lines
    244-250, whatever the rest of the op is. *)
Theorem missing_size_attribute_aborts (name : string) (s : RewriterState) :
  In name ["m"; "n"; "k"; "m_per_wave"; "n_per_wave"] ->
  (forall t v, getAttr name (v2_attrs op) <> Some (IntegerAttr t v)) ->
  matchAndRewrite XdlopsCodeSelection_get op adaptor s =
  Fatal "cast<IntegerAttr>() argument of incompatible type".
Proof.
  intros Hin Hno.
  unfold matchAndRewrite. apply run_fatal_bind.
  unfold stagingPhase. apply run_fatal_bind.
  unfold prologue.
  pose proof (getIntAttr_not_integer _ _ s Hno) as Hf.
  do 5 (apply bind_getIntAttr_fatal; intros ? ?).
  cbn [In] in Hin.
  destruct Hin as [<-|[<-|[<-|[<-|[<-|[]]]]]]; congruence.
Qed.

Variables (M N K MPerWave NPerWave KPack : Z) (tM tN tK tMW tNW : Ty).

Hypothesis attr_m : getAttr "m" (v2_attrs op) = Some (IntegerAttr tM M).
Hypothesis attr_n : getAttr "n" (v2_attrs op) = Some (IntegerAttr tN N).
Hypothesis attr_k : getAttr "k" (v2_attrs op) = Some (IntegerAttr tK K).
Hypothesis attr_m_per_wave :
  getAttr "m_per_wave" (v2_attrs op) = Some (IntegerAttr tMW MPerWave).
Hypothesis attr_n_per_wave :
  getAttr "n_per_wave" (v2_attrs op) = Some (IntegerAttr tNW NPerWave).
Hypothesis attr_kpack :
  (getAttr "kpack" (v2_attrs op) = None /\ KPack = 1) \/
  (exists t, getAttr "kpack" (v2_attrs op) = Some (IntegerAttr t KPack)).
Hypothesis KPack_nonzero : KPack <> 0.
Hypothesis ldsOffsetA_fits : in_int64 (ldsBufferOffsetA op).
Hypothesis ldsOffsetB_fits : in_int64 (ldsBufferOffsetB op).

Lemma kpack_read :
  (if hasAttr "kpack" (v2_attrs op)
   then getIntAttr (v2_attrs op) "kpack" else ret 1) = ret KPack.
Proof.
  unfold hasAttr, getIntAttr.
  destruct attr_kpack as [[E ->]|[t E]]; now rewrite E.
Qed.

(** The alignment assertions of lines 271-274: an LDS offset of A that is
    not a multiple of [KPack] stops the lowering before anything is
    created, and so does one of B when that of A is aligned. *)
Theorem misaligned_lds_offset_aborts (s : RewriterState) :
  (Z.rem (ldsBufferOffsetA op) KPack <> 0 ->
   matchAndRewrite XdlopsCodeSelection_get op adaptor s =
   Fatal "LDS buffer segment for A is kpack-aligned") /\
  (Z.rem (ldsBufferOffsetA op) KPack = 0 ->
   Z.rem (ldsBufferOffsetB op) KPack <> 0 ->
   matchAndRewrite XdlopsCodeSelection_get op adaptor s =
   Fatal "LDS buffer segment for B is kpack-aligned").
Proof.
  pose proof kpack_read as HKP.
  assert (HA : int64 (Z.rem (ldsBufferOffsetA op) KPack) =
               Z.rem (ldsBufferOffsetA op) KPack)
    by (apply int64_id, in_int64_rem; assumption).
  assert (HB : int64 (Z.rem (ldsBufferOffsetB op) KPack) =
               Z.rem (ldsBufferOffsetB op) KPack)
    by (apply int64_id, in_int64_rem; assumption).
  split.
  - intros Hmis.
    unfold matchAndRewrite. apply run_fatal_bind.
    unfold stagingPhase. apply run_fatal_bind.
    unfold prologue.
    do 6 (eapply run_bind; [solve [run]|]); cbv beta.
    eapply run_bind; [rewrite int64_rem_ok by assumption; reflexivity|].
    apply run_fatal_bind. rewrite HA. unfold assert.
    destruct (Z.eqb_spec (Z.rem (ldsBufferOffsetA op) KPack) 0);
      [contradiction|reflexivity].
  - intros Hal Hmis.
    unfold matchAndRewrite. apply run_fatal_bind.
    unfold stagingPhase. apply run_fatal_bind.
    unfold prologue.
    do 6 (eapply run_bind; [solve [run]|]); cbv beta.
    eapply run_bind; [rewrite int64_rem_ok by assumption; reflexivity|].
    eapply run_bind; [rewrite HA, Hal; reflexivity|].
    eapply run_bind; [rewrite int64_rem_ok by assumption; reflexivity|].
    apply run_fatal_bind. rewrite HB. unfold assert.
    destruct (Z.eqb_spec (Z.rem (ldsBufferOffsetB op) KPack) 0);
      [contradiction|reflexivity].
Qed.

Variable xcs : XdlopsCodeSelection.
Variables (shapeA : list Z) (dataType : Ty) (spaceA : Z).
Hypothesis aligned_A : Z.rem (ldsBufferOffsetA op) KPack = 0.
Hypothesis aligned_B : Z.rem (ldsBufferOffsetB op) KPack = 0.
Hypothesis matrixA_type :
  vty (v2_matrixA adaptor) = MemRefType shapeA dataType spaceA.

Hypothesis KPack_fits : in_int64 KPack.

(** The check of lines 312-316: a [KPack] above 1 that is smaller than the
    selected instruction's [k_base], or not a multiple of it, stops the
    lowering. *)
Theorem kpack_not_multiple_of_k_base_aborts (s : RewriterState) :
  XdlopsCodeSelection_get dataType MPerWave NPerWave = Some xcs ->
  1 < KPack ->
  KPack < k_base xcs \/ (k_base xcs <> 0 /\ Z.rem KPack (k_base xcs) <> 0) ->
  matchAndRewrite XdlopsCodeSelection_get op adaptor s =
  Fatal "kPack is multiple of k_base".
Proof.
  intros selected Hgt Hbad.
  pose proof kpack_read as HKP.
  assert (HremA : (int64 (Z.rem (ldsBufferOffsetA op) KPack) =? 0) = true)
    by (rewrite aligned_A; reflexivity).
  assert (HremB : (int64 (Z.rem (ldsBufferOffsetB op) KPack) =? 0) = true)
    by (rewrite aligned_B; reflexivity).
  unfold matchAndRewrite. apply run_fatal_bind.
  unfold stagingPhase. apply run_fatal_bind.
  unfold prologue.
  do 18 (eapply run_bind; [solve [run]|]); cbv beta.
  apply run_fatal_bind.
  rewrite gtb_true by lia.
  destruct Hbad as [Hlt|[Hnz Hrem]].
  - apply Z.ltb_lt in Hlt. now rewrite Hlt.
  - destruct (KPack <? k_base xcs); [reflexivity|].
    eapply run_bind;
      [rewrite int64_rem_ok by assumption; reflexivity|].
    rewrite int64_id by (apply in_int64_rem; assumption).
    destruct (Z.eqb_spec (Z.rem KPack (k_base xcs)) 0);
      [contradiction|reflexivity].
Qed.

End BlockwiseGemmV2Entry.

Lemma missing_size_attribute_aborts_witness :
  In "k" ["m"; "n"; "k"; "m_per_wave"; "n_per_wave"] /\
  BlockwiseGemmV2RewritePattern.matchAndRewrite (selectAlways xcsPlain)
    (mkBlockwiseGemmV2Op v2Operands
       [("m", IntegerAttr I32 256); ("n", IntegerAttr I32 128);
        ("k", StringAttr "4"); ("m_per_wave", IntegerAttr I32 64);
        ("n_per_wave", IntegerAttr I32 64)]
       8 4096 [])
    v2Operands (initState 14) =
  Fatal "cast<IntegerAttr>() argument of incompatible type".
Proof.
  assert (Hin : In "k" ["m"; "n"; "k"; "m_per_wave"; "n_per_wave"])
    by (cbn; tauto).
  split; [exact Hin|].
  apply (missing_size_attribute_aborts (selectAlways xcsPlain) _ v2Operands
           "k" (initState 14) Hin).
  intros t v. discriminate.
Defined.

Lemma misaligned_lds_offset_aborts_witness :
  BlockwiseGemmV2RewritePattern.matchAndRewrite (selectAlways xcsPlain)
    (v2Example 64 64 4 6) v2Operands (initState 14) =
  Fatal "LDS buffer segment for A is kpack-aligned".
Proof.
  apply (misaligned_lds_offset_aborts (selectAlways xcsPlain)
           (v2Example 64 64 4 6) v2Operands 256 128 4 64 64 4
           I32 I32 I32 I32 I32).
  - reflexivity.
  - reflexivity.
  - reflexivity.
  - reflexivity.
  - reflexivity.
  - right. exists I32. reflexivity.
  - discriminate.
  - unfold in_int64; simpl; lia.
  - unfold in_int64; simpl; lia.
  - discriminate.
Defined.

Lemma kpack_not_multiple_of_k_base_aborts_witness :
  BlockwiseGemmV2RewritePattern.matchAndRewrite (selectAlways xcsKBase4)
    (v2Example 64 64 2 8) v2Operands (initState 14) =
  Fatal "kPack is multiple of k_base".
Proof.
  apply (kpack_not_multiple_of_k_base_aborts (selectAlways xcsKBase4)
           (v2Example 64 64 2 8) v2Operands 256 128 4 64 64 2
           I32 I32 I32 I32 I32) with (xcs := xcsKBase4) (shapeA := [8192])
         (dataType := F32) (spaceA := 3).
  - reflexivity.
  - reflexivity.
  - reflexivity.
  - reflexivity.
  - reflexivity.
  - right. exists I32. reflexivity.
  - discriminate.
  - reflexivity.
  - reflexivity.
  - reflexivity.
  - unfold in_int64; simpl; lia.
  - reflexivity.
  - lia.
  - left. simpl. lia.
Defined.


(** ** More on the BlockwiseGemm lowering *)

Lemma bind_int64_div_fatal {B} (a b : Z) (k : Z -> Rewriter B)
  (s : RewriterState) :
  (b <> 0 -> k (int64 (Z.quot a b)) s = Fatal "integer division by zero") ->
  bind (int64_div a b) k s = Fatal "integer division by zero".
Proof.
  intros H. unfold bind, int64_div.
  destruct (Z.eqb_spec b 0); [reflexivity|]. now apply H.
Qed.

Section BlockwiseGemmShape.

Import BlockwiseGemmRewritePattern.

Variable untransform :
  Value -> list TransformMapAttr -> Value * list TransformMapAttr.
Variables (op : BlockwiseGemmOp) (adaptor : BlockwiseGemmOpAdaptor).
Variables (k m n kPack kB kPackB mC nC : Z).
Variables (elementTypeA elementTypeB elementType : Ty).
Variables (spaceA spaceB spaceC : Z).

Hypothesis matrixA_type :
  vty (bg_matrixA (bg_operands op)) =
  MemRefType [k; m; kPack] elementTypeA spaceA.
Hypothesis matrixB_type :
  vty (bg_matrixB (bg_operands op)) =
  MemRefType [kB; n; kPackB] elementTypeB spaceB.
Hypothesis matrixC_type :
  vty (bg_matrixC (bg_operands op)) = MemRefType [mC; nC] elementType spaceC.

(** Lines 115-136 divide by the per-thread extents and by the repeat
    counts: a per-thread extent of zero, or a thread tile of C smaller than
    the per-thread extent along M or N (a repeat count of zero), stops the
    lowering on a division by zero. *)
Theorem zero_repeat_count_divides_by_zero (s : RewriterState) :
  mPerThreadAttr op = 0 \/ nPerThreadAttr op = 0 \/
  0 <= mC < mPerThreadAttr op \/ 0 <= nC < nPerThreadAttr op ->
  matchAndRewrite untransform op adaptor s =
  Fatal "integer division by zero".
Proof.
  intros H. unfold matchAndRewrite.
  rewrite matrixA_type, matrixB_type, matrixC_type.
  do 10 (eapply run_bind; [solve [run]|]); cbv beta.
  cbn [getShape getElementType].
  apply bind_int64_div_fatal; intros Hm.
  apply bind_int64_div_fatal; intros Hn.
  apply bind_int64_div_fatal; intros Hmr.
  apply bind_int64_div_fatal; intros Hnr.
  exfalso.
  destruct H as [H|[H|[H|H]]]; try contradiction.
  - apply Hmr. rewrite Z.quot_small by lia. reflexivity.
  - apply Hnr. rewrite Z.quot_small by lia. reflexivity.
Qed.

Hypothesis untransform_A : forall maps,
  exists shape elementType space,
    vty (fst (untransform (bg_matrixA adaptor) maps)) =
    MemRefType shape elementType space.
Hypothesis untransform_B : forall maps,
  exists shape elementType space,
    vty (fst (untransform (bg_matrixB adaptor) maps)) =
    MemRefType shape elementType space.
Variable n0 : nat.

Let kPerThread := kPerThreadAttr op.
Let mPerThread := mPerThreadAttr op.
Let nPerThread := nPerThreadAttr op.
Let mRepeat := int64 (Z.quot mC mPerThread).
Let nRepeat := int64 (Z.quot nC nPerThread).

Hypothesis mPerThread_nonzero : mPerThread <> 0.
Hypothesis nPerThread_nonzero : nPerThread <> 0.
Hypothesis mRepeat_nonzero : mRepeat <> 0.
Hypothesis nRepeat_nonzero : nRepeat <> 0.

(** Lines 179-225: the op is replaced, by no value, with one loop over K
    from 0 to [k] in steps of [kPerThread]; only the constant 0 and the two
    register buffers are created outside it.  Each iteration copies A from
    LDS, starting at [(kOffset, 0, threadOffsetA, 0)], into A's registers,
    starting at [(0, 0, 0, 0)], over [kPerThread x mRepeat x mPerThread x
    kPack] index tuples, unrolled and with index differences; copies B
    likewise; and then runs one [threadwise_gemm] on the two register
    buffers viewed as [kPerThread x mC x kPack] and [kPerThread x nC x
    kPack] and on the op's own C. *)
Theorem gemm_runs_once_per_k_step :
  exists (zero threadA threadB kOffset : Value) (next : nat)
         (lcA lcB : list (list Value))
         (chA chB : list (list TransformMapAttr))
         (bodyA bodyB : list Operation) (rA rB : Value)
         (mapA mapB : TransformMapAttr),
    matchAndRewrite untransform op adaptor (initState n0) =
    Ok (success,
        mkRewriterState next
          [ConstantIndexOp zero 0; GpuAllocOp threadA; GpuAllocOp threadB;
           AffineForOp kOffset 0 k kPerThread
             [TransformingForOp lcA
                [[kOffset; zero; bg_threadOffsetA (bg_operands op); zero];
                 [zero; zero; zero; zero]]
                chA [kPerThread; mRepeat; mPerThread; kPack] None true true
                bodyA;
              TransformingForOp lcB
                [[kOffset; zero; bg_threadOffsetB (bg_operands op); zero];
                 [zero; zero; zero; zero]]
                chB [kPerThread; nRepeat; nPerThread; kPack] None true true
                bodyB;
              TransformOp rA threadA mapA; TransformOp rB threadB mapB;
              ThreadwiseGemmOp rA rB (bg_matrixC (bg_operands op))]]
          (Some []))
    /\ vty rA =
       MemRefType [kPerThread; mC; kPack] elementType getPrivateAddressSpace
    /\ vty rB =
       MemRefType [kPerThread; nC; kPack] elementType getPrivateAddressSpace.
Proof.
  set (strideA := TopDownTMBuilder ["k"; "mRepeat"; "mPerThread"; "kpack"]
                    [k; mRepeat; int64 (Z.quot m mRepeat); kPack]
                    [passThrough "k";
                     embed "m" 1 m ["mRepeat"; "mPerThread"]
                       [mRepeatStrideAttr op; 1];
                     passThroughTo ["kpack"] [2%nat] ["kpack"]]).
  set (strideB := TopDownTMBuilder ["k"; "nRepeat"; "nPerThread"; "kpack"]
                    [k; nRepeat; int64 (Z.quot n nRepeat); kPack]
                    [passThrough "k";
                     embed "n" 1 n ["nRepeat"; "nPerThread"]
                       [nRepeatStrideAttr op; 1];
                     passThroughTo ["kpack"] [2%nat] ["kpack"]]).
  destruct (untransform_A [strideA]) as (shA & elA & spA & HA).
  destruct (untransform_B [strideB]) as (shB & elB & spB & HB).
  destruct (untransform (bg_matrixA adaptor) [strideA])
    as [matrixA transformsA] eqn:UA.
  destruct (untransform (bg_matrixB adaptor) [strideB])
    as [matrixB transformsB] eqn:UB.
  cbn [fst] in HA, HB |- *.
  destruct (Ty_eqb elA elementType) eqn:EA;
    destruct (Ty_eqb elB elementType) eqn:EB.
  all: do 15 eexists; split; [|split].
  all: try (unfold matchAndRewrite;
            rewrite matrixA_type, matrixB_type, matrixC_type;
            fold kPerThread mPerThread nPerThread; run).
  all: reflexivity.
Qed.

End BlockwiseGemmShape.

Lemma zero_repeat_count_divides_by_zero_witness :
  BlockwiseGemmRewritePattern.matchAndRewrite untransformNothing
    gemmSmallTile (bg_operands gemmSmallTile) (initState 5) =
  Fatal "integer division by zero".
Proof.
  apply (zero_repeat_count_divides_by_zero untransformNothing gemmSmallTile
           (bg_operands gemmSmallTile) 8 128 128 1 8 1 1 4 F16 F16 F32
           3 3 5).
  - reflexivity.
  - reflexivity.
  - reflexivity.
  - right. right. left. simpl. lia.
Defined.

Lemma gemm_runs_once_per_k_step_witness :
  exists (zero threadA threadB kOffset : Value) (next : nat)
         (loopA loopB : Operation) (rA rB : Value)
         (mapA mapB : TransformMapAttr),
    BlockwiseGemmRewritePattern.matchAndRewrite untransformNothing
      gemmExample (bg_operands gemmExample) (initState 5) =
    Ok (success,
        mkRewriterState next
          [ConstantIndexOp zero 0; GpuAllocOp threadA; GpuAllocOp threadB;
           AffineForOp kOffset 0 8 2
             [loopA; loopB;
              TransformOp rA threadA mapA; TransformOp rB threadB mapB;
              ThreadwiseGemmOp rA rB (mkValue 2 (MemRefType [4; 4] F32 5))]]
          (Some []))
    /\ vty rA = MemRefType [2; 4; 1] F32 getPrivateAddressSpace
    /\ vty rB = MemRefType [2; 4; 1] F32 getPrivateAddressSpace.
Proof.
  destruct (gemm_runs_once_per_k_step untransformNothing gemmExample
              (bg_operands gemmExample) 8 128 128 1 8 1 4 4 F16 F16 F32
              3 3 5)
    with (n0 := 5%nat)
    as (zero & threadA & threadB & kOffset & next & lcA & lcB & chA & chB
        & bodyA & bodyB & rA & rB & mapA & mapB & Hrun & HA & HB).
  - reflexivity.
  - reflexivity.
  - reflexivity.
  - intros maps. do 3 eexists. reflexivity.
  - intros maps. do 3 eexists. reflexivity.
  - discriminate.
  - discriminate.
  - discriminate.
  - discriminate.
  - do 11 eexists. split; [exact Hrun|]. split; assumption.
Defined.


(** ** What a lowered fill leaves in memory *)

Lemma list_Z_eqb_eq (a b : list Z) : list_Z_eqb a b = true <-> a = b.
Proof.
  revert b; induction a as [|x a IH]; intros [|y b]; simpl;
    try (split; [discriminate|discriminate]); [tauto|].
  rewrite andb_true_iff, Z.eqb_eq, IH. split.
  - intros [-> ->]; reflexivity.
  - intros E; inversion E; auto.
Qed.

Lemma existsb_flat_map {A B} (f : B -> bool) (g : A -> list B)
  (l : list A) :
  existsb f (flat_map g l) = existsb (fun a => existsb f (g a)) l.
Proof.
  induction l as [|a l IH]; simpl; [reflexivity|].
  now rewrite existsb_app, IH.
Qed.

Lemma existsb_map {A B} (f : B -> bool) (g : A -> B) (l : list A) :
  existsb f (map g l) = existsb (fun a => f (g a)) l.
Proof.
  induction l as [|a l IH]; simpl; [reflexivity|]. now rewrite IH.
Qed.

Lemma existsb_ext_in {A} (f g : A -> bool) (l : list A) :
  (forall a, In a l -> f a = g a) -> existsb f l = existsb g l.
Proof.
  induction l as [|a l IH]; simpl; intros H; [reflexivity|].
  rewrite H by now left. rewrite IH; [reflexivity|].
  intros; apply H; now right.
Qed.

Section FillMemory.

Import FillRewritePattern.

Variables (indexBitwidth workitemId : Z).
Variable applyTransform : TransformMapAttr -> list Z -> list Z.
Variable convert : Ty -> Ty -> Z -> Z.

Local Abbreviation execs :=
  (execs indexBitwidth workitemId applyTransform convert).

(** The cells a run of the expected nest has written, all with the fill
    value; every other cell is as it was. *)
Lemma mem_expectedNest (value input : Value) (shape : list Z) :
  forall (ivs : list Value) (next : nat) (m : Machine),
    (vid value < next)%nat ->
    Forall (fun iv => (vid iv < next)%nat) ivs ->
    forall (b : nat) (c : list Z),
      mem (execs (expectedNest value input ivs next shape) m) b c =
      if Nat.eqb b (vid input) &&
         existsb (fun c' => list_Z_eqb c (map (getValue m) ivs ++ c'))
                 (box shape [])
      then getValue m value else mem m b c.
Proof.
  induction shape as [|ub shape IH]; intros ivs next m Hv Hivs b c.
  - cbn [expectedNest box existsb]. rewrite execs_cons, execs_nil.
    cbn [exec doStore mem]. now rewrite app_nil_r, orb_false_r.
  - cbn [expectedNest]. rewrite execs_cons, execs_nil, exec_AffineForOp.
    cbn [box hd tl].
    set (iv := mkValue next IndexType).
    set (prefix := map (getValue m) ivs).
    assert (Hloop : forall (range : list Z) (m1 : Machine),
      (forall i, (i < next)%nat -> env m1 i = env m i) ->
      mem (fold_left
             (fun m' i =>
                execs (expectedNest value input (ivs ++ [iv]) (S next) shape)
                  (setValue iv i m')) range m1) b c =
      if Nat.eqb b (vid input) &&
         existsb (fun c' => list_Z_eqb c (prefix ++ c'))
                 (flat_map (fun i => map (cons i) (box shape [])) range)
      then getValue m value else mem m1 b c).
    { induction range as [|i range IHr]; intros m1 Hm1.
      - cbn. now rewrite andb_false_r.
      - cbn [fold_left flat_map].
        assert (Hold : forall j, (j < next)%nat ->
                  env (setValue iv i m1) j = env m j).
        { intros j Hj. simpl.
          destruct (Nat.eqb_spec j next); [lia|now apply Hm1]. }
        assert (Hv' : (vid value < S next)%nat) by lia.
        assert (Hivs' : Forall (fun v => (vid v < S next)%nat) (ivs ++ [iv])).
        { apply Forall_app; split.
          - eapply Forall_impl; [|exact Hivs]. simpl; intros; lia.
          - repeat constructor. }
        destruct (run_expectedNest indexBitwidth workitemId applyTransform
                    convert value input shape (ivs ++ [iv]) (S next)
                    (setValue iv i m1) Hv' Hivs') as [_ He].
        rewrite IHr.
        2:{ intros j Hj. rewrite He by lia. now apply Hold. }
        rewrite (IH (ivs ++ [iv]) (S next) (setValue iv i m1) Hv' Hivs').
        rewrite existsb_app, existsb_map.
        assert (Eprefix : map (getValue (setValue iv i m1)) (ivs ++ [iv]) =
                          prefix ++ [i]).
        { rewrite map_app. cbn [map]. rewrite getValue_setValue_same.
          f_equal. apply map_ext_in. intros w Hw. unfold getValue.
          apply Hold. rewrite Forall_forall in Hivs. now apply Hivs. }
        rewrite Eprefix.
        assert (EV : getValue (setValue iv i m1) value = getValue m value)
          by (unfold getValue; now apply Hold).
        rewrite EV. cbn [mem setValue].
        rewrite (existsb_ext_in
                   (fun a => list_Z_eqb c (prefix ++ i :: a))
                   (fun c' => list_Z_eqb c ((prefix ++ [i]) ++ c')))
          by (intros; now rewrite <- app_assoc).
        destruct (Nat.eqb b (vid input)); cbn [andb]; [|reflexivity].
        destruct (existsb _ (box shape [])); cbn [orb];
          [now destruct (existsb _ _)|reflexivity]. }
    apply Hloop. reflexivity.
Qed.

(** A lowered fill (lines 62-73), once run, leaves the fill value in every
    element of the buffer and nothing else changed: no other buffer, no
    coordinate outside the shape, no SSA value older than the loops.  It
    does as many stores as the product of the extents, none at all when an
    extent is zero or negative. *)
Theorem fill_sets_every_element (op : FillOp) (adaptor : FillOpAdaptor)
  (n0 : nat) (shape : list Z) (elementType : Ty) (space : Z) (m : Machine) :
  vty (fill_input (fill_operands op)) = MemRefType shape elementType space ->
  (vid (fill_value adaptor) < n0)%nat ->
  exists s,
    matchAndRewrite op adaptor (initState n0) = Ok (success, s)
    /\ (forall c, inShape c shape ->
          mem (execs (emitted s) m) (vid (fill_input adaptor)) c =
          getValue m (fill_value adaptor))
    /\ (forall b c, b <> vid (fill_input adaptor) \/ ~ inShape c shape ->
          mem (execs (emitted s) m) b c = mem m b c)
    /\ (forall i, (i < n0)%nat -> env (execs (emitted s) m) i = env m i)
    /\ List.length (trace (execs (emitted s) m)) =
       (List.length (trace m) +
        fold_right (fun b n => Z.to_nat b * n) 1 shape)%nat.
Proof.
  intros Hty Hfresh.
  destruct (run_expectedNest indexBitwidth workitemId applyTransform convert
              (fill_value adaptor) (fill_input adaptor) shape [] n0 m Hfresh
              (Forall_nil _)) as [Htrace Henv].
  eexists. split.
  { unfold matchAndRewrite, bind. rewrite Hty.
    cbn [cast_MemRefType ret getShape].
    rewrite buildAffineLoopNest_store. reflexivity. }
  cbn [emitted app initState nextId replacement].
  pose proof (mem_expectedNest (fill_value adaptor) (fill_input adaptor)
                shape [] n0 m Hfresh (Forall_nil _)) as Hmem.
  cbn [map app] in Hmem.
  split; [|split; [|split]].
  - intros c Hc. rewrite Hmem, Nat.eqb_refl. cbn [andb].
    replace (existsb _ _) with true; [reflexivity|].
    symmetry. apply existsb_exists. exists c. split.
    + now apply In_box.
    + now apply list_Z_eqb_eq.
  - intros b c H. rewrite Hmem.
    destruct (Nat.eqb_spec b (vid (fill_input adaptor))) as [E|E];
      cbn [andb]; [|reflexivity].
    destruct H as [H|H]; [contradiction|].
    replace (existsb _ _) with false; [reflexivity|].
    symmetry. apply not_true_is_false. intros Hex.
    apply existsb_exists in Hex as (c' & Hin & Heq).
    apply list_Z_eqb_eq in Heq. subst c'. apply H. now apply In_box.
  - exact Henv.
  - rewrite Htrace, length_app, length_map, length_box. reflexivity.
Qed.

End FillMemory.

Lemma fill_sets_every_element_witness :
  exists s,
    FillRewritePattern.matchAndRewrite fillExample
      (fill_operands fillExample) (initState 2) = Ok (success, s)
    /\ (forall c, inShape c [2; 3] ->
          mem (execs 64 0 (fun _ c => c) (fun _ _ z => z) (emitted s)
                 machine0) 0 c = 101)
    /\ (forall b c, b <> 0%nat \/ ~ inShape c [2; 3] ->
          mem (execs 64 0 (fun _ c => c) (fun _ _ z => z) (emitted s)
                 machine0) b c = 0)
    /\ (forall i, (i < 2)%nat ->
          env (execs 64 0 (fun _ c => c) (fun _ _ z => z) (emitted s)
                 machine0) i = Z.of_nat i + 100)
    /\ List.length
         (trace (execs 64 0 (fun _ c => c) (fun _ _ z => z) (emitted s)
                   machine0)) = 6%nat.
Proof.
  apply (fill_sets_every_element 64 0 (fun _ c => c) (fun _ _ z => z)
           fillExample (fill_operands fillExample) 2 [2; 3] F32 5 machine0).
  - reflexivity.
  - simpl. lia.
Defined.


(** ** The rules create legal operations only *)

Lemma P_weaken {A} (Q : A -> Prop) (m : Rewriter A) :
  PreservesWith Q m -> Preserves m.
Proof. intros H s a s' HL E. split; [|exact I]. exact (proj1 (H s a s' HL E)). Qed.

Lemma P_ret {A} (a : A) : Preserves (ret a).
Proof. intros s a' s' HL E. inversion E; subst. now split. Qed.

Lemma P_fatal {A} (why : string) : Preserves (@fatal A why).
Proof. intros s a s' HL E. discriminate. Qed.

Lemma P_bind_with {A B} (Q : A -> Prop) (m : Rewriter A)
  (k : A -> Rewriter B) :
  PreservesWith Q m -> (forall a, Q a -> Preserves (k a)) ->
  Preserves (bind m k).
Proof.
  intros Hm Hk s b s' HL E. unfold bind in E.
  destruct (m s) as [[a s1]|why] eqn:Em; [|discriminate].
  destruct (Hm s a s1 HL Em) as [HL1 HQ].
  exact (Hk a HQ s1 b s' HL1 E).
Qed.

Lemma P_bind {A B} (m : Rewriter A) (k : A -> Rewriter B) :
  Preserves m -> (forall a, Preserves (k a)) -> Preserves (bind m k).
Proof. intros Hm Hk. apply (P_bind_with (fun _ => True)); auto. Qed.

Lemma P_fresh (t : Ty) : Preserves (fresh t).
Proof. intros s a s' HL E. inversion E; subst. now split. Qed.

Lemma P_freshs (ts : list Ty) : Preserves (freshs ts).
Proof.
  intros s a s' HL E. rewrite freshs_run in E. inversion E; subst.
  now split.
Qed.

Lemma P_replaceOp (values : list Value) : Preserves (replaceOp values).
Proof. intros s a s' HL E. inversion E; subst. now split. Qed.

Lemma P_emit (o : Operation) :
  allLegal target o = true -> Preserves (emit o).
Proof.
  intros Ho s a s' HL E. inversion E; subst. split; [|exact I].
  unfold LegalState, legalOps in *. cbn [emitted].
  rewrite forallb_app, HL. cbn. now rewrite Ho.
Qed.

(** What has been created in a region is legal when the code that filled
    it creates legal operations only. *)
Lemma P_inRegion {A} (m : Rewriter A) :
  Preserves m ->
  PreservesWith (fun r => legalOps (snd r) = true) (inRegion m).
Proof.
  intros Hm s r s' HL E. unfold inRegion in E.
  destruct (m _) as [[a s1]|why] eqn:Em; [|discriminate].
  inversion E; subst. cbn [snd].
  destruct (Hm _ a s1 (eq_refl : LegalState (mkRewriterState _ [] _)) Em)
    as [HL1 _].
  split; [exact HL|exact HL1].
Qed.

Lemma allLegal_AffineForOp (iv : Value) (lb ub step : Z)
  (body : list Operation) :
  allLegal target (AffineForOp iv lb ub step body) = legalOps body.
Proof.
  cbn [allLegal]. change (getOpAction target _) with Legal. cbn [andb].
  unfold legalOps. induction body as [|o body IH]; [reflexivity|].
  cbn [forallb]. now rewrite <- IH.
Qed.

Lemma allLegal_TransformingForOp lcs sts chs bounds strides fu ud
  (body : list Operation) :
  allLegal target (TransformingForOp lcs sts chs bounds strides fu ud body) =
  legalOps body.
Proof.
  cbn [allLegal]. change (getOpAction target _) with Legal. cbn [andb].
  unfold legalOps. induction body as [|o body IH]; [reflexivity|].
  cbn [forallb]. now rewrite <- IH.
Qed.

Lemma P_create_AffineForOp (lb ub step : Z) (body : Value -> Rewriter unit) :
  (forall iv, Preserves (body iv)) ->
  Preserves (create_AffineForOp lb ub step body).
Proof.
  intros Hb. unfold create_AffineForOp.
  apply P_bind; [apply P_fresh|intros iv].
  eapply P_bind_with; [apply P_inRegion, Hb|intros r Hr].
  apply P_emit. now rewrite allLegal_AffineForOp.
Qed.

Lemma P_create_TransformingForOp starts transforms bounds strides fu ud
  (body : (nat -> list Value) -> Rewriter unit) :
  (forall f, Preserves (body f)) ->
  Preserves (create_TransformingForOp starts transforms bounds strides fu ud
               body).
Proof.
  intros Hb. unfold create_TransformingForOp.
  match goal with
  | |- Preserves (_ ?ds ?k) => set (K := k); set (DS := ds)
  end.
  assert (Hk : forall lowerCoords, Preserves (K lowerCoords)).
  { intros lc. subst K. cbv beta.
    eapply P_bind_with; [apply P_inRegion, Hb|intros r Hr].
    apply P_emit. now rewrite allLegal_TransformingForOp. }
  clearbody K DS. revert K Hk.
  induction DS as [|[st ch] ds IH]; intros k Hk.
  - apply Hk.
  - apply P_bind; [apply P_freshs|intros vs].
    apply IH. intros rest. apply Hk.
Qed.

Lemma P_buildAffineLoopNest (f : list Value -> Rewriter unit) :
  (forall ivs, Preserves (f ivs)) ->
  forall lbs ubs steps ivs,
    Preserves (buildAffineLoopNest lbs ubs steps ivs f).
Proof.
  intros Hf. induction lbs as [|lb lbs IH]; intros ubs steps ivs.
  - destruct ubs, steps; cbn; first [apply Hf | apply P_fatal].
  - destruct ubs as [|ub ubs], steps as [|step steps]; cbn;
      try apply P_fatal.
    apply P_create_AffineForOp. intros iv. apply IH.
Qed.

Lemma allLegal_Operation_setAttr (name : string) (a : Attribute)
  (o : Operation) :
  allLegal target (Operation_setAttr name a o) = allLegal target o.
Proof. destruct o; reflexivity. Qed.

Lemma legalOps_update_nth (i : nat) (name : string) (a : Attribute)
  (l : list Operation) :
  legalOps (update_nth i (Operation_setAttr name a) l) = legalOps l.
Proof.
  unfold legalOps. revert i; induction l as [|o l IH]; intros [|i];
    cbn [update_nth forallb]; try reflexivity.
  - now rewrite allLegal_Operation_setAttr.
  - now rewrite IH.
Qed.

Lemma P_setAttr (h : XdlopsGemmV2Handle) (name : string) (a : Attribute) :
  Preserves (XdlopsGemmV2Op_setAttr h name a).
Proof.
  intros s x s' HL E. inversion E; subst. split; [|exact I].
  unfold LegalState. cbn [emitted]. now rewrite legalOps_update_nth.
Qed.

Lemma P_create_XdlopsGemmV2Op resultTypes matrixA matrixB ldsA ldsB regA regB
  bufferA bufferB vectorCs :
  Preserves (create_XdlopsGemmV2Op resultTypes matrixA matrixB ldsA ldsB
               regA regB bufferA bufferB vectorCs).
Proof.
  unfold create_XdlopsGemmV2Op.
  apply P_bind; [apply P_freshs|intros rs].
  intros s a s' HL E. inversion E; subst. split; [|exact I].
  unfold LegalState, legalOps in *. cbn [emitted].
  rewrite forallb_app, HL. reflexivity.
Qed.

(** Follows a rewriter along its binds, branches and regions. *)
Ltac head_of t :=
  lazymatch t with
  | ?f _ => head_of f
  | _ => t
  end.

Ltac preserves_step :=
  cbv beta zeta;
  lazymatch goal with
  | |- Preserves (ret _) => apply P_ret
  | |- Preserves (fatal _) => apply P_fatal
  | |- Preserves (fresh _) => apply P_fresh
  | |- Preserves (freshs _) => apply P_freshs
  | |- Preserves (replaceOp _) => apply P_replaceOp
  | |- Preserves (XdlopsGemmV2Op_setAttr _ _ _) => apply P_setAttr
  | |- Preserves (create_XdlopsGemmV2Op _ _ _ _ _ _ _ _ _ _) =>
      apply P_create_XdlopsGemmV2Op
  | |- Preserves (emit _) => apply P_emit; reflexivity
  | |- Preserves (create_AffineForOp _ _ _ _) =>
      apply P_create_AffineForOp; intros ?
  | |- Preserves (create_TransformingForOp _ _ _ _ _ _ _) =>
      apply P_create_TransformingForOp; intros ?
  | |- Preserves (buildAffineLoopNest _ _ _ _ _) =>
      apply P_buildAffineLoopNest; intros ?
  | |- Preserves (bind _ _) => apply P_bind; [|intros ?]
  | |- Preserves (if ?c then _ else _) => destruct c
  | |- Preserves (match ?x with _ => _ end) => destruct x
  | |- Preserves ?m => let h := head_of m in unfold h
  end.

Ltac preserves := repeat preserves_step.

Lemma P_copy (op : ThreadwiseCopyV2Op) :
  Preserves (ThreadwiseCopyV2RewritePattern.matchAndRewrite op).
Proof. unfold ThreadwiseCopyV2RewritePattern.matchAndRewrite. preserves. Qed.

Lemma P_fill (op : FillOp) (adaptor : FillOpAdaptor) :
  Preserves (FillRewritePattern.matchAndRewrite op adaptor).
Proof. unfold FillRewritePattern.matchAndRewrite. preserves. Qed.

Lemma P_gemm untransform (op : BlockwiseGemmOp)
  (adaptor : BlockwiseGemmOpAdaptor) :
  Preserves (BlockwiseGemmRewritePattern.matchAndRewrite untransform op
               adaptor).
Proof. unfold BlockwiseGemmRewritePattern.matchAndRewrite. preserves. Qed.

Lemma P_gemm_v2 get (op : BlockwiseGemmV2Op)
  (adaptor : BlockwiseGemmV2OpAdaptor) :
  Preserves (BlockwiseGemmV2RewritePattern.matchAndRewrite get op adaptor).
Proof.
  unfold BlockwiseGemmV2RewritePattern.matchAndRewrite,
    BlockwiseGemmV2RewritePattern.stagingPhase,
    BlockwiseGemmV2RewritePattern.prologue,
    BlockwiseGemmV2RewritePattern.stageNonKReduction,
    BlockwiseGemmV2RewritePattern.stageKReduction,
    BlockwiseGemmV2RewritePattern.emitXdlops.
  preserves.
Qed.

(** Whichever rule of the pass (lines 662-665) applies to an operation,
    every operation it creates, inside loops included, belongs to one of
    the dialects the pass declares legal and is none of the four
    operations it declares illegal (lines 655-660): what a rule creates
    never needs another rewrite. *)
Theorem rules_create_legal_operations_only
  (XdlopsCodeSelection_get : Ty -> Z -> Z -> option XdlopsCodeSelection)
  (untransform : Value -> list TransformMapAttr ->
                 Value * list TransformMapAttr)
  (mp : Mapping) (o : Operation) (rw : Rewriter LogicalResult) (n : nat)
  (r : LogicalResult) (s : RewriterState) :
  matchPattern (patterns XdlopsCodeSelection_get untransform) mp o =
  Some rw ->
  rw (initState n) = Ok (r, s) ->
  forallb (allLegal target) (emitted s) = true.
Proof.
  intros Hmatch Hrun.
  assert (HP : Preserves rw).
  { unfold patterns in Hmatch. cbn [matchPattern] in Hmatch.
    unfold FillPattern, BlockwiseGemmPattern, BlockwiseGemmV2Pattern,
      ThreadwiseCopyV2Pattern in Hmatch.
    destruct o; try discriminate Hmatch;
      injection Hmatch as <-.
    - apply P_fill.
    - apply P_gemm.
    - apply P_gemm_v2.
    - apply P_copy. }
  exact (proj1 (HP (initState n) r s eq_refl Hrun)).
Qed.

Lemma rules_create_legal_operations_only_witness :
  exists s,
    BlockwiseGemmV2RewritePattern.matchAndRewrite (selectAlways xcsPlain)
      (v2Example 128 64 4 8) v2Operands (initState 14) = Ok (success, s)
    /\ forallb (allLegal target) (emitted s) = true.
Proof.
  eexists. split; [vm_compute; reflexivity|].
  eapply (rules_create_legal_operations_only (selectAlways xcsPlain)
            untransformNothing [] (BlockwiseGemmV2 (v2Example 128 64 4 8))
            _ 14 success).
  - reflexivity.
  - vm_compute. reflexivity.
Defined.

Lemma lds_offset_round_trips_witness :
  exists p s pre olmiv preM ilmkiv bodyA olniv preN ilnkiv bodyB,
    BlockwiseGemmV2RewritePattern.stagingPhase (selectAlways xcsPlain)
      (v2Example 64 64 4 8) v2Operands (initState 14) = Ok (p, s)
    /\ emitted s =
       pre ++
       [AffineForOp olmiv 0 (BlockwiseGemmV2RewritePattern.MRepeats 64) 1
          (preM ++
           [AffineForOp ilmkiv 0
              (BlockwiseGemmV2RewritePattern.KPerThread xcsPlain 4) 1
              bodyA]);
        AffineForOp olniv 0 (BlockwiseGemmV2RewritePattern.NRepeats 64) 1
          (preN ++
           [AffineForOp ilnkiv 0
              (BlockwiseGemmV2RewritePattern.KPerThread xcsPlain 4) 1
              bodyB])]
    /\ forall indexBitwidth workitemId applyTransform convert
              (m0 m1 m : Machine) (r_i k_i : Z),
        (forall i, (i < vid olmiv)%nat ->
           env m1 i =
           env (execs indexBitwidth workitemId applyTransform convert
                  pre m0) i) ->
        let W := wrap indexBitwidth in
        let lane :=
          W workitemId mod W BlockwiseGemmV2RewritePattern.waveSize in
        ((forall i, (i < vid ilmkiv)%nat ->
            env m i =
            env (execs indexBitwidth workitemId applyTransform convert
                   preM (setValue olmiv r_i m1)) i) ->
         exists v d,
           trace (execs indexBitwidth workitemId applyTransform convert
                    bodyA (setValue ilmkiv k_i m)) =
           trace m ++
           [EvLoad 0
              [W ((k_i * 256 + lane
                   + BlockwiseGemmV2RewritePattern.MPerXdlops 64 * r_i
                   + getValue m0 (v2_waveOffsetA v2Operands)) * 4 + 8)];
            EvStore 4 [d] v])
        /\
        ((forall i, (i < vid ilnkiv)%nat ->
            env m i =
            env (execs indexBitwidth workitemId applyTransform convert
                   preN (setValue olniv r_i m1)) i) ->
         exists v d,
           trace (execs indexBitwidth workitemId applyTransform convert
                    bodyB (setValue ilnkiv k_i m)) =
           trace m ++
           [EvLoad 1
              [W ((k_i * 128 + lane
                   + BlockwiseGemmV2RewritePattern.NPerXdlops 64 * r_i
                   + getValue m0 (v2_waveOffsetB v2Operands)) * 4 + 4096)];
            EvStore 5 [d] v]).
Proof.
  apply (lds_offset_round_trips (selectAlways xcsPlain)
           (v2Example 64 64 4 8) v2Operands 14 256 128 4 64 64 4
           I32 I32 I32 I32 I32 xcsPlain [8192] [8] [8] F32 F32 F32 3 5 5).
  - reflexivity.
  - reflexivity.
  - reflexivity.
  - reflexivity.
  - reflexivity.
  - right. exists I32. reflexivity.
  - discriminate.
  - reflexivity.
  - reflexivity.
  - reflexivity.
  - reflexivity.
  - right. repeat split; [discriminate|discriminate].
  - reflexivity.
  - reflexivity.
  - simpl. lia.
  - simpl. lia.
  - reflexivity.
  - lia.
  - unfold in_int64; simpl; lia.
  - unfold in_int64; simpl; lia.
Defined.

(** ** The tile of a wave and the tile of an instruction *)

(** Lines 263-266 split a wave's extent into repeats of at most 64: the
    repeats times the instruction's extent give the wave's extent back
    exactly when it is at most 64 or a multiple of 64; otherwise the part
    above the last multiple of 64 is not covered. *)
Theorem repeats_cover_the_wave_tile (w : Z) :
  0 < w ->
  (BlockwiseGemmV2RewritePattern.MRepeats w *
   BlockwiseGemmV2RewritePattern.MPerXdlops w = w <->
   w <= 64 \/ Z.rem w 64 = 0)
  /\ BlockwiseGemmV2RewritePattern.MRepeats w *
     BlockwiseGemmV2RewritePattern.MPerXdlops w <= w
  /\ BlockwiseGemmV2RewritePattern.NRepeats w =
     BlockwiseGemmV2RewritePattern.MRepeats w
  /\ BlockwiseGemmV2RewritePattern.NPerXdlops w =
     BlockwiseGemmV2RewritePattern.MPerXdlops w.
Proof.
  intros Hw.
  unfold BlockwiseGemmV2RewritePattern.MRepeats,
    BlockwiseGemmV2RewritePattern.MPerXdlops,
    BlockwiseGemmV2RewritePattern.NRepeats,
    BlockwiseGemmV2RewritePattern.NPerXdlops.
  destruct (w >? 64) eqn:E.
  - apply gtb_true_inv in E.
    pose proof (Z.quot_rem' w 64) as Hqr.
    assert (Hr : 0 <= Z.rem w 64 < 64) by (apply Z.rem_bound_pos; lia).
    repeat split; lia.
  - apply gtb_false_inv in E. repeat split; lia.
Qed.

Lemma repeats_cover_the_wave_tile_witness :
  (BlockwiseGemmV2RewritePattern.MRepeats 96 *
   BlockwiseGemmV2RewritePattern.MPerXdlops 96 = 96 <->
   96 <= 64 \/ Z.rem 96 64 = 0)
  /\ BlockwiseGemmV2RewritePattern.MRepeats 96 *
     BlockwiseGemmV2RewritePattern.MPerXdlops 96 <= 96
  /\ BlockwiseGemmV2RewritePattern.NRepeats 96 =
     BlockwiseGemmV2RewritePattern.MRepeats 96
  /\ BlockwiseGemmV2RewritePattern.NPerXdlops 96 =
     BlockwiseGemmV2RewritePattern.MPerXdlops 96.
Proof. apply (repeats_cover_the_wave_tile 96). lia. Defined.

(** ** The LDS offsets of BlockwiseGemmV2: alignment, base and round trip *)

(** C3: at its entry the lowering stops when the LDS offset of A, or that of
    B, is not a multiple of [KPack] (lines 271-274), before it creates
    anything.  When both are multiples, [KPack > 1] and there is no K
    reduction, the base of the addresses of A is
    [waveOffsetA + ldsOffsetA / KPack] (lines 288-293); the staging loop
    loads A at [(k_i * M + laneId + (base + MPerXdlops * r_i)) * KPack]
    (lines 384-386), which is
    [(k_i * M + laneId + MPerXdlops * r_i + waveOffsetA) * KPack +
    ldsOffsetA]: the division is undone exactly.  B likewise. *)
Theorem lds_offsets_are_kpack_aligned
  (XdlopsCodeSelection_get : Ty -> Z -> Z -> option XdlopsCodeSelection)
  (op : BlockwiseGemmV2Op) (adaptor : BlockwiseGemmV2OpAdaptor) (n0 : nat)
  (M N K MPerWave NPerWave KPack : Z) (tM tN tK tMW tNW : Ty)
  (xcs : XdlopsCodeSelection)
  (shapeA shapeBufferA shapeBufferB : list Z)
  (dataType elementTypeA elementTypeB : Ty)
  (spaceA spaceBufferA spaceBufferB : Z) :
  getAttr "m" (v2_attrs op) = Some (IntegerAttr tM M) ->
  getAttr "n" (v2_attrs op) = Some (IntegerAttr tN N) ->
  getAttr "k" (v2_attrs op) = Some (IntegerAttr tK K) ->
  getAttr "m_per_wave" (v2_attrs op) = Some (IntegerAttr tMW MPerWave) ->
  getAttr "n_per_wave" (v2_attrs op) = Some (IntegerAttr tNW NPerWave) ->
  (getAttr "kpack" (v2_attrs op) = None /\ KPack = 1) \/
  (exists t, getAttr "kpack" (v2_attrs op) = Some (IntegerAttr t KPack)) ->
  KPack <> 0 ->
  in_int64 (ldsBufferOffsetA op) -> in_int64 (ldsBufferOffsetB op) ->
  (Z.rem (ldsBufferOffsetA op) KPack <> 0 ->
   BlockwiseGemmV2RewritePattern.matchAndRewrite XdlopsCodeSelection_get op
     adaptor (initState n0) =
   Fatal "LDS buffer segment for A is kpack-aligned")
  /\ (Z.rem (ldsBufferOffsetA op) KPack = 0 ->
      Z.rem (ldsBufferOffsetB op) KPack <> 0 ->
      BlockwiseGemmV2RewritePattern.matchAndRewrite XdlopsCodeSelection_get
        op adaptor (initState n0) =
      Fatal "LDS buffer segment for B is kpack-aligned")
  /\ (Z.rem (ldsBufferOffsetA op) KPack = 0 ->
      Z.rem (ldsBufferOffsetB op) KPack = 0 ->
      vty (v2_matrixA adaptor) = MemRefType shapeA dataType spaceA ->
      XdlopsCodeSelection_get dataType MPerWave NPerWave = Some xcs ->
      k_base xcs <= KPack /\ k_base xcs <> 0
      /\ Z.rem KPack (k_base xcs) = 0 ->
      vty (v2_bufferA adaptor) =
        MemRefType shapeBufferA elementTypeA spaceBufferA ->
      vty (v2_bufferB adaptor) =
        MemRefType shapeBufferB elementTypeB spaceBufferB ->
      (vid (v2_waveOffsetA adaptor) < n0)%nat ->
      (vid (v2_waveOffsetB adaptor) < n0)%nat ->
      BlockwiseGemmV2RewritePattern.IsKReduction xcs = false ->
      1 < KPack ->
      exists p s pre olmiv preM ilmkiv bodyA olniv preN ilnkiv bodyB,
        BlockwiseGemmV2RewritePattern.stagingPhase XdlopsCodeSelection_get
          op adaptor (initState n0) = Ok (p, s)
        /\ BlockwiseGemmV2RewritePattern.matchAndRewrite
             XdlopsCodeSelection_get op adaptor (initState n0) =
           BlockwiseGemmV2RewritePattern.emitXdlops op adaptor MPerWave
             NPerWave (BlockwiseGemmV2RewritePattern.p_staging p) s
        /\ emitted s =
           pre ++
           [AffineForOp olmiv 0
              (BlockwiseGemmV2RewritePattern.MRepeats MPerWave) 1
              (preM ++
               [AffineForOp ilmkiv 0
                  (BlockwiseGemmV2RewritePattern.KPerThread xcs K) 1 bodyA]);
            AffineForOp olniv 0
              (BlockwiseGemmV2RewritePattern.NRepeats NPerWave) 1
              (preN ++
               [AffineForOp ilnkiv 0
                  (BlockwiseGemmV2RewritePattern.KPerThread xcs K) 1 bodyB])]
        /\ forall indexBitwidth workitemId applyTransform convert
                  (m0 m1 m : Machine) (r_i k_i : Z),
            (forall i, (i < vid olmiv)%nat ->
               env m1 i =
               env (execs indexBitwidth workitemId applyTransform convert
                      pre m0) i) ->
            let W := wrap indexBitwidth in
            let lane :=
              W workitemId mod W BlockwiseGemmV2RewritePattern.waveSize in
            let baseA := getValue m0 (v2_waveOffsetA adaptor) +
                         Z.quot (ldsBufferOffsetA op) KPack in
            let baseB := getValue m0 (v2_waveOffsetB adaptor) +
                         Z.quot (ldsBufferOffsetB op) KPack in
            let sourceOffsetA :=
              W ((k_i * M + lane
                  + (baseA
                     + BlockwiseGemmV2RewritePattern.MPerXdlops MPerWave
                       * r_i)) * KPack) in
            let sourceOffsetB :=
              W ((k_i * N + lane
                  + (baseB
                     + BlockwiseGemmV2RewritePattern.NPerXdlops NPerWave
                       * r_i)) * KPack) in
            ((forall i, (i < vid ilmkiv)%nat ->
                env m i =
                env (execs indexBitwidth workitemId applyTransform convert
                       preM (setValue olmiv r_i m1)) i) ->
             trace (execs indexBitwidth workitemId applyTransform convert
                      bodyA (setValue ilmkiv k_i m)) =
             trace m ++
             [EvLoad (vid (v2_matrixA (v2_operands op))) [sourceOffsetA];
              EvStore (vid (v2_bufferA adaptor)) [W (k_i + r_i * K)]
                (mem m (vid (v2_matrixA (v2_operands op)))
                   [sourceOffsetA])])
            /\
            ((forall i, (i < vid ilnkiv)%nat ->
                env m i =
                env (execs indexBitwidth workitemId applyTransform convert
                       preN (setValue olniv r_i m1)) i) ->
             trace (execs indexBitwidth workitemId applyTransform convert
                      bodyB (setValue ilnkiv k_i m)) =
             trace m ++
             [EvLoad (vid (v2_matrixB (v2_operands op))) [sourceOffsetB];
              EvStore (vid (v2_bufferB adaptor)) [W (k_i + r_i * K)]
                (mem m (vid (v2_matrixB (v2_operands op)))
                   [sourceOffsetB])])
            /\ sourceOffsetA =
               W ((k_i * M + lane
                   + BlockwiseGemmV2RewritePattern.MPerXdlops MPerWave * r_i
                   + getValue m0 (v2_waveOffsetA adaptor)) * KPack
                  + ldsBufferOffsetA op)
            /\ sourceOffsetB =
               W ((k_i * N + lane
                   + BlockwiseGemmV2RewritePattern.NPerXdlops NPerWave * r_i
                   + getValue m0 (v2_waveOffsetB adaptor)) * KPack
                  + ldsBufferOffsetB op)).
Proof.
  intros attr_m attr_n attr_k attr_mpw attr_npw attr_kpack HK0 HfA HfB.
  pose proof (kpack_read op KPack attr_kpack HK0) as HKP.
  assert (HA : int64 (Z.rem (ldsBufferOffsetA op) KPack) =
               Z.rem (ldsBufferOffsetA op) KPack)
    by (apply int64_id, in_int64_rem; assumption).
  assert (HB : int64 (Z.rem (ldsBufferOffsetB op) KPack) =
               Z.rem (ldsBufferOffsetB op) KPack)
    by (apply int64_id, in_int64_rem; assumption).
  split; [|split].
  - intros Hmis.
    unfold BlockwiseGemmV2RewritePattern.matchAndRewrite.
    apply run_fatal_bind.
    unfold BlockwiseGemmV2RewritePattern.stagingPhase. apply run_fatal_bind.
    unfold BlockwiseGemmV2RewritePattern.prologue.
    do 6 (eapply run_bind; [solve [run]|]); cbv beta.
    eapply run_bind; [rewrite int64_rem_ok by assumption; reflexivity|].
    apply run_fatal_bind. rewrite HA. unfold assert.
    destruct (Z.eqb_spec (Z.rem (ldsBufferOffsetA op) KPack) 0);
      [contradiction|reflexivity].
  - intros Hal Hmis.
    unfold BlockwiseGemmV2RewritePattern.matchAndRewrite.
    apply run_fatal_bind.
    unfold BlockwiseGemmV2RewritePattern.stagingPhase. apply run_fatal_bind.
    unfold BlockwiseGemmV2RewritePattern.prologue.
    do 6 (eapply run_bind; [solve [run]|]); cbv beta.
    eapply run_bind; [rewrite int64_rem_ok by assumption; reflexivity|].
    eapply run_bind; [rewrite HA, Hal; reflexivity|].
    eapply run_bind; [rewrite int64_rem_ok by assumption; reflexivity|].
    apply run_fatal_bind. rewrite HB. unfold assert.
    destruct (Z.eqb_spec (Z.rem (ldsBufferOffsetB op) KPack) 0);
      [contradiction|reflexivity].
  - intros HalA HalB HtA Hsel Hfits HtbA HtbB HwA HwB HKr HKP1.
    exact (aligned_offset_events XdlopsCodeSelection_get op adaptor n0 M N K
             MPerWave NPerWave KPack tM tN tK tMW tNW xcs shapeA shapeBufferA
             shapeBufferB dataType elementTypeA elementTypeB spaceA
             spaceBufferA spaceBufferB attr_m attr_n attr_k attr_mpw attr_npw
             attr_kpack HK0 HalA HalB HtA Hsel (or_intror Hfits) HtbA HtbB
             HwA HwB HKr HKP1 HfA HfB).
Qed.

Lemma lds_offsets_are_kpack_aligned_witness :
  exists p s pre olmiv preM ilmkiv bodyA olniv preN ilnkiv bodyB,
    BlockwiseGemmV2RewritePattern.stagingPhase (selectAlways xcsPlain)
      (v2Example 64 64 4 8) v2Operands (initState 14) = Ok (p, s)
    /\ emitted s =
       pre ++
       [AffineForOp olmiv 0 (BlockwiseGemmV2RewritePattern.MRepeats 64) 1
          (preM ++
           [AffineForOp ilmkiv 0
              (BlockwiseGemmV2RewritePattern.KPerThread xcsPlain 4) 1
              bodyA]);
        AffineForOp olniv 0 (BlockwiseGemmV2RewritePattern.NRepeats 64) 1
          (preN ++
           [AffineForOp ilnkiv 0
              (BlockwiseGemmV2RewritePattern.KPerThread xcsPlain 4) 1
              bodyB])]
    /\ forall indexBitwidth workitemId applyTransform convert
              (m0 m1 m : Machine) (r_i k_i : Z),
        (forall i, (i < vid olmiv)%nat ->
           env m1 i =
           env (execs indexBitwidth workitemId applyTransform convert
                  pre m0) i) ->
        (forall i, (i < vid ilmkiv)%nat ->
           env m i =
           env (execs indexBitwidth workitemId applyTransform convert
                  preM (setValue olmiv r_i m1)) i) ->
        let W := wrap indexBitwidth in
        let lane :=
          W workitemId mod W BlockwiseGemmV2RewritePattern.waveSize in
        let sourceOffsetA :=
          W ((k_i * 256 + lane
              + (getValue m0 (v2_waveOffsetA v2Operands) + 2
                 + BlockwiseGemmV2RewritePattern.MPerXdlops 64 * r_i))
             * 4) in
        trace (execs indexBitwidth workitemId applyTransform convert
                 bodyA (setValue ilmkiv k_i m)) =
        trace m ++
        [EvLoad 0 [sourceOffsetA];
         EvStore 4 [W (k_i + r_i * 4)] (mem m 0 [sourceOffsetA])]
        /\ sourceOffsetA =
           W ((k_i * 256 + lane
               + BlockwiseGemmV2RewritePattern.MPerXdlops 64 * r_i
               + getValue m0 (v2_waveOffsetA v2Operands)) * 4 + 8).
Proof.
  destruct (lds_offsets_are_kpack_aligned (selectAlways xcsPlain)
              (v2Example 64 64 4 8) v2Operands 14 256 128 4 64 64 4
              I32 I32 I32 I32 I32 xcsPlain [8192] [8] [8] F32 F32 F32 3 5 5)
    as (_ & _ & H).
  - reflexivity.
  - reflexivity.
  - reflexivity.
  - reflexivity.
  - reflexivity.
  - right. exists I32. reflexivity.
  - discriminate.
  - unfold in_int64; simpl; lia.
  - unfold in_int64; simpl; lia.
  - destruct H as (p & s & pre & olmiv & preM & ilmkiv & bodyA & olniv
                   & preN & ilnkiv & bodyB & Hrun & _ & Hemit & Hsem).
    + reflexivity.
    + reflexivity.
    + reflexivity.
    + reflexivity.
    + repeat split; discriminate.
    + reflexivity.
    + reflexivity.
    + simpl. lia.
    + simpl. lia.
    + reflexivity.
    + lia.
    + exists p, s, pre, olmiv, preM, ilmkiv, bodyA, olniv, preN, ilnkiv,
        bodyB.
      split; [exact Hrun|]. split; [exact Hemit|].
      intros ibw wid aT cv m0 m1 m r_i k_i Hpre Hagree.
      destruct (Hsem ibw wid aT cv m0 m1 m r_i k_i Hpre)
        as (HA & _ & HrA & _).
      split; [exact (HA Hagree)|exact HrA].
Defined.

(** Induction on operations through their regions. *)
Lemma Operation_region_ind (P : Operation -> Prop) :
  (forall o, (forall x, In x (getRegionOps o) -> P x) -> P o) ->
  forall o, P o.
Proof.
  intros H. fix IH 1. intros o. apply H.
  destruct o; cbn [getRegionOps]; try (intros x []).
  - revert body. fix IHl 1. intros [|y l] x Hx; [elim Hx|].
    destruct Hx as [<-|Hx]; [apply IH|exact (IHl l x Hx)].
  - revert body. fix IHl 1. intros [|y l] x Hx; [elim Hx|].
    destruct Hx as [<-|Hx]; [apply IH|exact (IHl l x Hx)].
  - revert regions. fix IHl 1. intros [|y l] x Hx; [elim Hx|].
    destruct Hx as [<-|Hx]; [apply IH|exact (IHl l x Hx)].
Qed.


(** ** Repeats the lowering has no branch for *)

(** C2: with [m_per_wave = 128] and [n_per_wave = 128] the repeats are 2
    and 2, and the rule stops nowhere: it returns success (line 619) with
    the staging code created, no [xdlops_gemm_v2] among it, and the op not
    replaced. *)
Theorem two_by_two_repeats_raise_no_error :
  BlockwiseGemmV2RewritePattern.MRepeats 128 = 2 /\
  BlockwiseGemmV2RewritePattern.NRepeats 128 = 2 /\
  exists s,
    BlockwiseGemmV2RewritePattern.matchAndRewrite (selectAlways xcsPlain)
      (v2Example 128 128 4 8) v2Operands (initState 14) = Ok (success, s)
    /\ replacement s = None
    /\ xdlopsGemms (emitted s) = []
    /\ emitted s <> [].
Proof.
  split; [reflexivity|]. split; [reflexivity|].
  remember (BlockwiseGemmV2RewritePattern.matchAndRewrite
              (selectAlways xcsPlain) (v2Example 128 128 4 8) v2Operands
              (initState 14)) as r eqn:E.
  vm_compute in E. subst r.
  eexists. split; [reflexivity|].
  split; [reflexivity|]. split; [reflexivity|discriminate].
Qed.

(** ** The pass *)

Section Driver.

Variable XdlopsCodeSelection_get : Ty -> Z -> Z -> option XdlopsCodeSelection.
Variable untransform :
  Value -> list TransformMapAttr -> Value * list TransformMapAttr.

Local Abbreviation rules := (patterns XdlopsCodeSelection_get untransform).

(** Where the driver finds nothing to do, no illegal operation is left. *)
Lemma stepOp_NothingToDo (next : nat) (mp : Mapping) :
  forall o, stepOp target rules next mp o = NothingToDo ->
            hasIllegal target o = false.
Proof.
  assert (Hlist : forall l : list Operation,
            (forall x, In x l ->
               stepOp target rules next mp x = NothingToDo ->
               hasIllegal target x = false) ->
            (fix stepList (l : list Operation) : Step :=
               match l with
               | [] => NothingToDo
               | x :: l' =>
                   match stepOp target rules next mp x with
                   | NothingToDo =>
                       match stepList l' with
                       | Rewrote l'' n' mp' => Rewrote (x :: l'') n' mp'
                       | r => r
                       end
                   | Rewrote xs n' mp' => Rewrote (xs ++ l') n' mp'
                   | r => r
                   end
               end) l = NothingToDo ->
            (fix any (l : list Operation) : bool :=
               match l with
               | [] => false
               | x :: l' => hasIllegal target x || any l'
               end) l = false).
  { induction l as [|x l IHl]; intros Hall H; [reflexivity|].
    destruct (stepOp target rules next mp x) eqn:Ex; try discriminate H.
    rewrite (Hall x (or_introl eq_refl) Ex). cbn [orb].
    apply IHl; [intros y Hy; apply Hall; now right|].
    match type of H with
    | match ?t with _ => _ end = _ => destruct t; try discriminate H
    end.
    reflexivity. }
  induction o as [o IH] using Operation_region_ind.
  destruct o; cbn [stepOp hasIllegal getRegionOps] in *;
    match goal with
    | |- context [isIllegal target ?o] =>
        destruct (isIllegal target o) eqn:Eill
    end;
    cbn [orb];
    try (intros _; reflexivity).
  all: try discriminate Eill.
  all: try (unfold legalizeRoot; cbn [matchPattern patterns FillPattern
              BlockwiseGemmPattern BlockwiseGemmV2Pattern
              ThreadwiseCopyV2Pattern];
            intros H; exfalso; revert H;
            repeat match goal with
                   | |- match ?t with _ => _ end = _ -> _ => destruct t
                   end; discriminate).
  all: intros H; apply Hlist;
    [exact IH
    |match type of H with
     | match ?t with _ => _ end = _ => destruct t; try discriminate H
     end; reflexivity].
Qed.

Lemma stepList_NothingToDo (next : nat) (mp : Mapping) (l : list Operation) :
  stepList target rules next mp l = NothingToDo ->
  anyIllegal target l = false.
Proof.
  unfold anyIllegal.
  induction l as [|x l IHl]; intros H; [reflexivity|].
  cbn [stepList] in H. cbn [existsb].
  destruct (stepOp target rules next mp x) eqn:Ex; try discriminate H.
  rewrite (stepOp_NothingToDo next mp x Ex). cbn [orb].
  apply IHl.
  destruct (stepList target rules next mp l); try discriminate H.
  reflexivity.
Qed.

Lemma applyPartialConversion_Converged (fuel : nat) :
  forall next mp ir ir' mp',
    applyPartialConversion fuel target rules next mp ir = Converged ir' mp' ->
    anyIllegal target ir' = false.
Proof.
  induction fuel as [|fuel IH]; intros next mp ir ir' mp' H;
    cbn [applyPartialConversion] in H;
    destruct (stepList target rules next mp ir) eqn:Es; try discriminate H.
  - injection H as <- _. exact (stepList_NothingToDo _ _ _ Es).
  - injection H as <- _. exact (stepList_NothingToDo _ _ _ Es).
  - exact (IH _ _ _ _ _ H).
Qed.

Lemma isIllegal_iff (t : ConversionTarget) (o : Operation) :
  isIllegal t o = true <-> In (getName o) (illegalOps t).
Proof.
  unfold isIllegal, getOpAction.
  destruct (existsb (OperationName_eqb (getName o)) (illegalOps t)) eqn:E.
  - split; [intros _|reflexivity].
    apply existsb_exists in E. destruct E as (x & Hx & E).
    unfold OperationName_eqb in E. apply andb_true_iff in E.
    destruct E as [E1 E2]. apply String.eqb_eq in E1, E2.
    destruct x as [d n], (getName o) as [d' n']. cbn in E1, E2. now subst.
  - split.
    + destruct (existsb _ (legalDialects t)); discriminate.
    + intros Hin. assert (E' : existsb (OperationName_eqb (getName o))
                                  (illegalOps t) = true).
      { apply existsb_exists. exists (getName o). split; [exact Hin|].
        unfold OperationName_eqb. now rewrite !String.eqb_refl. }
      congruence.
Qed.

(** C7: the pass declares the four operations illegal and the five dialects
    legal (lines 655-660); a run that succeeds leaves none of the four in
    the IR, regions included; whatever a rule of the pass creates is legal;
    and the pass signals failure exactly when the conversion failed (lines
    666-668), while an assertion that stops a rule stops the compiler. *)
Theorem pass_leaves_no_illegal_operation :
  illegalOps target =
    [("miopen", "fill"); ("miopen", "blockwise_gemm");
     ("miopen", "blockwise_gemm_v2"); ("miopen", "threadwise_copy_v2")]
  /\ legalDialects target = ["arith"; "miopen"; "affine"; "memref"; "vector"]
  /\ (forall o, isIllegal target o = true <->
                In (getName o)
                   [("miopen", "fill"); ("miopen", "blockwise_gemm");
                    ("miopen", "blockwise_gemm_v2");
                    ("miopen", "threadwise_copy_v2")])
  /\ (forall fuel next ir ir' mp,
        runOnOperation XdlopsCodeSelection_get untransform fuel next ir =
        PassSucceeded ir' mp ->
        anyIllegal target ir' = false)
  /\ (forall mp o rw n r s,
        matchPattern rules mp o = Some rw ->
        rw (initState n) = Ok (r, s) ->
        forallb (allLegal target) (emitted s) = true)
  /\ (forall fuel next ir,
        applyPartialConversion fuel target rules next [] ir = Failed <->
        runOnOperation XdlopsCodeSelection_get untransform fuel next ir =
        PassFailureSignalled)
  /\ (forall fuel next ir why,
        applyPartialConversion fuel target rules next [] ir = Stopped why <->
        runOnOperation XdlopsCodeSelection_get untransform fuel next ir =
        PassStopped why).
Proof.
  split; [reflexivity|]. split; [reflexivity|].
  split; [intros o; apply isIllegal_iff|].
  split; [|split; [|split]].
  - intros fuel next ir ir' mp H. unfold runOnOperation in H.
    destruct (applyPartialConversion fuel target rules next [] ir) eqn:E;
      try discriminate H.
    injection H as <- <-.
    exact (applyPartialConversion_Converged _ _ _ _ _ _ E).
  - intros mp o rw n r s Hmatch Hrun.
    assert (HP : Preserves rw).
    { unfold patterns in Hmatch. cbn [matchPattern] in Hmatch.
      unfold FillPattern, BlockwiseGemmPattern, BlockwiseGemmV2Pattern,
        ThreadwiseCopyV2Pattern in Hmatch.
      destruct o; try discriminate Hmatch; injection Hmatch as <-.
      - apply P_fill.
      - apply P_gemm.
      - apply P_gemm_v2.
      - apply P_copy. }
    exact (proj1 (HP (initState n) r s eq_refl Hrun)).
  - intros fuel next ir. unfold runOnOperation.
    destruct (applyPartialConversion fuel target rules next [] ir);
      split; intros H; try discriminate H; reflexivity.
  - intros fuel next ir why. unfold runOnOperation.
    destruct (applyPartialConversion fuel target rules next [] ir);
      split; intros H; try discriminate H; injection H as <-; reflexivity.
Qed.

End Driver.

Lemma pass_leaves_no_illegal_operation_witness :
  exists ir' mp,
    runOnOperation (selectAlways xcsPlain) untransformNothing 10 20
      [Fill fillExample; ThreadwiseCopyV2 (copyExample 4)] =
    PassSucceeded ir' mp
    /\ anyIllegal target ir' = false.
Proof.
  destruct (pass_leaves_no_illegal_operation (selectAlways xcsPlain)
              untransformNothing) as (_ & _ & _ & H & _).
  do 2 eexists. split; [vm_compute; reflexivity|].
  apply (H 10%nat 20%nat [Fill fillExample; ThreadwiseCopyV2 (copyExample 4)]
           _ []).
  vm_compute. reflexivity.
Defined.
